(** * Conversation synchronisation engine: chat ids, ledger, message
      channel, presence listeners and the conversation ranker.

    Shallow embedding of [src/firebase/config.js], of the ranking, the
    send and the media handlers of [src/Components/Messages.jsx], of the
    form handlers of [src/Components/Auth.jsx] and of the callback of the
    auth context.

    Conventions of the embedding
    - a JavaScript string is the list of its UTF-16 code units ([list N]);
    - a Firestore document of [chats] is a record of optional fields plus
      the finite map of its [unreadCount_<uid>] fields;
    - store operations run in a small state-and-exception monad: a store
      operation that rejects is an exception, caught by the [try]/[catch]
      of the exported functions;
    - values the backing store chooses (document ids, server timestamps,
      whether a request succeeds) are inputs of the operation;
    - [toUpperCase] and [toLowerCase] are parameters of the functions that
      call them; the display helpers that compute with floating-point
      numbers or with the locale ([formatFileSize], [getTimeAgo],
      [formatMessageTime]) are not embedded. *)

From Stdlib Require Import ZArith NArith List Lia String Ascii Bool.
From Stdlib Require DecimalN.
From stdpp Require Import base option list gmap fin_maps sorting.

Local Open Scope Z_scope.

(* ===================================================================== *)
(** ** JavaScript strings and [Array.prototype.sort] *)
(* ===================================================================== *)

Module JS.

(** A string is its sequence of UTF-16 code units. *)
Abbreviation jsstring := (list N).

(** Literals: the code units of an ASCII literal of the source. *)
Definition lit (s : string) : jsstring :=
  map N_of_ascii (list_ascii_of_string s).

(** [x < y] on strings compares code units lexicographically. *)
Fixpoint str_compare (x y : jsstring) : comparison :=
  match x, y with
  | [], [] => Eq
  | [], _ :: _ => Lt
  | _ :: _, [] => Gt
  | a :: x', b :: y' =>
      match N.compare a b with
      | Eq => str_compare x' y'
      | c => c
      end
  end.

(** A comparator returns a number; [None] stands for [NaN]. *)
Abbreviation number := (option Z).

(** The comparator of [sort()] called without argument, on strings. *)
Definition default_compare (x y : jsstring) : number :=
  match str_compare x y with
  | Lt => Some (-1)
  | Gt => Some 1
  | Eq => Some 0
  end.

(** [SortCompare] of ECMAScript: a [NaN] result counts as [+0]. *)
Definition SortCompare {A} (comparefn : A -> A -> number) (x y : A) : Z :=
  default 0 (comparefn x y).

(** [Array.prototype.sort] is stable.  It is modelled by the stable
    insertion sort: an element is placed before the first element of the
    sorted rest it does not compare greater than. *)
Fixpoint sort_insert {A} (comparefn : A -> A -> number) (x : A) (l : list A)
  : list A :=
  match l with
  | [] => [x]
  | y :: l' =>
      if SortCompare comparefn x y <=? 0 then x :: y :: l'
      else y :: sort_insert comparefn x l'
  end.

Definition sort {A} (comparefn : A -> A -> number) (l : list A) : list A :=
  foldr (sort_insert comparefn) [] l.

(** [Array.prototype.join]. *)
Fixpoint join (sep : jsstring) (l : list jsstring) : jsstring :=
  match l with
  | [] => []
  | [x] => x
  | x :: l' => x ++ sep ++ join sep l'
  end.

(** White space and line terminators removed by [String.prototype.trim]. *)
Definition is_white (c : N) : bool :=
  ((9 <=? c) && (c <=? 13) || (c =? 32) || (c =? 160) || (c =? 5760)
   || (8192 <=? c) && (c <=? 8202) || (c =? 8232) || (c =? 8233)
   || (c =? 8239) || (c =? 8287) || (c =? 12288) || (c =? 65279))%N.

Fixpoint trimStart (s : jsstring) : jsstring :=
  match s with
  | [] => []
  | c :: s' => if is_white c then trimStart s' else s
  end.

Definition trimEnd (s : jsstring) : jsstring := rev (trimStart (rev s)).

Definition trim (s : jsstring) : jsstring := trimEnd (trimStart s).

(** Truthiness of a string: the empty string is falsy. *)
Definition truthy_str (s : jsstring) : bool :=
  match s with [] => false | _ :: _ => true end.

End JS.

Import JS.

(* ===================================================================== *)
(** ** ChatIdentity: [createChatId] *)
(* ===================================================================== *)

(** The separator of a chat id, ['_']. *)
Definition sep : N := 95%N.

(** [[userId1, userId2].sort().join('_')] *)
Definition createChatId (userId1 userId2 : jsstring) : jsstring :=
  join (lit "_") (sort default_compare [userId1; userId2]).

(* ===================================================================== *)
(** ** The document store: data model *)
(* ===================================================================== *)

(** A Firestore [Timestamp]; [toDate] keeps whole milliseconds, the time
    value of the resulting [Date]. *)
Record Timestamp := { seconds : Z; nanoseconds : Z }.

Definition toDate (t : Timestamp) : Z :=
  seconds t * 1000 + nanoseconds t / 1000000.

(** The order Firestore queries use on timestamps. *)
Definition ts_compare (a b : Timestamp) : comparison :=
  match seconds a ?= seconds b with
  | Eq => nanoseconds a ?= nanoseconds b
  | c => c
  end.

Definition ts_ltb (a b : Timestamp) : bool :=
  match ts_compare a b with Lt => true | _ => false end.

(** [fileInfo], as resolved by [uploadFile]. *)
Module FileInfo.
Record t := {
  url : jsstring;
  name : jsstring;
  size : N;
  type : jsstring
}.
End FileInfo.

(** The payload of a message document: [content] for a text message, or
    the media fields. *)
Inductive MessageBody :=
| Text (content : jsstring)
| Media (messageType : jsstring) (mediaUrl fileName : jsstring)
        (fileSize : N) (fileType : jsstring).

(** A document of [chats/{chatId}/messages]. *)
Record Message := {
  senderId : jsstring;
  receiverId : jsstring;
  body : MessageBody;
  timestamp : Timestamp;
  read : bool
}.

(** A document of [chats]: every field is optional because the document
    is only ever written with [{ merge: true }]; [unreadCount_] holds the
    fields [unreadCount_<uid>], keyed by [<uid>]. *)
Record ChatDoc := {
  participants : option (list jsstring);
  lastMessage : option jsstring;
  lastMessageTimestamp : option Timestamp;
  lastMessageSender : option jsstring;
  unreadCount_ : gmap jsstring N
}.

Definition emptyDoc : ChatDoc :=
  {| participants := None; lastMessage := None;
     lastMessageTimestamp := None; lastMessageSender := None;
     unreadCount_ := ∅ |}.

(** The Firestore database [db]: the [chats] collection and, per chat,
    its [messages] sub-collection; documents are keyed by their id. *)
Record Firestore := {
  chats : gmap jsstring ChatDoc;
  messages : gmap jsstring (gmap jsstring Message)
}.

(** The documents of [chats/{chatId}/messages]. *)
Definition collection (st : Firestore) (chatId : jsstring)
  : gmap jsstring Message :=
  default ∅ (messages st !! chatId).

Definition emptyStore : Firestore := {| chats := ∅; messages := ∅ |}.

(** A field of the written data replaces the stored one, an absent one
    leaves it. *)
Definition or_else {A} (new old : option A) : option A :=
  match new with Some x => Some x | None => old end.

(** [setDoc(ref, data, { merge: true })] on the document contents. *)
Definition mergeDoc (data old : ChatDoc) : ChatDoc :=
  {| participants := or_else (participants data) (participants old);
     lastMessage := or_else (lastMessage data) (lastMessage old);
     lastMessageTimestamp :=
       or_else (lastMessageTimestamp data) (lastMessageTimestamp old);
     lastMessageSender :=
       or_else (lastMessageSender data) (lastMessageSender old);
     unreadCount_ := unreadCount_ data ∪ unreadCount_ old |}.

(* ===================================================================== *)
(** ** Store operations: state and exceptions *)
(* ===================================================================== *)

(** A computation on the store either returns a value or throws; the
    store reached is kept in both cases. *)
Definition Op (A : Type) : Type := Firestore -> option A * Firestore.

Definition ret {A} (a : A) : Op A := fun st => (Some a, st).

Definition throw {A} : Op A := fun st => (None, st).

Definition bind {A B} (m : Op A) (k : A -> Op B) : Op B :=
  fun st =>
    match m st with
    | (Some a, st') => k a st'
    | (None, st') => (None, st')
    end.

Notation "'let*' x ':=' m 'in' k" := (bind m (fun x => k))
  (at level 10, x name, m at level 100, k at level 200).
Notation "'do' m 'then' k" := (bind m (fun _ => k))
  (at level 10, m at level 100, k at level 200).

(** [await addDoc(messagesRef, messageData)]: the document is stored
    under the id [docId] the store generates for it; [ok] tells whether
    the store accepts the write. *)
Definition addDoc (ok : bool) (chatId docId : jsstring) (m : Message)
  : Op unit :=
  fun st =>
    if ok then
      (Some tt,
       {| chats := chats st;
          messages :=
            <[chatId := <[docId := m]> (collection st chatId)]>
              (messages st) |})
    else (None, st).

(** [await getDoc(chatRef)], then [chatDoc.data()]: [None] is
    [undefined], the document does not exist. *)
Definition getDoc (ok : bool) (chatId : jsstring) : Op (option ChatDoc) :=
  fun st => if ok then (Some (chats st !! chatId), st) else (None, st).

(** [await setDoc(chatRef, data, { merge: true })]. *)
Definition setDoc (ok : bool) (chatId : jsstring) (data : ChatDoc)
  : Op unit :=
  fun st =>
    if ok then
      (Some tt,
       {| chats :=
            <[chatId := mergeDoc data (default emptyDoc (chats st !! chatId))]>
              (chats st);
          messages := messages st |})
    else (None, st).

(** What the backing store decides for one send: which requests succeed,
    the id of the new message document and the two server timestamps. *)
Record SendEnv := {
  addOk : bool;
  getOk : bool;
  setOk : bool;
  newId : jsstring;
  messageTime : Timestamp;
  metadataTime : Timestamp
}.

(** The field [unreadCount_<uid>] of [chatDoc.data() || {}], read with
    [|| 0]. *)
Definition unreadOf (chatDoc : option ChatDoc) (uid : jsstring) : N :=
  let currentData := default emptyDoc chatDoc in
  default 0%N (unreadCount_ currentData !! uid).

(** The object literal of the metadata write.  The two computed keys are
    written in source order: when they coincide the later one, the
    sender's [0], stays. *)
Definition metadata (senderId receiverId preview : jsstring)
    (now : Timestamp) (currentUnreadCount : N) : ChatDoc :=
  {| participants := Some [senderId; receiverId];
     lastMessage := Some preview;
     lastMessageTimestamp := Some now;
     lastMessageSender := Some senderId;
     unreadCount_ :=
       <[senderId := 0%N]>
         (<[receiverId := (currentUnreadCount + 1)%N]> ∅) |}.

(** The read-then-write of the chat metadata, the same statements in
    [sendMessage] and in [sendMediaMessage] up to the preview written. *)
Definition updateMetadata (env : SendEnv)
    (chatId senderId receiverId preview : jsstring) : Op unit :=
  let* chatDoc := getDoc (getOk env) chatId in
  let currentUnreadCount := unreadOf chatDoc receiverId in
  setDoc (setOk env) chatId
    (metadata senderId receiverId preview (metadataTime env)
       currentUnreadCount).

(** [try { ... return true } catch { return false }] *)
Definition try_catch (m : Op unit) (st : Firestore) : bool * Firestore :=
  match m st with
  | (Some _, st') => (true, st')
  | (None, st') => (false, st')
  end.

(** [sendMessage(senderId, receiverId, content)] *)
Definition sendMessage (env : SendEnv)
    (senderId receiverId content : jsstring) (st : Firestore)
  : bool * Firestore :=
  try_catch
    (let chatId := createChatId senderId receiverId in
     let messageData :=
       {| senderId := senderId; receiverId := receiverId;
          body := Text (trim content); timestamp := messageTime env;
          read := false |} in
     do addDoc (addOk env) chatId (newId env) messageData then
     updateMetadata env chatId senderId receiverId (trim content))
    st.

(** The preview of a media message, by [messageType]. *)
Definition lastMessagePreview (messageType : jsstring) (fileInfo : FileInfo.t)
  : jsstring :=
  if decide (messageType = lit "image") then
    [55357; 56567]%N ++ lit " Photo"
  else if decide (messageType = lit "video") then
    [55356; 57253]%N ++ lit " Video"
  else [55357; 56526]%N ++ lit " " ++ FileInfo.name fileInfo.

(** [sendMediaMessage(senderId, receiverId, fileInfo, messageType)] *)
Definition sendMediaMessage (env : SendEnv)
    (senderId receiverId : jsstring) (fileInfo : FileInfo.t)
    (messageType : jsstring) (st : Firestore) : bool * Firestore :=
  try_catch
    (let chatId := createChatId senderId receiverId in
     let messageData :=
       {| senderId := senderId; receiverId := receiverId;
          body := Media messageType (FileInfo.url fileInfo)
                    (FileInfo.name fileInfo) (FileInfo.size fileInfo)
                    (FileInfo.type fileInfo);
          timestamp := messageTime env; read := false |} in
     do addDoc (addOk env) chatId (newId env) messageData then
     updateMetadata env chatId senderId receiverId
       (lastMessagePreview messageType fileInfo))
    st.

(* ===================================================================== *)
(** ** Queries and read state *)
(* ===================================================================== *)

(** The documents of a collection as a snapshot lists them: by document
    id. *)
Definition by_id {V} (a b : jsstring * V) : number :=
  default_compare (fst a) (fst b).

Definition docs {V} (c : gmap jsstring V) : list (jsstring * V) :=
  sort by_id (map_to_list c).

(** [orderBy('timestamp', 'desc')]: later timestamps first, equal
    timestamps by document id in the same direction. *)
Definition timestamp_desc (a b : jsstring * Message) : number :=
  match ts_compare (timestamp (snd b)) (timestamp (snd a)) with
  | Lt => Some (-1)
  | Gt => Some 1
  | Eq => default_compare (fst b) (fst a)
  end.

(** [await getDocs(q)] for a query of the messages of a chat with the
    [where] filter [matches]. *)
Definition getDocs (ok : bool) (chatId : jsstring)
    (matches : Message -> bool) : Op (list (jsstring * Message)) :=
  fun st =>
    if ok then
      (Some (filter (fun d => matches (snd d) = true)
               (docs (collection st chatId))), st)
    else (None, st).

(** Merging [{ read: true }] into a message document. *)
Definition readTrue (m : Message) : Message :=
  {| senderId := senderId m; receiverId := receiverId m;
     body := body m; timestamp := timestamp m; read := true |}.

(** [setDoc(doc.ref, { read: true }, { merge: true })] on a message
    document returned by a query. *)
Definition setRead (ok : bool) (chatId docId : jsstring) : Op unit :=
  fun st =>
    if ok then
      (Some tt,
       {| chats := chats st;
          messages := alter (alter readTrue docId) chatId (messages st) |})
    else (None, st).

(** [await Promise.all(promises)]: every write has been issued; the
    result rejects when one of them does. *)
Fixpoint Promise_all (promises : list (Op unit)) : Op unit :=
  fun st =>
    match promises with
    | [] => (Some tt, st)
    | p :: rest =>
        let (r, st1) := p st in
        let (rs, st2) := Promise_all rest st1 in
        (match r, rs with Some _, Some _ => Some tt | _, _ => None end, st2)
    end.

(** What the backing store decides for one [markChatAsRead]. *)
Record ReadEnv := {
  resetOk : bool;
  queryOk : bool;
  markOk : jsstring -> bool
}.

Definition unreadMessage (userId : jsstring) (m : Message) : bool :=
  bool_decide (receiverId m = userId) && bool_decide (read m = false).

Definition resetCount (userId : jsstring) : ChatDoc :=
  {| participants := None; lastMessage := None;
     lastMessageTimestamp := None; lastMessageSender := None;
     unreadCount_ := {[ userId := 0%N ]} |}.

(** [markChatAsRead(chatId, userId)]; the [catch] only logs. *)
Definition markChatAsRead (env : ReadEnv) (chatId userId : jsstring)
    (st : Firestore) : Firestore :=
  snd
    ((do setDoc (resetOk env) chatId (resetCount userId) then
      let* snapshot := getDocs (queryOk env) chatId (unreadMessage userId) in
      let updatePromises :=
        map (fun doc => setRead (markOk env (fst doc)) chatId (fst doc))
          snapshot in
      Promise_all updatePromises) st).

(** The counter [unreadCount_<uid>] of the ledger entry of a chat, read
    as the clients read it ([|| 0]). *)
Definition unreadCount (st : Firestore) (chatId uid : jsstring) : N :=
  unreadOf (chats st !! chatId) uid.

(** An element of the array [getUserChatsWithCounts] delivers:
    [{ id: doc.id, ...data, unreadCount: data[`unreadCount_${userId}`] || 0 }]. *)
Module Chat.
Record t := {
  id : jsstring;
  data : ChatDoc;
  unreadCount : N
}.
End Chat.

(** The comparator of [getUserChatsWithCounts]. *)
Definition byLastMessage (a b : Chat.t) : number :=
  match lastMessageTimestamp (Chat.data a),
        lastMessageTimestamp (Chat.data b) with
  | None, None => Some 0
  | None, Some _ => Some 1
  | Some _, None => Some (-1)
  | Some aT, Some bT =>
      let aTime := toDate aT in
      let bTime := toDate bT in
      Some (bTime - aTime)
  end.

(** [where('participants', 'array-contains', userId)] *)
Definition array_contains (userId : jsstring) (d : jsstring * ChatDoc)
  : bool :=
  bool_decide (userId ∈ default [] (participants (snd d))).

(** The array the snapshot listener of [getUserChatsWithCounts(userId, _)]
    passes to its callback when the store is [st]. *)
Definition getUserChatsWithCounts (userId : jsstring) (st : Firestore)
  : list Chat.t :=
  sort byLastMessage
    (map (fun doc =>
            let data := snd doc in
            {| Chat.id := fst doc; Chat.data := data;
               Chat.unreadCount :=
                 default 0%N (unreadCount_ data !! userId) |})
       (filter (fun d => array_contains userId d = true) (docs (chats st)))).

(** [where('timestamp', '<', bound)], when the query has one. *)
Definition before (bound : option Timestamp) (d : jsstring * Message)
  : bool :=
  match bound with
  | Some t => ts_ltb (timestamp (snd d)) t
  | None => true
  end.

(** The page a query [orderBy('timestamp', 'desc')], optional
    [where('timestamp', '<', bound)], [limit(limitCount)] selects;
    [limit] takes a positive number. *)
Definition page (bound : option Timestamp) (limitCount : nat)
    (c : gmap jsstring Message) : list (jsstring * Message) :=
  take limitCount
    (sort timestamp_desc
       (filter (fun d => before bound d = true) (docs c))).

(** The array the snapshot listener of [getChatMessages] passes to its
    callback when the store is [st]: each element is
    [{ id: doc.id, ...doc.data() }]. *)
Definition getChatMessages (userId1 userId2 : jsstring) (limitCount : nat)
    (st : Firestore) : list (jsstring * Message) :=
  let chatId := createChatId userId1 userId2 in
  reverse (page None limitCount (collection st chatId)).

(** [loadOlderMessages(userId1, userId2, lastMessage, limitCount)]; a
    rejected [getDocs] rejects the call. *)
Definition loadOlderMessages (ok : bool) (userId1 userId2 : jsstring)
    (lastMessage : jsstring * Message) (limitCount : nat)
  : Op (list (jsstring * Message)) :=
  fun st =>
    let chatId := createChatId userId1 userId2 in
    if ok then
      (Some
         (reverse
            (page (Some (timestamp (snd lastMessage))) limitCount
               (collection st chatId))), st)
    else (None, st).

(** A sequence of sends from one sender to one receiver, each with what
    the store decides for it, run one after the other. *)
Inductive Append :=
| SendText (content : jsstring)
| SendMedia (fileInfo : FileInfo.t) (messageType : jsstring).

Definition append (senderId receiverId : jsstring)
    (a : SendEnv * Append) (st : Firestore) : bool * Firestore :=
  match snd a with
  | SendText content => sendMessage (fst a) senderId receiverId content st
  | SendMedia fileInfo messageType =>
      sendMediaMessage (fst a) senderId receiverId fileInfo messageType st
  end.

Fixpoint appends (senderId receiverId : jsstring)
    (l : list (SendEnv * Append)) (st : Firestore)
  : list bool * Firestore :=
  match l with
  | [] => ([], st)
  | a :: l' =>
      let (r, st1) := append senderId receiverId a st in
      let (rs, st2) := appends senderId receiverId l' st1 in
      (r :: rs, st2)
  end.

(* ===================================================================== *)
(** ** Two sends in flight: the await points *)
(* ===================================================================== *)

(** A send is suspended at each [await]; between two of them other
    clients' requests reach the store. *)
Module Async.

(** Where a call of [sendMessage] or [sendMediaMessage] stands. *)
Inductive Pc :=
| AtAddDoc
| AtGetDoc
| AtSetDoc (currentUnreadCount : N)
| Returned (result : bool).

(** The arguments of a call, with the preview it writes. *)
Record Call := {
  env : SendEnv;
  sender : jsstring;
  receiver : jsstring;
  messageData : Message;
  preview : jsstring
}.

Definition textCall (env : SendEnv) (senderId receiverId content : jsstring)
  : Call :=
  {| env := env; sender := senderId; receiver := receiverId;
     messageData :=
       {| senderId := senderId; receiverId := receiverId;
          body := Text (trim content); timestamp := messageTime env;
          read := false |};
     preview := trim content |}.

Definition mediaCall (env : SendEnv) (senderId receiverId : jsstring)
    (fileInfo : FileInfo.t) (messageType : jsstring) : Call :=
  {| env := env; sender := senderId; receiver := receiverId;
     messageData :=
       {| senderId := senderId; receiverId := receiverId;
          body := Media messageType (FileInfo.url fileInfo)
                    (FileInfo.name fileInfo) (FileInfo.size fileInfo)
                    (FileInfo.type fileInfo);
          timestamp := messageTime env; read := false |};
     preview := lastMessagePreview messageType fileInfo |}.

(** One request of the call reaches the store. *)
Definition step (c : Call) (pc : Pc) (st : Firestore) : Pc * Firestore :=
  let chatId := createChatId (sender c) (receiver c) in
  match pc with
  | AtAddDoc =>
      match addDoc (addOk (env c)) chatId (newId (env c)) (messageData c) st
      with
      | (Some _, st') => (AtGetDoc, st')
      | (None, st') => (Returned false, st')
      end
  | AtGetDoc =>
      match getDoc (getOk (env c)) chatId st with
      | (Some chatDoc, st') => (AtSetDoc (unreadOf chatDoc (receiver c)), st')
      | (None, st') => (Returned false, st')
      end
  | AtSetDoc currentUnreadCount =>
      match
        setDoc (setOk (env c)) chatId
          (metadata (sender c) (receiver c) (preview c)
             (metadataTime (env c)) currentUnreadCount) st
      with
      | (Some _, st') => (Returned true, st')
      | (None, st') => (Returned false, st')
      end
  | Returned r => (Returned r, st)
  end.

(** Two calls in flight; the schedule names, request after request, the
    call whose next request the store serves ([true]: the first). *)
Fixpoint run (schedule : list bool) (c1 c2 : Call) (pc1 pc2 : Pc)
    (st : Firestore) : Pc * Pc * Firestore :=
  match schedule with
  | [] => (pc1, pc2, st)
  | true :: rest =>
      let (pc1', st') := step c1 pc1 st in run rest c1 c2 pc1' pc2 st'
  | false :: rest =>
      let (pc2', st') := step c2 pc2 st in run rest c1 c2 pc1 pc2' st'
  end.

(** Both calls write their message, both read the counter, then both
    write it. *)
Definition racing : list bool := [true; false; true; false; true; false].

End Async.

(* ===================================================================== *)
(** ** Presence: the realtime database and its listeners *)
(* ===================================================================== *)

Module Presence.

(** A record of [/status/{userId}]. *)
Record Status := { state : jsstring; last_changed : Timestamp }.

(** The realtime database: the status records, the writes registered
    with [onDisconnect], and the value listeners attached to
    [/status/{userId}], each with the handle [onValue] returned for it. *)
Record Rtdb := {
  status : gmap jsstring Status;
  disconnectWrites : gmap jsstring Status;
  listeners : list (nat * jsstring);
  nextHandle : nat
}.

(** What a function call evaluates to: [undefined], or a function that
    unsubscribes the listeners with the given handles. *)
Inductive Result :=
| undefined
| Unsubscribe (handles : list nat).

(** [initializePresence(userId)] *)
Definition initializePresence (now : Timestamp) (userId : jsstring)
    (db : Rtdb) : Rtdb :=
  let isOnlineForDatabase :=
    {| state := lit "online"; last_changed := now |} in
  let isOfflineForDatabase :=
    {| state := lit "offline"; last_changed := now |} in
  {| status := <[userId := isOnlineForDatabase]> (status db);
     disconnectWrites :=
       <[userId := isOfflineForDatabase]> (disconnectWrites db);
     listeners := listeners db;
     nextHandle := nextHandle db |}.

(** [onValue(userStatusRef, callback)]: attaches a listener and returns
    the function that detaches it. *)
Definition onValue (userId : jsstring) (db : Rtdb) : Result * Rtdb :=
  (Unsubscribe [nextHandle db],
   {| status := status db;
      disconnectWrites := disconnectWrites db;
      listeners := listeners db ++ [(nextHandle db, userId)];
      nextHandle := S (nextHandle db) |}).

(** Calling a returned value: an unsubscribe function detaches its
    listeners; [undefined] is not callable. *)
Definition call (r : Result) (db : Rtdb) : option Rtdb :=
  match r with
  | undefined => None
  | Unsubscribe handles =>
      Some
        {| status := status db;
           disconnectWrites := disconnectWrites db;
           listeners :=
             filter (fun l => fst l ∉ handles) (listeners db);
           nextHandle := nextHandle db |}
  end.

(** [listenToUserPresence(userIds, callback)]: the [forEach] drops what
    [onValue] returns, and the function has no [return]. *)
Definition listenToUserPresence (userIds : list jsstring) (db : Rtdb)
  : Result * Rtdb :=
  (undefined, foldl (fun db userId => snd (onValue userId db)) db userIds).

(** The listeners a change of [/status/{userId}] calls back. *)
Definition notified (userId : jsstring) (db : Rtdb) : list nat :=
  map fst (filter (fun l => snd l = userId) (listeners db)).

End Presence.

(* ===================================================================== *)
(** ** The Messages component: state, ranking and the send handler *)
(* ===================================================================== *)

(** A document of [users], as [listenToUsers] delivers it. *)
Module User.
Record t := {
  id : jsstring;
  displayName : jsstring;
  email : jsstring;
  createdAt : option Timestamp
}.
End User.

(** An element of [otherUsers]:
    [{ ...user, isOnline, unreadCount, lastMessageTime, lastMessage }]. *)
Module OtherUser.
Record t := {
  user : User.t;
  isOnline : bool;
  unreadCount : N;
  lastMessageTime : option Timestamp;
  lastMessage : option jsstring
}.
Definition id (r : t) : jsstring := User.id (user r).
Definition createdAt (r : t) : option Timestamp := User.createdAt (user r).
End OtherUser.

Module Messages.

(** The state of the component: its [useState] cells and [currentUser]
    of the auth context ([None] is [null]; only [uid] is read). *)
Record State := {
  avatarsCollapsed : bool;
  selectedChat : option jsstring;
  showUserMenu : bool;
  users : list User.t;
  loading : bool;
  messages : list (jsstring * Message);
  newMessage : jsstring;
  sendingMessage : bool;
  headerCollapsed : bool;
  isMobile : bool;
  userPresence : gmap jsstring bool;
  chatCounts : gmap jsstring Chat.t;
  isActivelyChatting : bool;
  uploadProgress : N;
  isUploading : bool;
  showMediaPreview : bool;
  currentUser : option jsstring
}.

Definition setNewMessage (v : jsstring) (s : State) : State :=
  {| avatarsCollapsed := avatarsCollapsed s; selectedChat := selectedChat s;
     showUserMenu := showUserMenu s; users := users s; loading := loading s;
     messages := messages s; newMessage := v;
     sendingMessage := sendingMessage s;
     headerCollapsed := headerCollapsed s; isMobile := isMobile s;
     userPresence := userPresence s; chatCounts := chatCounts s;
     isActivelyChatting := isActivelyChatting s;
     uploadProgress := uploadProgress s; isUploading := isUploading s;
     showMediaPreview := showMediaPreview s; currentUser := currentUser s |}.

Definition setSendingMessage (v : bool) (s : State) : State :=
  {| avatarsCollapsed := avatarsCollapsed s; selectedChat := selectedChat s;
     showUserMenu := showUserMenu s; users := users s; loading := loading s;
     messages := messages s; newMessage := newMessage s;
     sendingMessage := v;
     headerCollapsed := headerCollapsed s; isMobile := isMobile s;
     userPresence := userPresence s; chatCounts := chatCounts s;
     isActivelyChatting := isActivelyChatting s;
     uploadProgress := uploadProgress s; isUploading := isUploading s;
     showMediaPreview := showMediaPreview s; currentUser := currentUser s |}.

Definition setIsActivelyChatting (v : bool) (s : State) : State :=
  {| avatarsCollapsed := avatarsCollapsed s; selectedChat := selectedChat s;
     showUserMenu := showUserMenu s; users := users s; loading := loading s;
     messages := messages s; newMessage := newMessage s;
     sendingMessage := sendingMessage s;
     headerCollapsed := headerCollapsed s; isMobile := isMobile s;
     userPresence := userPresence s; chatCounts := chatCounts s;
     isActivelyChatting := v;
     uploadProgress := uploadProgress s; isUploading := isUploading s;
     showMediaPreview := showMediaPreview s; currentUser := currentUser s |}.

(** [x || ''] and the truthiness of [selectedChat] and of a timestamp. *)
Definition or_empty (x : option jsstring) : jsstring := default [] x.

Definition truthy_id (x : option jsstring) : bool :=
  match x with Some s => truthy_str s | None => false end.

Definition truthy {A} (x : option A) : bool :=
  match x with Some _ => true | None => false end.

(** The [map] callback of [filteredUsers]. *)
Definition annotate (currentUser : option jsstring)
    (userPresence : gmap jsstring bool) (chatCounts : gmap jsstring Chat.t)
    (user : User.t) : OtherUser.t :=
  let chatId := createChatId (or_empty currentUser) (User.id user) in
  let unreadCount := default 0%N (Chat.unreadCount <$> chatCounts !! chatId) in
  let lastMessageTime :=
    chatCounts !! chatId ≫= (fun c => lastMessageTimestamp (Chat.data c)) in
  {| OtherUser.user := user;
     OtherUser.isOnline := default false (userPresence !! User.id user);
     OtherUser.unreadCount := unreadCount;
     OtherUser.lastMessageTime := lastMessageTime;
     OtherUser.lastMessage :=
       match chatCounts !! chatId ≫= (fun c => lastMessage (Chat.data c)) with
       | Some m => if truthy_str m then Some m else None
       | None => None
       end |}.

(** [bCreated - aCreated]: a missing [createdAt] gives an invalid date
    and the difference is [NaN]. *)
Definition date_diff (b a : option Timestamp) : number :=
  match b, a with
  | Some bT, Some aT => Some (toDate bT - toDate aT)
  | _, _ => None
  end.

(** The comparator of [filteredUsers], statement by statement. *)
Definition compareUsers (selectedChat : option jsstring)
    (isActivelyChatting : bool) (a b : OtherUser.t) : number :=
  let isASelected := bool_decide (Some (OtherUser.id a) = selectedChat) in
  let isBSelected := bool_decide (Some (OtherUser.id b) = selectedChat) in
  let rest :=
    (* first priority: unread messages, only for non-selected chats *)
    if negb isASelected && negb isBSelected
       && (0 <? OtherUser.unreadCount a)%N && (OtherUser.unreadCount b =? 0)%N
    then Some (-1)
    else if negb isASelected && negb isBSelected
       && (OtherUser.unreadCount a =? 0)%N && (0 <? OtherUser.unreadCount b)%N
    then Some 1
    else
      (* second priority: recent messages *)
      let byTime (k : number) : number :=
        match OtherUser.lastMessageTime a, OtherUser.lastMessageTime b with
        | Some aT, Some bT =>
            let aTime := toDate aT in
            let bTime := toDate bT in
            if aTime >? bTime then Some (-1)
            else if aTime <? bTime then Some 1
            else k
        | Some _, None => Some (-1)
        | None, Some _ => Some 1
        | None, None => k
        end in
      byTime
        (* third priority: online status *)
        (if OtherUser.isOnline a && negb (OtherUser.isOnline b) then Some (-1)
         else if negb (OtherUser.isOnline a) && OtherUser.isOnline b then Some 1
         else
           (* fourth priority: creation time *)
           date_diff (OtherUser.createdAt b) (OtherUser.createdAt a)) in
  if isActivelyChatting then
    if isASelected && negb isBSelected then Some (-1)
    else if isBSelected && negb isASelected then Some 1
    else rest
  else
    if isASelected && negb isBSelected && truthy (OtherUser.lastMessageTime a)
    then Some (-1)
    else if isBSelected && negb isASelected && truthy (OtherUser.lastMessageTime b)
    then Some 1
    else rest.

(** [user.id !== currentUser?.uid]: without a current user the right-hand
    side is [undefined] and every user passes. *)
Definition isOther (currentUser : option jsstring) (user : User.t) : bool :=
  negb (bool_decide (Some (User.id user) = currentUser)).

(** The memoised [filteredUsers]. *)
Definition filteredUsers (s : State) : list OtherUser.t :=
  let otherUsers :=
    map (annotate (currentUser s) (userPresence s) (chatCounts s))
      (filter (fun user => isOther (currentUser s) user = true) (users s)) in
  sort (compareUsers (selectedChat s) (isActivelyChatting s)) otherUsers.

(** The same computation on arrays in memory: [users] is the array at
    [usersRef]; [filter] and [map] each allocate a new array, and [sort]
    sorts the array [otherUsers] in place and returns it.  The result is
    the address of [otherUsers]. *)
Inductive Array :=
| UserArray (elements : list User.t)
| RowArray (elements : list OtherUser.t).

Definition new (a : Array) (mem : list Array) : nat * list Array :=
  (length mem, mem ++ [a]).


(** [handleSendMessage(e)], up to the completion of the handler.  The
    state returned is the one the setters called leave; the timer that
    later clears [isActivelyChatting] has not fired yet.  Reading
    [currentUser.uid] of a [null] user throws inside the [try]. *)
Definition handleSendMessage (env : SendEnv) (s : State) (st : Firestore)
  : State * Firestore :=
  if negb (truthy_str (trim (newMessage s)))
     || negb (truthy_id (selectedChat s))
     || sendingMessage s
  then (s, st)
  else
    let messageToSend := trim (newMessage s) in
    let s1 :=
      setNewMessage [] (setIsActivelyChatting true (setSendingMessage true s))
    in
    match currentUser s with
    | Some uid =>
        let (success, st') :=
          sendMessage env uid (or_empty (selectedChat s)) messageToSend st in
        let s2 := if success then s1 else setNewMessage messageToSend s1 in
        (setSendingMessage false s2, st')
    | None =>
        (setSendingMessage false (setNewMessage messageToSend s1), st)
    end.

End Messages.

(* ===================================================================== *)
(** ** Auxiliary definitions of the proofs and sample inputs *)
(* ===================================================================== *)

(** The two senders share their shape: the message write followed by the
    metadata update, inside one [try]. *)
Definition send (env : SendEnv) (chatId : jsstring) (m : Message)
    (S R preview : jsstring) : Firestore → bool * Firestore :=
  try_catch
    (do addDoc (addOk env) chatId (newId env) m then
     updateMetadata env chatId S R preview).

(** Requests that all succeed, with fixed ids and times. *)
Definition okEnv (docId : jsstring) (t : Z) : SendEnv :=
  {| addOk := true; getOk := true; setOk := true; newId := docId;
     messageTime := {| seconds := t; nanoseconds := 0 |};
     metadataTime := {| seconds := t; nanoseconds := 500 |} |}.

Definition cat_png : FileInfo.t :=
  {| FileInfo.url := lit "https://blob/cat.png";
     FileInfo.name := lit "cat.png";
     FileInfo.size := 1024%N; FileInfo.type := lit "image/png" |}.

(** A component that has loaded nothing yet, with [text] typed in the
    input of the chat with [chat]. *)
Definition typing (uid : jsstring) (chat : option jsstring)
    (text : jsstring) : Messages.State :=
  {| Messages.avatarsCollapsed := false; Messages.selectedChat := chat;
     Messages.showUserMenu := false; Messages.users := [];
     Messages.loading := true; Messages.messages := [];
     Messages.newMessage := text; Messages.sendingMessage := false;
     Messages.headerCollapsed := false; Messages.isMobile := false;
     Messages.userPresence := ∅; Messages.chatCounts := ∅;
     Messages.isActivelyChatting := false; Messages.uploadProgress := 0%N;
     Messages.isUploading := false; Messages.showMediaPreview := false;
     Messages.currentUser := Some uid |}.

(** Sample inputs. *)
Definition alice : jsstring := lit "alice".
Definition bob : jsstring := lit "bob".

Definition threeSends : list (SendEnv * Append) :=
  [(okEnv (lit "m1") 1, SendText (lit "hi"));
   (okEnv (lit "m2") 2, SendMedia cat_png (lit "image"));
   (okEnv (lit "m3") 3, SendText (lit "there"))].

Definition blankSend : bool * Firestore :=
  sendMessage (okEnv (lit "m1") 1) alice bob (lit "  ") emptyStore.

Definition typingBlank : Messages.State :=
  typing alice (Some bob) (lit "  ").

Definition typingHi : Messages.State :=
  typing alice (Some bob) (lit " hi ").

(** The writes [markChatAsRead] issues for the documents of a snapshot. *)
Definition updatePromises (env : ReadEnv) (chatId : jsstring)
    (snapshot : list (jsstring * Message)) : list (Op unit) :=
  map (fun doc => setRead (markOk env (fst doc)) chatId (fst doc)) snapshot.

(** A store that answers every request of [markChatAsRead]. *)
Definition okRead : ReadEnv :=
  {| resetOk := true; queryOk := true; markOk := fun _ => true |}.

(** The store after [threeSends]. *)
Definition afterThreeSends : Firestore :=
  snd (appends alice bob threeSends emptyStore).

(** Two text messages of [alice] to [bob] sent at the same time. *)
Definition firstCall : Async.Call :=
  Async.textCall (okEnv (lit "m1") 1) alice bob (lit "one").

Definition secondCall : Async.Call :=
  Async.textCall (okEnv (lit "m2") 1) alice bob (lit "two").

Definition allOk (env : SendEnv) : Prop :=
  addOk env = true ∧ getOk env = true ∧ setOk env = true.

(** Six text messages of [alice] to [bob], at seconds 1 to 6. *)
Definition sixSends : list (SendEnv * Append) :=
  [(okEnv (lit "m1") 1, SendText (lit "one"));
   (okEnv (lit "m2") 2, SendText (lit "two"));
   (okEnv (lit "m3") 3, SendText (lit "three"));
   (okEnv (lit "m4") 4, SendText (lit "four"));
   (okEnv (lit "m5") 5, SendText (lit "five"));
   (okEnv (lit "m6") 6, SendText (lit "six"))].

Definition afterSixSends : Firestore :=
  snd (appends alice bob sixSends emptyStore).

(** The fourth of them, as a live page delivers it. *)
Definition fourth : jsstring * Message :=
  (lit "m4",
   {| senderId := alice; receiverId := bob; body := Text (lit "four");
      timestamp := {| seconds := 4; nanoseconds := 0 |}; read := false |}).


(** A realtime database nobody listens to. *)
Definition emptyRtdb : Presence.Rtdb :=
  {| Presence.status := ∅; Presence.disconnectWrites := ∅;
     Presence.listeners := []; Presence.nextHandle := 0 |}.

(** A user list and ledger view of [alice]: [carol] has two unread
    messages, [dave] the latest message, [bob] no message at all. *)
Definition at_second (t : Z) : Timestamp :=
  {| seconds := t; nanoseconds := 0 |}.

Definition sampleUser (uid : jsstring) (created : Z) : User.t :=
  {| User.id := uid; User.displayName := uid; User.email := uid;
     User.createdAt := Some (at_second created) |}.

Definition sampleChat (other : jsstring) (unread : N) (t : Z) : Chat.t :=
  {| Chat.id := createChatId alice other;
     Chat.data :=
       {| participants := Some [other; alice];
          lastMessage := Some (lit "hello");
          lastMessageTimestamp := Some (at_second t);
          lastMessageSender := Some other;
          unreadCount_ := {[ alice := unread ]} |};
     Chat.unreadCount := unread |}.

Definition sampleState (typed : jsstring) (active : bool) : Messages.State :=
  {| Messages.avatarsCollapsed := false;
     Messages.selectedChat := Some bob;
     Messages.showUserMenu := false;
     Messages.users :=
       [sampleUser (lit "dave") 40; sampleUser (lit "carol") 30;
        sampleUser bob 20; sampleUser alice 10];
     Messages.loading := false; Messages.messages := [];
     Messages.newMessage := typed; Messages.sendingMessage := false;
     Messages.headerCollapsed := false; Messages.isMobile := false;
     Messages.userPresence := {[ lit "carol" := true ]};
     Messages.chatCounts :=
       {[ createChatId alice (lit "carol") := sampleChat (lit "carol") 2 50;
          createChatId alice (lit "dave") := sampleChat (lit "dave") 0 60 ]};
     Messages.isActivelyChatting := active;
     Messages.uploadProgress := 0%N;
     Messages.isUploading := false; Messages.showMediaPreview := false;
     Messages.currentUser := Some alice |}.

(** [sort] may leave [x] before [y]. *)
Definition sorts_before {A} (comparefn : A -> A -> number) (x y : A)
  : Prop :=
  SortCompare comparefn x y <= 0.

(** [a] is listed no later than [b] by [orderBy('timestamp', 'desc')]. *)
Definition desc_le (a b : jsstring * Message) : Prop :=
  ts_compare (timestamp b.2) (timestamp a.2) = Lt
  ∨ (ts_compare (timestamp b.2) (timestamp a.2) = Eq
     ∧ str_compare b.1 a.1 ≠ Gt).



(* ===================================================================== *)
(** ** Further store functions and the stores they reach *)
(* ===================================================================== *)

(** [markMessagesAsRead(chatId, userId)]: the query and the writes of
    [markChatAsRead] without the reset of the counter; the [catch] only
    logs. *)
Definition markMessagesAsRead (env : ReadEnv) (chatId userId : jsstring)
    (st : Firestore) : Firestore :=
  snd
    ((let* snapshot := getDocs (queryOk env) chatId (unreadMessage userId) in
      let updatePromises :=
        map (fun doc => setRead (markOk env (fst doc)) chatId (fst doc))
          snapshot in
      Promise_all updatePromises) st).

(** The stores the exported functions lead to from the empty database,
    whatever the store answers.  A single request of a send in flight is
    a step of its own, so that sends and reads of several clients may
    interleave in any way. *)
Inductive reachable : Firestore -> Prop :=
| reach_empty : reachable emptyStore
| reach_sendMessage env S R content st :
    reachable st -> reachable (snd (sendMessage env S R content st))
| reach_sendMediaMessage env S R fileInfo messageType st :
    reachable st ->
    reachable (snd (sendMediaMessage env S R fileInfo messageType st))
| reach_markChatAsRead env chatId userId st :
    reachable st -> reachable (markChatAsRead env chatId userId st)
| reach_markMessagesAsRead env chatId userId st :
    reachable st -> reachable (markMessagesAsRead env chatId userId st)
| reach_text_request env S R content pc st :
    reachable st ->
    reachable (snd (Async.step (Async.textCall env S R content) pc st))
| reach_media_request env S R fileInfo messageType pc st :
    reachable st ->
    reachable
      (snd (Async.step (Async.mediaCall env S R fileInfo messageType) pc st)).

(** What every ledger entry of a reachable store satisfies: the metadata
    of the last message is there as a whole or not at all.  With it, the
    entry is filed under the chat id of its two participants, the first
    of which sent the last message, and that sender has no unread
    message; without it, nobody has. *)
Definition ledger_entry_ok (chatId : jsstring) (d : ChatDoc) : Prop :=
  match lastMessageSender d with
  | Some s =>
      unreadOf (Some d) s = 0%N
      ∧ ∃ r, participants d = Some [s; r]
             ∧ chatId = createChatId s r
             ∧ is_Some (lastMessage d)
             ∧ is_Some (lastMessageTimestamp d)
  | None =>
      participants d = None ∧ lastMessage d = None
      ∧ lastMessageTimestamp d = None
      ∧ ∀ v, unreadOf (Some d) v = 0%N
  end.

Definition ledger_ok (st : Firestore) : Prop :=
  ∀ chatId d, chats st !! chatId = Some d → ledger_entry_ok chatId d.

(** Every message is filed under the chat id of its sender and
    receiver. *)
Definition messages_ok (st : Firestore) : Prop :=
  ∀ chatId i m,
    collection st chatId !! i = Some m →
    chatId = createChatId (senderId m) (receiverId m).

(** Two messages that differ at most in their [read] flag. *)
Definition same_content (m m' : Message) : Prop :=
  senderId m' = senderId m ∧ receiverId m' = receiverId m
  ∧ body m' = body m ∧ timestamp m' = timestamp m.

(** The documents of a snapshot whose write the store accepts. *)
Definition marked (env : ReadEnv) (snapshot : list (jsstring * Message))
  : list jsstring :=
  filter (fun i => markOk env i = true) (map fst snapshot).

(** The message a send writes, and the preview it leaves in the ledger. *)
Definition messageOf (senderId receiverId : jsstring) (a : SendEnv * Append)
  : Message :=
  {| senderId := senderId; receiverId := receiverId;
     body :=
       match snd a with
       | SendText content => Text (trim content)
       | SendMedia fileInfo messageType =>
           Media messageType (FileInfo.url fileInfo)
             (FileInfo.name fileInfo) (FileInfo.size fileInfo)
             (FileInfo.type fileInfo)
       end;
     timestamp := messageTime (fst a); read := false |}.

Definition previewOf (a : SendEnv * Append) : jsstring :=
  match snd a with
  | SendText content => trim content
  | SendMedia fileInfo messageType => lastMessagePreview messageType fileInfo
  end.

(* ===================================================================== *)
(** ** The Messages component: further hooks and handlers *)
(* ===================================================================== *)

Module Component.
Import Messages.

Definition setSelectedChat (v : option jsstring) (s : State) : State :=
  {| avatarsCollapsed := avatarsCollapsed s; selectedChat := v;
     showUserMenu := showUserMenu s; users := users s; loading := loading s;
     messages := messages s; newMessage := newMessage s;
     sendingMessage := sendingMessage s;
     headerCollapsed := headerCollapsed s; isMobile := isMobile s;
     userPresence := userPresence s; chatCounts := chatCounts s;
     isActivelyChatting := isActivelyChatting s;
     uploadProgress := uploadProgress s; isUploading := isUploading s;
     showMediaPreview := showMediaPreview s; currentUser := currentUser s |}.

Definition setChatCounts (v : gmap jsstring Chat.t) (s : State) : State :=
  {| avatarsCollapsed := avatarsCollapsed s; selectedChat := selectedChat s;
     showUserMenu := showUserMenu s; users := users s; loading := loading s;
     messages := messages s; newMessage := newMessage s;
     sendingMessage := sendingMessage s;
     headerCollapsed := headerCollapsed s; isMobile := isMobile s;
     userPresence := userPresence s; chatCounts := v;
     isActivelyChatting := isActivelyChatting s;
     uploadProgress := uploadProgress s; isUploading := isUploading s;
     showMediaPreview := showMediaPreview s; currentUser := currentUser s |}.

(** [totalUnreadCount]:
    [filteredUsers.reduce((total, user) => total + user.unreadCount, 0)] *)
Definition totalUnreadCount (s : State) : N :=
  foldl (fun total user => (total + OtherUser.unreadCount user)%N) 0%N
    (filteredUsers s).

(** [chat.participants.find(id => id !== currentUser.uid)] *)
Definition otherUserId (uid : jsstring) (chat : Chat.t) : option jsstring :=
  List.find (fun id => negb (bool_decide (id = uid)))
    (default [] (participants (Chat.data chat))).

(** The callback the component passes to [getUserChatsWithCounts]: it
    builds [chatCountMap] from the chats delivered, one after the other,
    and stores it with [setChatCounts]. *)
Definition chatCountMap (uid : jsstring) (chats : list Chat.t)
  : gmap jsstring Chat.t :=
  foldl
    (fun chatCountMap chat =>
       match otherUserId uid chat with
       | Some otherUserId =>
           if truthy_str otherUserId then
             let chatId := createChatId uid otherUserId in
             <[chatId := chat]> chatCountMap
           else chatCountMap
       | None => chatCountMap
       end)
    ∅ chats.

(** The state after the listener of the chats of [uid] has delivered the
    chats of the store [st]. *)
Definition onChats (uid : jsstring) (st : Firestore) (s : State) : State :=
  setChatCounts (chatCountMap uid (getUserChatsWithCounts uid st)) s.

(** [handleChatSelect(userId)], also [handleQuickContactSelect(userId)]:
    the same statements. *)
Definition handleChatSelect (env : ReadEnv) (userId : jsstring) (s : State)
    (st : Firestore) : State * Firestore :=
  let chatId := createChatId (or_empty (currentUser s)) userId in
  (setSelectedChat (Some userId) s,
   markChatAsRead env chatId (or_empty (currentUser s)) st).

End Component.

(** The element of the array of [getUserChatsWithCounts] for a chat
    document. *)
Definition chatRow (userId : jsstring) (doc : jsstring * ChatDoc) : Chat.t :=
  {| Chat.id := fst doc; Chat.data := snd doc;
     Chat.unreadCount := default 0%N (unreadCount_ (snd doc) !! userId) |}.

(** One round of the loop that builds [chatCountMap]. *)
Definition addChat (uid : jsstring) (chatCountMap : gmap jsstring Chat.t)
    (chat : Chat.t) : gmap jsstring Chat.t :=
  match Component.otherUserId uid chat with
  | Some otherUserId =>
      if truthy_str otherUserId then
        <[createChatId uid otherUserId := chat]> chatCountMap
      else chatCountMap
  | None => chatCountMap
  end.

(** The sum of a list of counts. *)
Definition sumN (l : list N) : N := foldr N.add 0%N l.

(** All the messages of a collection, latest first: what
    [orderBy('timestamp', 'desc')] lists without [where] and [limit]. *)
Definition latestFirst (c : gmap jsstring Message)
  : list (jsstring * Message) :=
  sort timestamp_desc (docs c).

(** No two messages of the collection carry the same timestamp. *)
Definition distinct_timestamps (c : gmap jsstring Message) : Prop :=
  ∀ i j m m',
    c !! i = Some m → c !! j = Some m' → timestamp m = timestamp m' → i = j.

(** Three messages of [alice] to [bob], the last two at the same time. *)
Definition tiedSends : list (SendEnv * Append) :=
  [(okEnv (lit "m1") 1, SendText (lit "one"));
   (okEnv (lit "m2") 2, SendText (lit "two"));
   (okEnv (lit "m3") 2, SendText (lit "three"))].

Definition afterTiedSends : Firestore :=
  snd (appends alice bob tiedSends emptyStore).

Definition third : jsstring * Message :=
  (lit "m3",
   {| senderId := alice; receiverId := bob; body := Text (lit "three");
      timestamp := {| seconds := 2; nanoseconds := 0 |}; read := false |}).

(** The number of messages of a chat that are addressed to [userId] and
    not read: the size of the snapshot the query of [markMessagesAsRead]
    returns. *)
Definition unreadMessages (st : Firestore) (chatId userId : jsstring) : nat :=
  length
    (filter (fun d => unreadMessage userId (snd d) = true)
       (docs (collection st chatId))).

(** The stores reached when the calls run one after the other, each to
    its end, whatever the store answers; the id the store gives a new
    message is not the id of a message of the chat. *)
Inductive sequential : Firestore -> Prop :=
| seq_empty : sequential emptyStore
| seq_append S R a st :
    sequential st ->
    collection st (createChatId S R) !! newId (fst a) = None ->
    sequential (snd (append S R a st))
| seq_markChatAsRead env chatId userId st :
    sequential st -> sequential (markChatAsRead env chatId userId st).

(** [alice] writes to [bob], [bob] opens the chat and answers. *)
Definition answered : Firestore :=
  snd (append bob alice (okEnv (lit "m2") 2, SendText (lit "hello"))
         (markChatAsRead okRead (createChatId alice bob) bob
            (snd (append alice bob (okEnv (lit "m1") 1, SendText (lit "hi"))
                    emptyStore)))).

(** A send of [alice] to [bob] whose counter write reaches the store
    after [bob] has read the chat. *)
Definition staleCall : Async.Call :=
  Async.textCall (okEnv (lit "m1") 1) alice bob (lit "hi").

Definition staleWrite : Firestore :=
  snd (Async.step staleCall (Async.AtSetDoc 0)
         (markChatAsRead okRead (createChatId alice bob) bob
            (snd (Async.step staleCall Async.AtAddDoc emptyStore)))).

(* ===================================================================== *)
(** ** The users collection, its cache and the auth context *)
(* ===================================================================== *)

Module Users.

(** A document of [users]; [None] is a field that is absent or [null]. *)
Record Doc := {
  displayName : option jsstring;
  email : option jsstring;
  photoURL : option jsstring;
  createdAt : option Timestamp;
  lastActive : option Timestamp;
  isOnline : option bool
}.

(** The user of Firebase Auth, with the fields [createUserProfile]
    reads; [None] is [null]. *)
Record AuthUser := {
  uid : jsstring;
  userDisplayName : option jsstring;
  userEmail : option jsstring;
  userPhotoURL : option jsstring
}.

(** The [users] collection and the module variables [usersCache] and
    [usersCacheTime]. *)
Record State := {
  users : gmap jsstring Doc;
  usersCache : option (list (jsstring * Doc));
  usersCacheTime : option Z
}.

Definition initial : State :=
  {| users := ∅; usersCache := None; usersCacheTime := None |}.

(** What the store answers to one [createUserProfile], and [new Date()]. *)
Record Env := { getOk : bool; setOk : bool; now : Timestamp }.

(** [a || b] where [b] may be [undefined]. *)
Definition or_str (a b : option jsstring) : option jsstring :=
  if Messages.truthy_id a then a else b.

(** [email.split('@')[0]] *)
Fixpoint beforeAt (email : jsstring) : jsstring :=
  match email with
  | [] => []
  | c :: rest => if (c =? 64)%N then [] else c :: beforeAt rest
  end.

(** The object literal [createUserProfile] writes.  [additionalData] is
    [{}] ([None]) or [{ displayName }], the two forms the callers pass;
    spread last, its [displayName] replaces the one computed before it. *)
Definition profile (user : AuthUser) (additionalData : option jsstring)
    (createdAt : Timestamp) : Doc :=
  let computed :=
    or_str (or_str (userDisplayName user) additionalData)
      (beforeAt <$> userEmail user) in
  {| displayName :=
       match additionalData with Some name => Some name | None => computed end;
     email := userEmail user;
     photoURL := or_str (userPhotoURL user) None;
     createdAt := Some createdAt;
     lastActive := Some createdAt;
     isOnline := Some true |}.

(** [createUserProfile(user, additionalData)]: [Some tt] when the
    promise resolves, [None] when it rejects.  [getDoc] is awaited
    outside the [try]; [setDoc] throws on a field that is [undefined]
    or when the store refuses the write, and the [catch] only logs. *)
Definition createUserProfile (env : Env) (user : option AuthUser)
    (additionalData : option jsstring) (s : State) : option unit * State :=
  match user with
  | None => (Some tt, s)
  | Some user =>
      if getOk env then
        match users s !! uid user with
        | Some _ => (Some tt, s)
        | None =>
            let data := profile user additionalData (now env) in
            if setOk env && Messages.truthy (displayName data) then
              (Some tt,
               {| users := <[uid user := data]> (users s);
                  usersCache := None;
                  usersCacheTime := usersCacheTime s |})
            else (Some tt, s)
        end
      else (None, s)
  end.

(** [setDoc(userRef, { isOnline, lastActive }, { merge: true })]. *)
Definition mergeStatus (isOnline : bool) (lastActive : Timestamp)
    (old : option Doc) : Doc :=
  {| displayName := old ≫= displayName;
     email := old ≫= email;
     photoURL := old ≫= photoURL;
     createdAt := old ≫= createdAt;
     lastActive := Some lastActive;
     isOnline := Some isOnline |}.

(** [updateUserOnlineStatus(userId, isOnline)]; the [catch] only logs. *)
Definition updateUserOnlineStatus (ok : bool) (lastActive : Timestamp)
    (userId : jsstring) (isOnline : bool) (s : State) : State :=
  if ok then
    {| users :=
         <[userId := mergeStatus isOnline lastActive (users s !! userId)]>
           (users s);
       usersCache := usersCache s;
       usersCacheTime := usersCacheTime s |}
  else s.

(** [orderBy('createdAt', 'desc')]: the documents that have the field,
    latest first, equal times by document id in the same direction. *)
Definition createdAt_desc (a b : jsstring * Doc) : number :=
  match createdAt (snd a), createdAt (snd b) with
  | Some aT, Some bT =>
      match ts_compare bT aT with
      | Lt => Some (-1)
      | Gt => Some 1
      | Eq => default_compare (fst b) (fst a)
      end
  | _, _ => Some 0
  end.

(** [snapshot.docs.map(doc => ({ id: doc.id, ...doc.data() }))] of the
    users query. *)
Definition usersQuery (users : gmap jsstring Doc) : list (jsstring * Doc) :=
  sort createdAt_desc
    (filter (fun d => Messages.truthy (createdAt (snd d)) = true)
       (docs users)).

Definition CACHE_DURATION : Z := 5 * 60 * 1000.

(** [usersCache && usersCacheTime && (Date.now() - usersCacheTime <
    CACHE_DURATION)]: an array is truthy, a number unless it is 0. *)
Definition cacheIsFresh (dateNow : Z) (s : State) : bool :=
  match usersCache s, usersCacheTime s with
  | Some _, Some t => negb (t =? 0) && (dateNow - t <? CACHE_DURATION)
  | _, _ => false
  end.

(** [getAllUsers()]; it resolves in every case. *)
Definition getAllUsers (ok : bool) (dateNow : Z) (s : State)
  : list (jsstring * Doc) * State :=
  if cacheIsFresh dateNow s then (default [] (usersCache s), s)
  else if ok then
    let users_ := usersQuery (users s) in
    (users_,
     {| users := users s; usersCache := Some users_;
        usersCacheTime := Some dateNow |})
  else (default [] (usersCache s), s).

(** The snapshot callback of [listenToUsers]: the array passed to
    [callback] and the module state it leaves. *)
Definition onUsersSnapshot (dateNow : Z) (s : State)
  : list (jsstring * Doc) * State :=
  let users_ := usersQuery (users s) in
  (users_,
   {| users := users s; usersCache := Some users_;
      usersCacheTime := Some dateNow |}).

(** The error callback of [listenToUsers]: what [callback] receives, if
    it is called. *)
Definition onUsersError (s : State) : option (list (jsstring * Doc)) :=
  usersCache s.

(** The calls that write the collection or the cache. *)
Inductive Call :=
| CreateUserProfile (env : Env) (user : option AuthUser)
    (additionalData : option jsstring)
| UpdateUserOnlineStatus (ok : bool) (lastActive : Timestamp)
    (userId : jsstring) (isOnline : bool)
| GetAllUsers (ok : bool) (dateNow : Z)
| UsersSnapshot (dateNow : Z).

Definition call (c : Call) (s : State) : State :=
  match c with
  | CreateUserProfile env user additionalData =>
      snd (createUserProfile env user additionalData s)
  | UpdateUserOnlineStatus ok lastActive userId isOnline =>
      updateUserOnlineStatus ok lastActive userId isOnline s
  | GetAllUsers ok dateNow => snd (getAllUsers ok dateNow s)
  | UsersSnapshot dateNow => snd (onUsersSnapshot dateNow s)
  end.

Definition calls (l : list Call) (s : State) : State :=
  foldl (fun s c => call c s) s l.

(** The state of [AuthProvider]. *)
Record AuthState := { currentUser : option AuthUser; loading : bool }.

(** The callback [AuthProvider] passes to [onAuthStateChange]: [None]
    when its promise rejects, in which case neither setter has run. *)
Definition onAuthStateChange (env : Env) (statusOk : bool)
    (lastActive : Timestamp) (user : option AuthUser)
    (a : AuthState) (s : State) : option AuthState * State :=
  let done_ := Some {| currentUser := user; loading := false |} in
  match user with
  | Some u =>
      match createUserProfile env user None s with
      | (Some _, s1) =>
          (done_, updateUserOnlineStatus statusOk lastActive (uid u) true s1)
      | (None, s1) => (None, s1)
      end
  | None =>
      match currentUser a with
      | Some u =>
          (done_, updateUserOnlineStatus statusOk lastActive (uid u) false s)
      | None => (done_, s)
      end
  end.

End Users.

(** Sample users of Firebase Auth. *)
Definition carol : Users.AuthUser :=
  {| Users.uid := lit "carol"; Users.userDisplayName := None;
     Users.userEmail := Some (lit "carol@example.org");
     Users.userPhotoURL := None |}.

Definition okProfile (t : Z) : Users.Env :=
  {| Users.getOk := true; Users.setOk := true;
     Users.now := {| seconds := t; nanoseconds := 0 |} |}.

Definition refusedProfile (t : Z) : Users.Env :=
  {| Users.getOk := true; Users.setOk := false;
     Users.now := {| seconds := t; nanoseconds := 0 |} |}.

Definition signedOut : Users.AuthState :=
  {| Users.currentUser := None; Users.loading := true |}.

(** What no call changes of a profile once it is stored. *)
Definition same_profile (d d' : Users.Doc) : Prop :=
  Users.displayName d' = Users.displayName d
  ∧ Users.email d' = Users.email d
  ∧ Users.photoURL d' = Users.photoURL d
  ∧ Users.createdAt d' = Users.createdAt d.

(** [carol] signs up with a full name; the auth context creates her
    profile before the sign-up form does. *)
Definition contextThenForm : list Users.Call :=
  [Users.CreateUserProfile (okProfile 1) (Some carol) None;
   Users.UpdateUserOnlineStatus true {| seconds := 2; nanoseconds := 0 |}
     (lit "carol") true;
   Users.CreateUserProfile (okProfile 3) (Some carol)
     (Some (lit "Carol Jones"))].

(* ===================================================================== *)
(** ** Initials *)
(* ===================================================================== *)

(** [s.split(c)] for a separator [c] of one code unit. *)
Fixpoint split (c : N) (s : jsstring) : list jsstring :=
  match s with
  | [] => [[]]
  | x :: s' =>
      if (x =? c)%N then [] :: split c s'
      else
        match split c s' with
        | seg :: segs => (x :: seg) :: segs
        | [] => [[x]]
        end
  end.

Section Initials.

(** [String.prototype.toUpperCase], whatever it maps a string to. *)
Variable toUpperCase : jsstring -> jsstring.

(** [(a[0] + b[0])]: a missing code unit is [undefined]; two of them add
    up to [NaN], which is no string ([None]). *)
Definition add_first (a b : jsstring) : option jsstring :=
  match head a, head b with
  | Some x, Some y => Some [x; y]
  | Some x, None => Some (x :: lit "undefined")
  | None, Some y => Some (lit "undefined" ++ [y])
  | None, None => None
  end.

(** The statements [getUserInitials] and [getInitials] share; [None]
    when [toUpperCase] is called on [NaN] and the call throws. *)
Definition initialsOf (displayName : jsstring) : option jsstring :=
  if bool_decide (32%N ∈ displayName) then
    let names := split 32 displayName in
    toUpperCase <$>
      add_first (default [] (head names)) (default [] (last names))
  else Some (toUpperCase (take 2 displayName)).

(** [getInitials(displayName, email)] *)
Definition getInitials (displayName email : option jsstring)
  : option jsstring :=
  if Messages.truthy_id displayName then
    initialsOf (Messages.or_empty displayName)
  else if Messages.truthy_id email then
    Some (toUpperCase (take 2 (Messages.or_empty email)))
  else Some (lit "U").

(** [getUserDisplayName()] *)
Definition getUserDisplayName (currentUser : option Users.AuthUser)
  : jsstring :=
  if Messages.truthy_id (currentUser ≫= Users.userDisplayName) then
    Messages.or_empty (currentUser ≫= Users.userDisplayName)
  else if Messages.truthy_id (currentUser ≫= Users.userEmail) then
    Users.beforeAt (Messages.or_empty (currentUser ≫= Users.userEmail))
  else lit "User".

(** [getUserInitials()] *)
Definition getUserInitials (currentUser : option Users.AuthUser)
  : option jsstring :=
  initialsOf (getUserDisplayName currentUser).

End Initials.

(* ===================================================================== *)
(** ** Media: choosing, uploading and sending a file *)
(* ===================================================================== *)

(** A [File] of the file input. *)
Module File.
Record t := { name : jsstring; size : N; type : jsstring }.
End File.

(** [String.prototype.startsWith] *)
Fixpoint startsWith (s searchString : jsstring) : bool :=
  match searchString, s with
  | [], _ => true
  | p :: ps, c :: cs => (c =? p)%N && startsWith cs ps
  | _ :: _, [] => false
  end.

(** The character class [[a-zA-Z0-9.-]]. *)
Definition kept (c : N) : bool :=
  ((97 <=? c) && (c <=? 122) || (65 <=? c) && (c <=? 90)
   || (48 <=? c) && (c <=? 57) || (c =? 46) || (c =? 45))%N.

(** [name.replace(/[^a-zA-Z0-9.-]/g, '_')]: without the [u] flag the
    pattern matches code unit by code unit. *)
Definition sanitize (name : jsstring) : jsstring :=
  map (fun c => if kept c then c else sep) name.

(** The decimal digits of a non-negative integer, as a template literal
    prints [Date.now()]. *)
Fixpoint digits (d : Decimal.uint) : jsstring :=
  match d with
  | Decimal.Nil => []
  | Decimal.D0 d => 48%N :: digits d
  | Decimal.D1 d => 49%N :: digits d
  | Decimal.D2 d => 50%N :: digits d
  | Decimal.D3 d => 51%N :: digits d
  | Decimal.D4 d => 52%N :: digits d
  | Decimal.D5 d => 53%N :: digits d
  | Decimal.D6 d => 54%N :: digits d
  | Decimal.D7 d => 55%N :: digits d
  | Decimal.D8 d => 56%N :: digits d
  | Decimal.D9 d => 57%N :: digits d
  end.

Definition Number_toString (n : N) : jsstring := digits (N.to_uint n).

(** The path of the object [uploadFile] writes:
    [`chats/${chatId}/${timestamp}_${sanitized}`]. *)
Definition uploadPath (senderId receiverId : jsstring) (timestamp : N)
    (name : jsstring) : jsstring :=
  let chatId := createChatId senderId receiverId in
  let fileName := Number_toString timestamp ++ lit "_" ++ sanitize name in
  lit "chats/" ++ chatId ++ lit "/" ++ fileName.

(** The bucket: the objects by path. *)
Abbreviation Storage := (gmap jsstring File.t).

(** What the storage service decides for one upload: [Date.now()], the
    byte counts of the [state_changed] events, whether the upload and
    the request of the download URL succeed, and that URL. *)
Record UploadEnv := {
  dateNow : N;
  events : list (N * N);
  uploadOk : bool;
  urlOk : bool;
  downloadURL : jsstring
}.

(** [uploadFile(file, senderId, receiverId, onProgress)]: [None] when
    the promise rejects.  The object is stored once the upload has
    completed, whether or not its URL is obtained. *)
Definition uploadFile (env : UploadEnv) (file : File.t)
    (senderId receiverId : jsstring) (stg : Storage)
  : option FileInfo.t * Storage :=
  let path := uploadPath senderId receiverId (dateNow env) (File.name file) in
  if uploadOk env then
    let stg' := <[path := file]> stg in
    if urlOk env then
      (Some {| FileInfo.url := downloadURL env;
               FileInfo.name := File.name file;
               FileInfo.size := File.size file;
               FileInfo.type := File.type file |}, stg')
    else (None, stg')
  else (None, stg).

Module Media.

(** The value of [uploadProgress]: the initial [0], or
    [(bytesTransferred / totalBytes) * 100] of an event. *)
Inductive Progress :=
| Zero
| Percent (bytesTransferred totalBytes : N).

(** [selectedMedia]; its [size], a text for display, is left out. *)
Record Selected := {
  file : File.t;
  type : jsstring;
  preview : option jsstring;
  name : jsstring
}.

(** The cells of the component that the media handlers read or write,
    and the object URLs of the document that are not revoked. *)
Record State := {
  selectedMedia : option Selected;
  showMediaPreview : bool;
  isUploading : bool;
  uploadProgress : Progress;
  isActivelyChatting : bool;
  selectedChat : option jsstring;
  currentUser : option jsstring;
  objectURLs : list jsstring
}.

Definition setSelectedMedia (v : option Selected) (s : State) : State :=
  {| selectedMedia := v; showMediaPreview := showMediaPreview s;
     isUploading := isUploading s; uploadProgress := uploadProgress s;
     isActivelyChatting := isActivelyChatting s;
     selectedChat := selectedChat s; currentUser := currentUser s;
     objectURLs := objectURLs s |}.

Definition setShowMediaPreview (v : bool) (s : State) : State :=
  {| selectedMedia := selectedMedia s; showMediaPreview := v;
     isUploading := isUploading s; uploadProgress := uploadProgress s;
     isActivelyChatting := isActivelyChatting s;
     selectedChat := selectedChat s; currentUser := currentUser s;
     objectURLs := objectURLs s |}.

Definition setIsUploading (v : bool) (s : State) : State :=
  {| selectedMedia := selectedMedia s;
     showMediaPreview := showMediaPreview s;
     isUploading := v; uploadProgress := uploadProgress s;
     isActivelyChatting := isActivelyChatting s;
     selectedChat := selectedChat s; currentUser := currentUser s;
     objectURLs := objectURLs s |}.

Definition setUploadProgress (v : Progress) (s : State) : State :=
  {| selectedMedia := selectedMedia s;
     showMediaPreview := showMediaPreview s;
     isUploading := isUploading s; uploadProgress := v;
     isActivelyChatting := isActivelyChatting s;
     selectedChat := selectedChat s; currentUser := currentUser s;
     objectURLs := objectURLs s |}.

Definition setIsActivelyChatting (v : bool) (s : State) : State :=
  {| selectedMedia := selectedMedia s;
     showMediaPreview := showMediaPreview s;
     isUploading := isUploading s; uploadProgress := uploadProgress s;
     isActivelyChatting := v;
     selectedChat := selectedChat s; currentUser := currentUser s;
     objectURLs := objectURLs s |}.

Definition setObjectURLs (v : list jsstring) (s : State) : State :=
  {| selectedMedia := selectedMedia s;
     showMediaPreview := showMediaPreview s;
     isUploading := isUploading s; uploadProgress := uploadProgress s;
     isActivelyChatting := isActivelyChatting s;
     selectedChat := selectedChat s; currentUser := currentUser s;
     objectURLs := v |}.

(** The [alert]s of the handlers; the text of the one in the [catch]
    depends on the error. *)
Inductive Alert :=
| TooLarge
| NotAllowed
| SaveFailed
| SendFailed.

Definition maxSize : N := 50 * 1024 * 1024.

Section Handlers.

(** [String.prototype.toLowerCase], whatever it maps a string to. *)
Variable toLowerCase : jsstring -> jsstring.

(** [getMessageType(file)] *)
Definition getMessageType (file : File.t) : jsstring :=
  let type := toLowerCase (File.type file) in
  if startsWith type (lit "image/") then lit "image"
  else if startsWith type (lit "video/") then lit "video"
  else lit "file".

(** [handleFileSelect(e)], with [e.target.files] and the URL
    [URL.createObjectURL] would return. *)
Definition handleFileSelect (objectURL : jsstring) (files : list File.t)
    (s : State) : option Alert * State :=
  match files with
  | [] => (None, s)
  | file :: _ =>
      if (maxSize <? File.size file)%N then (Some TooLarge, s)
      else
        let allowedTypes := [lit "image/"; lit "video/"] in
        let isAllowed := existsb (startsWith (File.type file)) allowedTypes in
        if negb isAllowed then (Some NotAllowed, s)
        else
          let isImage := startsWith (File.type file) (lit "image/") in
          let selected :=
            {| file := file; type := getMessageType file;
               preview := if isImage then Some objectURL else None;
               name := File.name file |} in
          (None,
           setShowMediaPreview true
             (setSelectedMedia (Some selected)
                (setObjectURLs
                   (if isImage then objectURLs s ++ [objectURL]
                    else objectURLs s) s)))
  end.

End Handlers.

(** [setUploadProgress] as [onProgress]: called for each event. *)
Definition onProgress (events : list (N * N)) (s : State) : State :=
  foldl (fun s e => setUploadProgress (Percent (fst e) (snd e)) s) s events.

(** [handleSendMedia()], up to the completion of the handler; the timer
    that later clears [isActivelyChatting] has not fired yet.  Reading
    [currentUser.uid] of a [null] user throws inside the [try]. *)
Definition handleSendMedia (upl : UploadEnv) (env : SendEnv) (s : State)
    (stg : Storage) (st : Firestore)
  : option Alert * State * Storage * Firestore :=
  match selectedMedia s with
  | None => (None, s, stg, st)
  | Some media =>
      if negb (Messages.truthy_id (selectedChat s)) || isUploading s
      then (None, s, stg, st)
      else
        let s1 := setIsActivelyChatting true (setIsUploading true s) in
        match currentUser s with
        | None => (Some SendFailed, setIsUploading false s1, stg, st)
        | Some uid =>
            let chat := Messages.or_empty (selectedChat s) in
            let s2 := onProgress (events upl) s1 in
            match uploadFile upl (file media) uid chat stg with
            | (Some fileInfo, stg') =>
                let (success, st') :=
                  sendMediaMessage env uid chat fileInfo (type media) st in
                if success then
                  (None,
                   setIsUploading false
                     (setUploadProgress Zero
                        (setSelectedMedia None
                           (setShowMediaPreview false s2))),
                   stg', st')
                else (Some SaveFailed, setIsUploading false s2, stg', st')
            | (None, stg') =>
                (Some SendFailed, setIsUploading false s2, stg', st)
            end
        end
  end.

(** [handleCancelMedia()] *)
Definition handleCancelMedia (s : State) : State :=
  let revoked :=
    match selectedMedia s ≫= preview with
    | Some url =>
        if truthy_str url
        then filter (fun u => u ≠ url) (objectURLs s)
        else objectURLs s
    | None => objectURLs s
    end in
  setUploadProgress Zero
    (setShowMediaPreview false (setSelectedMedia None (setObjectURLs revoked s))).

End Media.

(** The previews [sendMediaMessage] writes for an image and a video. *)
Definition photoPreview : jsstring := [55357; 56567]%N ++ lit " Photo".
Definition videoPreview : jsstring := [55356; 57253]%N ++ lit " Video".

(** The results of a call of [handleSendMedia]. *)
Definition alertOf {A B C D} (r : A * B * C * D) : A := fst (fst (fst r)).
Definition stateOf {A B C D} (r : A * B * C * D) : B := snd (fst (fst r)).
Definition storageOf {A B C D} (r : A * B * C * D) : C := snd (fst r).
Definition storeOf {A B C D} (r : A * B * C * D) : D := snd r.

(** Sample inputs: a picture, a component of [alice] with the chat with
    [bob] selected, and a storage service that accepts the upload. *)
Definition catFile : File.t :=
  {| File.name := lit "my cat.png"; File.size := 1024%N;
     File.type := lit "image/png" |}.

Definition picking : Media.State :=
  {| Media.selectedMedia := None; Media.showMediaPreview := false;
     Media.isUploading := false; Media.uploadProgress := Media.Zero;
     Media.isActivelyChatting := false;
     Media.selectedChat := Some bob; Media.currentUser := Some alice;
     Media.objectURLs := [] |}.

Definition okUpload : UploadEnv :=
  {| dateNow := 1720000000123%N; events := [(512, 1024); (1024, 1024)]%N;
     uploadOk := true; urlOk := true;
     downloadURL := lit "https://storage/cat" |}.

Definition asIs (s : jsstring) : jsstring := s.

(** The component after [catFile] was chosen. *)
Definition picked : Media.State :=
  snd (Media.handleFileSelect asIs (lit "blob:1") [catFile] picking).

Definition pickedCat : Media.Selected :=
  {| Media.file := catFile; Media.type := lit "image";
     Media.preview := Some (lit "blob:1"); Media.name := lit "my cat.png" |}.

(** [orderBy('lastMessageTimestamp', 'desc')] on chat documents: the
    documents that have the field, latest first, equal times by
    document id in the same direction. *)
Definition lastMessageTimestamp_desc (a b : jsstring * ChatDoc) : number :=
  match lastMessageTimestamp (snd a), lastMessageTimestamp (snd b) with
  | Some aT, Some bT =>
      match ts_compare bT aT with
      | Lt => Some (-1)
      | Gt => Some 1
      | Eq => default_compare (fst b) (fst a)
      end
  | _, _ => Some 0
  end.

(** The array the snapshot listener of [getUserChats(userId, _)] passes
    to its callback when the store is [st]: each element is
    [{ id: doc.id, ...doc.data() }]. *)
Definition getUserChats (userId : jsstring) (st : Firestore)
  : list (jsstring * ChatDoc) :=
  sort lastMessageTimestamp_desc
    (filter
       (fun d =>
          array_contains userId d
          && Messages.truthy (lastMessageTimestamp (snd d)) = true)
       (docs (chats st))).

(* ===================================================================== *)
(** ** The sign-in form *)
(* ===================================================================== *)

Module Auth.

Record FormData := {
  email : jsstring;
  password : jsstring;
  confirmPassword : jsstring;
  fullName : jsstring
}.

(** The cells of the component [handleSubmit] reads or writes, and
    whether it has navigated to ['/']. *)
Record State := {
  isLogin : bool;
  formData : FormData;
  loading : bool;
  error : jsstring;
  navigated : bool
}.

(** A promise of Firebase Auth: resolved, or rejected with an error
    that has the given [code]. *)
Inductive Result (A : Type) :=
| Resolved (a : A)
| Rejected (code : jsstring).
Arguments Resolved {A} a.
Arguments Rejected {A} code.

(** What Firebase answers to the requests of one submit; [profileCode]
    is the code of the error a rejected [createUserProfile] carries. *)
Record Env := {
  credential : Result Users.AuthUser;
  updateProfileResult : Result unit;
  profileEnv : Users.Env;
  profileCode : jsstring
}.

(** The requests sent to Firebase Auth. *)
Inductive Request :=
| SignInWithEmail (email password : jsstring)
| SignUpWithEmail (email password : jsstring)
| UpdateProfile (uid displayName : jsstring).

(** The [switch] on [error.code]. *)
Definition message (code : jsstring) : jsstring :=
  if decide (code = lit "auth/user-not-found") then
    lit "No account found with this email address"
  else if decide (code = lit "auth/wrong-password") then
    lit "Incorrect password"
  else if decide (code = lit "auth/email-already-in-use") then
    lit "An account with this email already exists"
  else if decide (code = lit "auth/weak-password") then
    lit "Password is too weak"
  else if decide (code = lit "auth/invalid-email") then
    lit "Invalid email address"
  else if decide (code = lit "auth/too-many-requests") then
    lit "Too many failed attempts. Please try again later"
  else lit "An error occurred. Please try again".

Definition finish (error : jsstring) (navigated : bool) (s : State) : State :=
  {| isLogin := isLogin s; formData := formData s; loading := false;
     error := error; navigated := navigated |}.

(** [updateProfile(user, { displayName })] also sets the field of the
    user object. *)
Definition withDisplayName (displayName : jsstring) (user : Users.AuthUser)
  : Users.AuthUser :=
  {| Users.uid := Users.uid user;
     Users.userDisplayName := Some displayName;
     Users.userEmail := Users.userEmail user;
     Users.userPhotoURL := Users.userPhotoURL user |}.

(** [handleSubmit(e)]: the state it leaves, the requests it has sent to
    Firebase Auth, and the users collection. *)
Definition handleSubmit (env : Env) (s : State) (u : Users.State)
  : State * list Request * Users.State :=
  let f := formData s in
  if negb (isLogin s) && negb (bool_decide (password f = confirmPassword f))
  then (finish (lit "Passwords don't match!") (navigated s) s, [], u)
  else if (length (password f) <? 6)%nat then
    (finish (lit "Password must be at least 6 characters long")
       (navigated s) s, [], u)
  else if isLogin s then
    let requests := [SignInWithEmail (email f) (password f)] in
    match credential env with
    | Resolved _ => (finish [] true s, requests, u)
    | Rejected code => (finish (message code) (navigated s) s, requests, u)
    end
  else
    let signUp := [SignUpWithEmail (email f) (password f)] in
    match credential env with
    | Rejected code => (finish (message code) (navigated s) s, signUp, u)
    | Resolved user =>
        let createProfile (user : Users.AuthUser) (requests : list Request) :=
          match
            Users.createUserProfile (profileEnv env) (Some user)
              (Some (fullName f)) u
          with
          | (Some _, u') => (finish [] true s, requests, u')
          | (None, u') =>
              (finish (message (profileCode env)) (navigated s) s,
               requests, u')
          end in
        if truthy_str (fullName f) then
          let requests :=
            signUp ++ [UpdateProfile (Users.uid user) (fullName f)] in
          match updateProfileResult env with
          | Resolved _ =>
              createProfile (withDisplayName (fullName f) user) requests
          | Rejected code =>
              (finish (message code) (navigated s) s, requests, u)
          end
        else createProfile user signUp
    end.

(** [handleGoogleSignIn()]; its [catch] shows one message for every
    error. *)
Definition handleGoogleSignIn (env : Env) (s : State) (u : Users.State)
  : State * Users.State :=
  match credential env with
  | Resolved user =>
      match Users.createUserProfile (profileEnv env) (Some user) None u with
      | (Some _, u') => (finish [] true s, u')
      | (None, u') =>
          (finish (lit "Failed to sign in with Google. Please try again")
             (navigated s) s, u')
      end
  | Rejected _ =>
      (finish (lit "Failed to sign in with Google. Please try again")
         (navigated s) s, u)
  end.

End Auth.

(** A sign-up form filled in without a name, and a Firebase that accepts
    everything for [carol]. *)
Definition signUpForm : Auth.State :=
  {| Auth.isLogin := false;
     Auth.formData :=
       {| Auth.email := lit "carol@example.org";
          Auth.password := lit "secret1";
          Auth.confirmPassword := lit "secret1";
          Auth.fullName := [] |};
     Auth.loading := false; Auth.error := []; Auth.navigated := false |}.

Definition okAuth : Auth.Env :=
  {| Auth.credential := Auth.Resolved carol;
     Auth.updateProfileResult := Auth.Resolved tt;
     Auth.profileEnv := okProfile 1;
     Auth.profileCode := lit "unavailable" |}.

(** The form fails the checks of [handleSubmit]. *)
Definition invalid (s : Auth.State) : Prop :=
  (Auth.isLogin s = false
   ∧ Auth.password (Auth.formData s) ≠ Auth.confirmPassword (Auth.formData s))
  ∨ (length (Auth.password (Auth.formData s)) < 6)%nat.

(** A module state whose cache holds the profile of [carol], filled by a
    users snapshot at time 1000. *)
Definition cachedCarol : Users.State :=
  snd (Users.onUsersSnapshot 1000
         (snd (Users.createUserProfile (okProfile 1) (Some carol) None
                 Users.initial))).

(* ===================================================================== *)
(** * Properties *)
(* ===================================================================== *)

(** ** Facts about [sort] *)

Section SortFacts.
Context {A : Type} (comparefn : A -> A -> number).

Lemma sort_insert_perm x l : sort_insert comparefn x l ≡ₚ x :: l.
Proof.
  induction l as [|y l IH]; simpl; [done|].
  destruct (SortCompare comparefn x y <=? 0); [done|].
  rewrite IH. apply Permutation_swap.
Qed.

Lemma sort_perm l : sort comparefn l ≡ₚ l.
Proof.
  induction l as [|x l IH]; simpl; [done|].
  unfold sort in *. simpl. rewrite sort_insert_perm. by rewrite IH.
Qed.

Lemma elem_of_sort x l : x ∈ sort comparefn l ↔ x ∈ l.
Proof. by rewrite sort_perm. Qed.

Lemma length_sort l : length (sort comparefn l) = length l.
Proof. by rewrite sort_perm. Qed.

(** With a comparator that is total and transitive the result is
    sorted. *)
Hypothesis le_total : ∀ x y,
  sorts_before comparefn x y ∨ sorts_before comparefn y x.
Hypothesis le_trans : ∀ x y z,
  sorts_before comparefn x y → sorts_before comparefn y z →
  sorts_before comparefn x z.

Lemma sort_insert_sorted x l :
  StronglySorted (sorts_before comparefn) l →
  StronglySorted (sorts_before comparefn) (sort_insert comparefn x l).
Proof.
  induction 1 as [|y l Hl IH Hy]; simpl.
  - repeat constructor.
  - destruct (Z.leb_spec (SortCompare comparefn x y) 0) as [Hxy|Hxy].
    + constructor; [by constructor|].
      constructor; [done|].
      eapply Forall_impl; [exact Hy|]. intros z Hz. by eapply le_trans.
    + constructor; [done|].
      rewrite sort_insert_perm. constructor; [|done].
      destruct (le_total x y) as [H|H]; [|done].
      unfold sorts_before in H. lia.
Qed.

Lemma sort_sorted l :
  StronglySorted (sorts_before comparefn) (sort comparefn l).
Proof.
  induction l as [|x l IH]; [constructor|].
  apply sort_insert_sorted, IH.
Qed.
End SortFacts.

(** An element that every other element of the array compares after
    stays in front, whatever the comparator does elsewhere. *)
Section SortHead.
Context {A : Type} (comparefn : A -> A -> number) (P : A → Prop).
Context {P_dec : ∀ x, Decision (P x)}.
Hypothesis first : ∀ x y, P x → ¬ P y → SortCompare comparefn x y <= 0.
Hypothesis later : ∀ x y, P x → ¬ P y → ¬ SortCompare comparefn y x <= 0.

Lemma sort_insert_head x l :
  (P x ∨ ∃ y, head l = Some y ∧ P y) →
  ∃ y, head (sort_insert comparefn x l) = Some y ∧ P y.
Proof using All.
  intros Hx. destruct l as [|z l]; simpl.
  - destruct Hx as [Hx|(y & Hy & _)]; [eauto|done].
  - destruct (Z.leb_spec (SortCompare comparefn x z) 0) as [Hxz|Hxz]; simpl.
    + exists x. split; [done|].
      destruct Hx as [Hx|(y & Hy & HP)]; [done|].
      simpl in Hy. simplify_eq.
      destruct (decide (P x)) as [Hx|Hx]; [done|].
      exfalso. by eapply later.
    + exists z. split; [done|].
      destruct Hx as [Hx|(y & Hy & HP)]; [|by simpl in Hy; simplify_eq].
      destruct (decide (P z)) as [Hz|Hz]; [done|].
      exfalso. pose proof (first x z Hx Hz). lia.
Qed.

Lemma sort_head l :
  (∃ x, x ∈ l ∧ P x) → ∃ y, head (sort comparefn l) = Some y ∧ P y.
Proof using All.
  induction l as [|x l IH]; intros (z & Hz & HP).
  - by apply elem_of_nil in Hz.
  - change (sort comparefn (x :: l))
      with (sort_insert comparefn x (sort comparefn l)).
    apply sort_insert_head.
    destruct (decide (P x)) as [Hx|Hx]; [by left|right].
    apply IH. exists z. split; [|done].
    apply elem_of_cons in Hz as [->|Hz]; done.
Qed.

(** The same holds of any arrangement in which no element is followed by
    one it compares after, however it was obtained. *)
Lemma sorted_head l :
  Sorted (sorts_before comparefn) l →
  (∃ x, x ∈ l ∧ P x) → ∃ y, head l = Some y ∧ P y.
Proof using later P_dec.
  induction 1 as [|a l Hl IH Ha]; intros (x & Hx & HP).
  - by apply elem_of_nil in Hx.
  - destruct (decide (P a)) as [HPa|HPa]; [by exists a|exfalso].
    apply elem_of_cons in Hx as [->|Hx]; [done|].
    destruct IH as (y & Hy & HPy); [by exists x|].
    destruct l as [|z l]; simplify_eq/=.
    apply HdRel_inv in Ha. by eapply later.
Qed.
End SortHead.

(** ** ChatIdentity *)

Lemma str_compare_antisym x y : str_compare y x = CompOpp (str_compare x y).
Proof.
  revert y. induction x as [|a x IH]; intros [|b y]; simpl; try done.
  rewrite (N.compare_antisym a b).
  destruct (N.compare a b); simpl; auto.
Qed.

Lemma str_compare_eq x y : str_compare x y = Eq → x = y.
Proof.
  revert y. induction x as [|a x IH]; intros [|b y]; simpl; try done.
  destruct (N.compare_spec a b) as [->| |]; try done.
  intros H. f_equal. by apply IH.
Qed.

Lemma createChatId_unfold a b :
  createChatId a b =
    match str_compare a b with
    | Gt => b ++ sep :: a
    | _ => a ++ sep :: b
    end.
Proof.
  unfold createChatId, sort. simpl. unfold SortCompare, default_compare.
  destruct (str_compare a b); reflexivity.
Qed.

(** A string without separator before the first separator is determined
    by the whole. *)
Lemma split_at_sep (x x' y y' : jsstring) :
  sep ∉ x → sep ∉ x' → x ++ sep :: y = x' ++ sep :: y' → x = x' ∧ y = y'.
Proof.
  revert x'. induction x as [|c x IH]; intros [|c' x'] Hx Hx' Heq;
    simpl in Heq; simplify_eq.
  - done.
  - exfalso. apply Hx'. by left.
  - exfalso. apply Hx. by left.
  - apply not_elem_of_cons in Hx as [_ Hx].
    apply not_elem_of_cons in Hx' as [_ Hx'].
    destruct (IH x' Hx Hx' H0) as [-> ->]. done.
Qed.

(** C5. The chat id is symmetric in the two user ids, and for ids that
    do not contain the separator ['_'] the ids of the chats of [a] with
    two different users [b] and [c] differ. *)
Theorem createChatId_symmetric_collision_free (a b c : jsstring) :
  createChatId a b = createChatId b a ∧
  (sep ∉ a → sep ∉ b → sep ∉ c → b ≠ c →
   createChatId a b ≠ createChatId a c).
Proof.
  split.
  - rewrite !createChatId_unfold, (str_compare_antisym a b).
    destruct (str_compare a b) eqn:E; simpl; try done.
    by rewrite (str_compare_eq _ _ E).
  - intros Ha Hb Hc Hne. rewrite !createChatId_unfold.
    destruct (str_compare a b) eqn:Eb, (str_compare a c) eqn:Ec;
      intros Heq; apply split_at_sep in Heq as [H1 H2]; try done;
      by subst.
Qed.

Lemma createChatId_symmetric_collision_free_witness :
  createChatId alice bob ≠ createChatId alice (lit "carol").
Proof.
  apply (createChatId_symmetric_collision_free alice bob (lit "carol"));
    apply (bool_decide_unpack _); vm_compute; exact I.
Defined.

(** The restriction matters: ids that contain the separator collide. *)
Example createChatId_collision_with_separator :
  createChatId (lit "_y_") (lit "y_") = createChatId (lit "_y_") (lit "_y").
Proof. reflexivity. Qed.

(** ** ConversationLedger: counting unread messages *)

Lemma unreadOf_metadata_receiver S R preview now k old :
  S ≠ R →
  unreadOf (Some (mergeDoc (metadata S R preview now k) old)) R = (k + 1)%N.
Proof.
  intros Hne. unfold unreadOf, mergeDoc, metadata. simpl.
  erewrite lookup_union_Some_l; [done|].
  rewrite lookup_insert_ne by done. by rewrite lookup_insert_eq.
Qed.

Lemma unreadOf_metadata_sender S R preview now k old :
  unreadOf (Some (mergeDoc (metadata S R preview now k) old)) S = 0%N.
Proof.
  unfold unreadOf, mergeDoc, metadata. simpl.
  erewrite lookup_union_Some_l; [done|]. by rewrite lookup_insert_eq.
Qed.

Lemma send_true env chatId m S R preview st st' :
  send env chatId m S R preview st = (true, st') →
  chats st' =
    <[chatId :=
        mergeDoc
          (metadata S R preview (metadataTime env)
             (unreadOf (chats st !! chatId) R))
          (default emptyDoc (chats st !! chatId))]> (chats st).
Proof.
  unfold send, try_catch, updateMetadata, bind, addDoc, getDoc, setDoc.
  destruct (addOk env), (getOk env), (setOk env); simpl;
    intros H; by simplify_eq.
Qed.

Lemma send_counts env chatId m S R preview st st' :
  S ≠ R →
  send env chatId m S R preview st = (true, st') →
  unreadCount st' chatId R = (unreadCount st chatId R + 1)%N
  ∧ unreadCount st' chatId S = 0%N.
Proof.
  intros Hne H. apply send_true in H. unfold unreadCount. rewrite H.
  rewrite lookup_insert_eq.
  split; [by apply unreadOf_metadata_receiver
         |by apply unreadOf_metadata_sender].
Qed.

Lemma append_send S R a st :
  ∃ m preview,
    append S R a st = send (fst a) (createChatId S R) m S R preview st.
Proof.
  destruct a as [env [content|fileInfo messageType]]; simpl;
    unfold append; simpl; eauto.
Qed.

Lemma appends_counts S R l : ∀ st,
  S ≠ R →
  Forall (λ r, r = true) (fst (appends S R l st)) →
  let st' := snd (appends S R l st) in
  unreadCount st' (createChatId S R) R
    = (unreadCount st (createChatId S R) R + N.of_nat (length l))%N
  ∧ (l ≠ [] → unreadCount st' (createChatId S R) S = 0%N).
Proof.
  induction l as [|a l IH]; intros st Hne Hall; simpl in *.
  - split; [lia|done].
  - destruct (append S R a st) as [r st1] eqn:Ea.
    destruct (appends S R l st1) as [rs st2] eqn:El. simpl in *.
    apply Forall_cons in Hall as [-> Hall].
    destruct (append_send S R a st) as (m & preview & Hs).
    rewrite Hs in Ea. apply send_counts in Ea as [HR HS]; [|done].
    specialize (IH st1 Hne). rewrite El in IH. simpl in IH.
    destruct (IH Hall) as [IHR IHS]. split.
    + rewrite IHR, HR. lia.
    + intros _. destruct l as [|b l]; [|by apply IHS].
      simpl in El. by simplify_eq.
Qed.

(** C1. After [N] successful sends (text or media, in any mix) from [S]
    to another user [R], run one after the other from a ledger in which
    neither has unread messages, the ledger entry of the pair counts [N]
    unread messages for [R] and none for [S]. *)
Theorem sequential_appends_unread (S R : jsstring)
    (l : list (SendEnv * Append)) (st : Firestore) :
  S ≠ R →
  unreadCount st (createChatId S R) R = 0%N →
  unreadCount st (createChatId S R) S = 0%N →
  Forall (λ r, r = true) (fst (appends S R l st)) →
  unreadCount (snd (appends S R l st)) (createChatId S R) R
    = N.of_nat (length l)
  ∧ unreadCount (snd (appends S R l st)) (createChatId S R) S = 0%N.
Proof.
  intros Hne HR HS Hall.
  destruct (appends_counts S R l st Hne Hall) as [H1 H2].
  split; [by rewrite H1, HR|].
  destruct l as [|a l]; [done|by apply H2].
Qed.

Lemma sequential_appends_unread_witness :
  unreadCount (snd (appends alice bob threeSends emptyStore))
    (createChatId alice bob) bob = 3%N
  ∧ unreadCount (snd (appends alice bob threeSends emptyStore))
      (createChatId alice bob) alice = 0%N.
Proof.
  apply (sequential_appends_unread alice bob threeSends emptyStore).
  - by vm_compute.
  - by vm_compute.
  - by vm_compute.
  - vm_compute. repeat constructor.
Defined.

(** [alice] sends "hi" to [bob], then [bob] sends "hello" back. *)
Example hi_then_hello :
  lastMessage
    <$> chats
          (snd (sendMessage (okEnv (lit "m2") 2) bob alice (lit "hello")
                  (snd (sendMessage (okEnv (lit "m1") 1) alice bob (lit "hi")
                          emptyStore))))
        !! lit "alice_bob"
    = Some (Some (lit "hello"))
  ∧ unreadCount
      (snd (sendMessage (okEnv (lit "m2") 2) bob alice (lit "hello")
              (snd (sendMessage (okEnv (lit "m1") 1) alice bob (lit "hi")
                      emptyStore))))
      (lit "alice_bob") alice = 1%N
  ∧ unreadCount
      (snd (sendMessage (okEnv (lit "m2") 2) bob alice (lit "hello")
              (snd (sendMessage (okEnv (lit "m1") 1) alice bob (lit "hi")
                      emptyStore))))
      (lit "alice_bob") bob = 0%N.
Proof. repeat split; by vm_compute. Qed.

(** An image is previewed by its label, not by its file name. *)
Example image_preview :
  lastMessage
    <$> chats
          (snd (sendMediaMessage (okEnv (lit "m1") 1) alice bob cat_png
                  (lit "image") emptyStore))
        !! lit "alice_bob"
    = Some (Some ([55357; 56567]%N ++ lit " Photo")).
Proof. by vm_compute. Qed.

(** ** MessageChannel: empty bodies *)

(** C3 as stated fails for [sendMessage]: it does not look at the
    trimmed body, and a blank body is sent.  The message written has the
    empty content and the ledger counts it. *)
Lemma sendMessage_blank_body_is_sent :
  trim (lit "  ") = []
  ∧ fst blankSend = true
  ∧ body <$> collection (snd blankSend) (lit "alice_bob") !! lit "m1"
    = Some (Text [])
  ∧ unreadCount (snd blankSend) (lit "alice_bob") bob = 1%N
  ∧ snd blankSend ≠ emptyStore.
Proof.
  repeat split; by vm_compute.
Qed.

(** C3 (amended). A body that is empty after trimming is rejected by
    the send handler: [handleSendMessage] returns before it calls
    [sendMessage], so that no message is written and neither the ledger
    nor the state of the component changes. *)
Theorem handleSendMessage_blank_is_noop (env : SendEnv)
    (s : Messages.State) (st : Firestore) :
  trim (Messages.newMessage s) = [] →
  Messages.handleSendMessage env s st = (s, st).
Proof.
  intros H. unfold Messages.handleSendMessage. by rewrite H.
Qed.

Lemma handleSendMessage_blank_is_noop_witness :
  Messages.handleSendMessage (okEnv (lit "m1") 1) typingBlank emptyStore
    = (typingBlank, emptyStore).
Proof.
  apply (handleSendMessage_blank_is_noop (okEnv (lit "m1") 1) typingBlank
           emptyStore).
  reflexivity.
Defined.

(** A body with text does reach the store through the handler. *)
Example handleSendMessage_sends :
  body <$>
    collection
      (snd (Messages.handleSendMessage (okEnv (lit "m1") 1) typingHi
              emptyStore))
      (lit "alice_bob") !! lit "m1"
    = Some (Text (lit "hi"))
  ∧ Messages.newMessage
      (fst (Messages.handleSendMessage (okEnv (lit "m1") 1) typingHi
              emptyStore)) = [].
Proof. split; by vm_compute. Qed.

(** ** ConversationLedger: reading a conversation *)

Lemma elem_of_docs {V} (c : gmap jsstring V) (d : jsstring * V) :
  d ∈ docs c ↔ c !! fst d = Some (snd d).
Proof.
  unfold docs. rewrite elem_of_sort. destruct d as [i x].
  apply elem_of_map_to_list.
Qed.

Lemma markChatAsRead_unfold env chatId u st :
  markChatAsRead env chatId u st =
    if resetOk env then
      let st1 := snd (setDoc true chatId (resetCount u) st) in
      if queryOk env then
        snd (Promise_all
               (updatePromises env chatId
                  (filter (λ d, unreadMessage u (snd d) = true)
                     (docs (collection st1 chatId))))
               st1)
      else st1
    else st.
Proof.
  unfold markChatAsRead, bind, setDoc, getDocs, updatePromises.
  destruct (resetOk env), (queryOk env); reflexivity.
Qed.

Lemma collection_setRead chatId j st i :
  collection (snd (setRead true chatId j st)) chatId !! i =
    if decide (j = i) then readTrue <$> collection st chatId !! i
    else collection st chatId !! i.
Proof.
  unfold setRead, collection. simpl. rewrite lookup_alter_eq.
  destruct (messages st !! chatId) as [c|]; simpl.
  - rewrite lookup_alter. by destruct (decide (j = i)) as [->|].
  - rewrite lookup_empty. by destruct (decide (j = i)).
Qed.

Lemma Promise_all_cons_state p rest st :
  snd (Promise_all (p :: rest) st) = snd (Promise_all rest (snd (p st))).
Proof.
  simpl. destruct (p st) as [r st1]. simpl.
  by destruct (Promise_all rest st1).
Qed.

(** The writes of a snapshot leave the ledger alone and set [read] on
    exactly the documents of the snapshot. *)
Lemma Promise_all_updates env chatId snapshot :
  (∀ i, markOk env i = true) →
  ∀ st,
    chats (snd (Promise_all (updatePromises env chatId snapshot) st))
      = chats st
    ∧ ∀ i,
        collection
          (snd (Promise_all (updatePromises env chatId snapshot) st))
          chatId !! i =
        if decide (i ∈ map fst snapshot)
        then readTrue <$> collection st chatId !! i
        else collection st chatId !! i.
Proof.
  intros Hok. induction snapshot as [|d ds IH]; intros st.
  - split; [done|]. intros i. destruct (decide (i ∈ map fst [])) as [H|H];
      [|done]. by apply elem_of_nil in H.
  - change (updatePromises env chatId (d :: ds))
      with (setRead (markOk env d.1) chatId d.1
              :: updatePromises env chatId ds).
    rewrite Promise_all_cons_state, Hok.
    destruct (IH (snd (setRead true chatId d.1 st))) as [IHc IHm].
    split; [by rewrite IHc|].
    intros i. rewrite IHm, collection_setRead. simpl.
    destruct (decide (i ∈ map fst ds)) as [Hi|Hi],
             (decide (d.1 = i)) as [Hd|Hd].
    + rewrite decide_True by (subst; left). rewrite <- option_fmap_compose.
      by destruct (collection st chatId !! i).
    + rewrite decide_True by by right. done.
    + rewrite decide_True by (subst; left). done.
    + rewrite decide_False; [done|].
      intros [?|?]%elem_of_cons; congruence.
Qed.

Lemma filter_none {A} (f : A → bool) (l : list A) :
  (∀ x, x ∈ l → f x = false) → filter (λ x, f x = true) l = [].
Proof.
  induction l as [|x l IH]; intros H; [done|].
  rewrite filter_cons. destruct (decide (f x = true)) as [Hx|Hx].
  - rewrite H in Hx by left. done.
  - apply IH. intros y Hy. apply H. by right.
Qed.

Lemma mergeDoc_resetCount_idemp u old :
  mergeDoc (resetCount u) (mergeDoc (resetCount u) old)
    = mergeDoc (resetCount u) old.
Proof.
  unfold mergeDoc, resetCount. simpl. f_equal.
  by rewrite (assoc_L (∪)), (idemp_L (∪)).
Qed.

(** C4. When the store accepts the requests of [markChatAsRead(chatId,
    R)], the ledger entry afterwards counts no unread message for [R],
    and calling it again from the state reached, whatever the store then
    answers, changes nothing. *)
Theorem markChatAsRead_resets_and_is_idempotent (env : ReadEnv)
    (chatId R : jsstring) (st : Firestore) :
  resetOk env = true → queryOk env = true → (∀ i, markOk env i = true) →
  unreadCount (markChatAsRead env chatId R st) chatId R = 0%N
  ∧ ∀ env',
      markChatAsRead env' chatId R (markChatAsRead env chatId R st)
        = markChatAsRead env chatId R st.
Proof.
  intros Hreset Hquery Hmark.
  rewrite (markChatAsRead_unfold env), Hreset, Hquery. simpl.
  set (D := mergeDoc (resetCount R) (default emptyDoc (chats st !! chatId))).
  set (st1 := {| chats := <[chatId := D]> (chats st);
                 messages := messages st |}).
  set (snapshot := filter _ _).
  destruct (Promise_all_updates env chatId snapshot Hmark st1) as [Hc Hm].
  set (st2 := snd (Promise_all (updatePromises env chatId snapshot) st1))
    in *.
  assert (chats st2 !! chatId = Some D) as HD.
  { rewrite Hc. simpl. apply lookup_insert_eq. }
  split.
  - unfold unreadCount. rewrite HD. unfold unreadOf, D, mergeDoc. simpl.
    erewrite lookup_union_Some_l; [done|]. apply lookup_singleton_eq.
  - intros env'. rewrite markChatAsRead_unfold.
    destruct (resetOk env'); [|done]. simpl.
    assert ({| chats :=
                 <[chatId :=
                     mergeDoc (resetCount R)
                       (default emptyDoc (chats st2 !! chatId))]> (chats st2);
               messages := messages st2 |} = st2) as ->.
    { rewrite HD. simpl. unfold D at 1. rewrite mergeDoc_resetCount_idemp.
      fold D. rewrite insert_id by done. by destruct st2. }
    destruct (queryOk env'); [|done].
    rewrite filter_none; [done|]. intros d Hd.
    destruct (unreadMessage R d.2) eqn:Hun; [exfalso|done].
    apply elem_of_docs in Hd. rewrite Hm in Hd.
    destruct (decide (d.1 ∈ map fst snapshot)) as [Hin|Hin].
    + destruct (collection st1 chatId !! d.1) as [m|]; simpl in Hd; [|done].
      simplify_eq. rewrite <- Hd in Hun. unfold unreadMessage in Hun.
      simpl in Hun. by rewrite andb_false_r in Hun.
    + apply Hin. apply list_elem_of_fmap. exists d. split; [done|].
      unfold snapshot. apply list_elem_of_filter. split; [done|].
      by apply elem_of_docs.
Qed.

Lemma markChatAsRead_resets_and_is_idempotent_witness :
  unreadCount (markChatAsRead okRead (lit "alice_bob") bob afterThreeSends)
    (lit "alice_bob") bob = 0%N
  ∧ ∀ env',
      markChatAsRead env' (lit "alice_bob") bob
        (markChatAsRead okRead (lit "alice_bob") bob afterThreeSends)
      = markChatAsRead okRead (lit "alice_bob") bob afterThreeSends.
Proof.
  apply (markChatAsRead_resets_and_is_idempotent okRead (lit "alice_bob") bob
           afterThreeSends); [reflexivity|reflexivity|].
  intros i. reflexivity.
Defined.

(** Reading after three sends: every message of the chat is read. *)
Example markChatAsRead_after_three_sends :
  unreadCount afterThreeSends (lit "alice_bob") bob = 3%N
  ∧ map (λ d, read (snd d))
      (docs (collection
               (markChatAsRead okRead (lit "alice_bob") bob afterThreeSends)
               (lit "alice_bob")))
    = [true; true; true].
Proof. split; by vm_compute. Qed.

(** ** Two sends at the same time *)

(** Served without interruption, the requests of a call are the call. *)
Lemma run_alone_is_sendMessage env S R content c2 pc2 st :
  Async.run [true; true; true] (Async.textCall env S R content) c2
    Async.AtAddDoc pc2 st
  = (Async.Returned (fst (sendMessage env S R content st)), pc2,
     snd (sendMessage env S R content st)).
Proof.
  unfold sendMessage, try_catch, updateMetadata, bind, Async.run, Async.step,
    addDoc, getDoc, setDoc. simpl.
  destruct (addOk env), (getOk env), (setOk env); reflexivity.
Qed.

Lemma run_alone_is_sendMediaMessage env S R fileInfo messageType c2 pc2 st :
  Async.run [true; true; true]
    (Async.mediaCall env S R fileInfo messageType) c2 Async.AtAddDoc pc2 st
  = (Async.Returned (fst (sendMediaMessage env S R fileInfo messageType st)),
     pc2, snd (sendMediaMessage env S R fileInfo messageType st)).
Proof.
  unfold sendMediaMessage, try_catch, updateMetadata, bind, Async.run,
    Async.step, addDoc, getDoc, setDoc. simpl.
  destruct (addOk env), (getOk env), (setOk env); reflexivity.
Qed.

(** When both calls read the counter before either writes it, both
    return [true] and the counter has grown by one only. *)
Lemma racing_sends_count_once (c1 c2 : Async.Call) S R st :
  S ≠ R → allOk (Async.env c1) → allOk (Async.env c2) →
  Async.sender c1 = S → Async.receiver c1 = R →
  Async.sender c2 = S → Async.receiver c2 = R →
  ∃ st',
    Async.run Async.racing c1 c2 Async.AtAddDoc Async.AtAddDoc st
    = (Async.Returned true, Async.Returned true, st')
    ∧ unreadCount st' (createChatId S R) R
      = (unreadCount st (createChatId S R) R + 1)%N.
Proof.
  intros Hne (Ha1 & Hg1 & Hs1) (Ha2 & Hg2 & Hs2) HS1 HR1 HS2 HR2.
  unfold Async.racing, Async.run, Async.step, addDoc, getDoc, setDoc.
  rewrite HS1, HR1, HS2, HR2, Ha1, Ha2, Hg1, Hg2, Hs1, Hs2. simpl.
  eexists. split; [reflexivity|].
  unfold unreadCount. simpl. rewrite !lookup_insert_eq. simpl.
  by rewrite unreadOf_metadata_receiver.
Qed.

(** C2. The counter is read with [getDoc] and written back with
    [setDoc]: of two sends of [alice] to [bob] whose reads both come
    before their writes, both succeed, both messages are stored, and the
    ledger counts one unread message. *)
Theorem racing_sends_lose_an_increment :
  Async.run Async.racing firstCall secondCall Async.AtAddDoc Async.AtAddDoc
    emptyStore
  = (Async.Returned true, Async.Returned true,
     (Async.run Async.racing firstCall secondCall Async.AtAddDoc
        Async.AtAddDoc emptyStore).2)
  ∧ size (collection
            (Async.run Async.racing firstCall secondCall Async.AtAddDoc
               Async.AtAddDoc emptyStore).2 (lit "alice_bob")) = 2%nat
  ∧ unreadCount
      (Async.run Async.racing firstCall secondCall Async.AtAddDoc
         Async.AtAddDoc emptyStore).2 (lit "alice_bob") bob = 1%N.
Proof. repeat split; by vm_compute. Qed.

(** One after the other, the same two sends count two. *)
Example serial_sends_count_twice :
  unreadCount
    (Async.run [true; true; true; false; false; false] firstCall secondCall
       Async.AtAddDoc Async.AtAddDoc emptyStore).2 (lit "alice_bob") bob
  = 2%N.
Proof. by vm_compute. Qed.

(** ** Orders used by the queries *)

Lemma str_compare_refl x : str_compare x x = Eq.
Proof. induction x as [|a x IH]; simpl; [done|]. by rewrite N.compare_refl. Qed.

Lemma str_le_trans x y z :
  str_compare x y ≠ Gt → str_compare y z ≠ Gt → str_compare x z ≠ Gt.
Proof.
  revert y z. induction x as [|a x IH]; intros [|b y] [|c z]; simpl;
    try done.
  destruct (N.compare_spec a b), (N.compare_spec b c), (N.compare_spec a c);
    subst; try done; try lia.
  apply IH.
Qed.

Lemma str_le_total x y : str_compare x y ≠ Gt ∨ str_compare y x ≠ Gt.
Proof.
  rewrite (str_compare_antisym x y). destruct (str_compare x y); simpl; auto.
Qed.

Lemma ts_compare_Lt a b :
  ts_compare a b = Lt ↔
  seconds a < seconds b
  ∨ (seconds a = seconds b ∧ nanoseconds a < nanoseconds b).
Proof.
  unfold ts_compare.
  destruct (Z.compare_spec (seconds a) (seconds b)).
  - rewrite Z.compare_lt_iff. lia.
  - split; [lia|done].
  - split; [done|lia].
Qed.

Lemma ts_compare_Gt a b :
  ts_compare a b = Gt ↔
  seconds b < seconds a
  ∨ (seconds a = seconds b ∧ nanoseconds b < nanoseconds a).
Proof.
  unfold ts_compare.
  destruct (Z.compare_spec (seconds a) (seconds b)).
  - rewrite Z.compare_gt_iff. lia.
  - split; [done|lia].
  - split; [lia|done].
Qed.

Lemma timestamp_desc_le a b :
  sorts_before timestamp_desc a b ↔ desc_le a b.
Proof.
  unfold sorts_before, SortCompare, timestamp_desc, desc_le, default_compare.
  destruct (ts_compare (timestamp b.2) (timestamp a.2)); simpl;
    [destruct (str_compare b.1 a.1); simpl|..];
    intuition (first [lia | discriminate | congruence]).
Qed.

Lemma ts_compare_Eq a b :
  ts_compare a b = Eq ↔
  seconds a = seconds b ∧ nanoseconds a = nanoseconds b.
Proof.
  unfold ts_compare.
  destruct (Z.compare_spec (seconds a) (seconds b)).
  - rewrite Z.compare_eq_iff. lia.
  - split; [done|lia].
  - split; [done|lia].
Qed.

Lemma desc_le_total a b : desc_le a b ∨ desc_le b a.
Proof.
  unfold desc_le. rewrite !ts_compare_Lt, !ts_compare_Eq.
  destruct (str_le_total b.1 a.1); 
    destruct (Z.lt_total (seconds b.2.(timestamp)) (seconds a.2.(timestamp)))
      as [?|[?|?]];
    destruct (Z.lt_total (nanoseconds b.2.(timestamp))
                (nanoseconds a.2.(timestamp))) as [?|[?|?]];
    try (left; lia); try (right; lia); auto.
Qed.

Lemma desc_le_trans a b c : desc_le a b → desc_le b c → desc_le a c.
Proof.
  unfold desc_le. rewrite !ts_compare_Lt, !ts_compare_Eq.
  intros [H1|[H1 S1]] [H2|[H2 S2]]; try (left; lia).
  right. split; [lia|]. by eapply str_le_trans.
Qed.

Lemma StronglySorted_weaken {A} (R R' : A → A → Prop) l :
  (∀ x y, R x y → R' x y) → StronglySorted R l → StronglySorted R' l.
Proof.
  intros HR. induction 1 as [|x l Hl IH Hx]; constructor; [done|].
  eapply Forall_impl; [exact Hx|]. auto.
Qed.

Lemma StronglySorted_reverse {A} (R : A → A → Prop) l :
  StronglySorted R l → StronglySorted (flip R) (reverse l).
Proof.
  induction 1 as [|x l Hl IH Hx]; [constructor|].
  rewrite reverse_cons. apply StronglySorted_app_2.
  - intros y z Hy ->%list_elem_of_singleton. rewrite elem_of_reverse in Hy.
    rewrite List.Forall_forall in Hx. by apply Hx, list_elem_of_In.
  - exact IH.
  - repeat constructor.
Qed.

Lemma StronglySorted_take {A} (R : A → A → Prop) n l :
  StronglySorted R l → StronglySorted R (take n l).
Proof.
  intros H. rewrite <- (take_drop n l) in H.
  by apply StronglySorted_app_1_l in H.
Qed.

(** ** MessageChannel: pages of messages *)

(** A page consists of documents of the collection that pass the filter,
    latest first, and is no longer than the limit. *)
Lemma page_spec bound limitCount c :
  (length (page bound limitCount c) ≤ limitCount)%nat
  ∧ StronglySorted desc_le (page bound limitCount c)
  ∧ ∀ d, d ∈ page bound limitCount c →
         c !! d.1 = Some d.2 ∧ before bound d = true.
Proof.
  unfold page. split_and!.
  - rewrite length_take. lia.
  - apply StronglySorted_take.
    eapply StronglySorted_weaken; [apply timestamp_desc_le|].
    apply sort_sorted.
    + intros x y. rewrite !timestamp_desc_le. apply desc_le_total.
    + intros x y z. rewrite !timestamp_desc_le. apply desc_le_trans.
  - intros d Hd. apply elem_of_take in Hd as (i & Hd & _).
    apply list_elem_of_lookup_2 in Hd. apply elem_of_sort in Hd.
    apply list_elem_of_filter in Hd as [Hb Hd].
    by apply elem_of_docs in Hd.
Qed.

(** C8. [loadOlderMessages] returns at most [limitCount] messages of the
    conversation, each with a timestamp strictly before that of
    [lastMessage], oldest first; none of them is a message that a live
    page delivers with a timestamp at or after that of [lastMessage]. *)
Theorem loadOlderMessages_older_page (userId1 userId2 : jsstring)
    (lastMessage : jsstring * Message) (limitCount : nat) (st : Firestore) :
  (0 < limitCount)%nat →
  ∃ older,
    loadOlderMessages true userId1 userId2 lastMessage limitCount st
      = (Some older, st)
    ∧ (length older ≤ limitCount)%nat
    ∧ (∀ m, m ∈ older →
         collection st (createChatId userId1 userId2) !! m.1 = Some m.2
         ∧ ts_compare (timestamp m.2) (timestamp lastMessage.2) = Lt)
    ∧ StronglySorted
        (λ a b, ts_compare (timestamp a.2) (timestamp b.2) ≠ Gt) older
    ∧ (∀ n m m',
         m ∈ older → m' ∈ getChatMessages userId1 userId2 n st →
         ts_compare (timestamp m'.2) (timestamp lastMessage.2) ≠ Lt →
         m.1 ≠ m'.1).
Proof.
  intros _. eexists. split; [reflexivity|].
  set (c := collection st (createChatId userId1 userId2)).
  destruct (page_spec (Some (timestamp lastMessage.2)) limitCount c)
    as (Hlen & Hsorted & Hin).
  assert (∀ m, m ∈ reverse (page (Some (timestamp lastMessage.2))
                              limitCount c) →
               c !! m.1 = Some m.2
               ∧ ts_compare (timestamp m.2) (timestamp lastMessage.2) = Lt)
    as Hold.
  { intros m Hm. rewrite elem_of_reverse in Hm.
    destruct (Hin m Hm) as [Hc Hb].
    split; [done|]. unfold before, ts_ltb in Hb.
    by destruct (ts_compare (timestamp m.2) (timestamp lastMessage.2)). }
  split_and!.
  - by rewrite length_reverse.
  - done.
  - eapply StronglySorted_weaken;
      [|apply StronglySorted_reverse, Hsorted].
    intros a b [H|[H _]]; unfold flip; simpl; congruence.
  - intros n m m' Hm Hm' Hts Heq.
    destruct (Hold m Hm) as [Hc Hlt].
    unfold getChatMessages in Hm'. rewrite elem_of_reverse in Hm'.
    destruct (page_spec None n c) as (_ & _ & Hin').
    destruct (Hin' m' Hm') as [Hc' _].
    rewrite Heq, Hc' in Hc. injection Hc as Hc. rewrite Hc in Hts. done.
Qed.

Lemma loadOlderMessages_older_page_witness :
  ∃ older,
    loadOlderMessages true alice bob fourth 2 afterSixSends
      = (Some older, afterSixSends)
    ∧ (length older ≤ 2)%nat
    ∧ (∀ m, m ∈ older →
         collection afterSixSends (createChatId alice bob) !! m.1 = Some m.2
         ∧ ts_compare (timestamp m.2) (timestamp fourth.2) = Lt)
    ∧ StronglySorted
        (λ a b, ts_compare (timestamp a.2) (timestamp b.2) ≠ Gt) older
    ∧ (∀ n m m',
         m ∈ older → m' ∈ getChatMessages alice bob n afterSixSends →
         ts_compare (timestamp m'.2) (timestamp fourth.2) ≠ Lt →
         m.1 ≠ m'.1).
Proof.
  apply (loadOlderMessages_older_page alice bob fourth 2 afterSixSends).
  lia.
Defined.

(** With six messages in the conversation, the page of two before the
    fourth holds the second and the third, and the live page of three
    holds the last three. *)
Example loadOlderMessages_before_fourth :
  (map fst <$> fst (loadOlderMessages true alice bob fourth 2 afterSixSends))
    = Some [lit "m2"; lit "m3"]
  ∧ map fst (getChatMessages alice bob 3 afterSixSends)
    = [lit "m4"; lit "m5"; lit "m6"].
Proof. split; by vm_compute. Qed.

(** ** ConversationLedger: the chats of a user *)



(** ** PresenceTracker: listeners *)

Lemma listeners_foldl_onValue userIds : ∀ db,
  ∃ attached,
    Presence.listeners
      (foldl (λ db userId, snd (Presence.onValue userId db)) db userIds)
    = Presence.listeners db ++ attached
    ∧ map snd attached = userIds.
Proof.
  induction userIds as [|u us IH]; intros db.
  - exists []. simpl. by rewrite app_nil_r.
  - destruct (IH (snd (Presence.onValue u db))) as (att & Hl & Hu).
    exists ((Presence.nextHandle db, u) :: att). split.
    + cbn [foldl]. rewrite Hl. simpl. by rewrite <- app_assoc.
    + simpl. by rewrite Hu.
Qed.

(** Whatever the ids, [listenToUserPresence] evaluates to [undefined],
    which cannot be called, and leaves one more listener attached for
    every id. *)
Lemma listenToUserPresence_no_handle userIds db :
  fst (Presence.listenToUserPresence userIds db) = Presence.undefined
  ∧ (∀ db', Presence.call
              (fst (Presence.listenToUserPresence userIds db)) db' = None)
  ∧ ∃ attached,
      Presence.listeners (snd (Presence.listenToUserPresence userIds db))
      = Presence.listeners db ++ attached
      ∧ map snd attached = userIds.
Proof.
  split_and!; [done|done|]. apply listeners_foldl_onValue.
Qed.

(** What [onValue] returns does detach the listener it attached. *)
Example onValue_unsubscribe :
  (Presence.listeners <$>
     Presence.call (fst (Presence.onValue alice emptyRtdb))
       (snd (Presence.onValue alice emptyRtdb)))
  = Some [].
Proof. reflexivity. Qed.

(** C9. [listenToUserPresence([alice, bob], callback)] evaluates to
    [undefined]: there is no handle to cancel, and the listeners it
    attached for the two ids stay attached and are called back on the
    next change. *)
Theorem listenToUserPresence_leaks_listeners :
  fst (Presence.listenToUserPresence [alice; bob] emptyRtdb)
    = Presence.undefined
  ∧ Presence.call (fst (Presence.listenToUserPresence [alice; bob] emptyRtdb))
      (snd (Presence.listenToUserPresence [alice; bob] emptyRtdb)) = None
  ∧ Presence.notified alice
      (snd (Presence.listenToUserPresence [alice; bob] emptyRtdb)) = [0%nat]
  ∧ Presence.notified bob
      (snd (Presence.listenToUserPresence [alice; bob] emptyRtdb)) = [1%nat].
Proof. repeat split. Qed.

(** ** ConversationRanker *)

Lemma compareUsers_active_selected sel a b :
  OtherUser.id a = sel → OtherUser.id b ≠ sel →
  Messages.compareUsers (Some sel) true a b = Some (-1)
  ∧ Messages.compareUsers (Some sel) true b a = Some 1.
Proof.
  intros Ha Hb. unfold Messages.compareUsers.
  rewrite (bool_decide_eq_true_2 (Some (OtherUser.id a) = Some sel))
    by by rewrite Ha.
  rewrite (bool_decide_eq_false_2 (Some (OtherUser.id b) = Some sel))
    by (intros [=]; done).
  done.
Qed.

(** C6. While [isActivelyChatting] is set, the user of the selected chat,
    when the list has it, is the first element of [filteredUsers],
    whatever the unread counts, message times, presence and creation
    times of the users are. *)
Theorem filteredUsers_active_chat_first (s : Messages.State)
    (sel : jsstring) :
  Messages.isActivelyChatting s = true →
  Messages.selectedChat s = Some sel →
  (∃ u, u ∈ Messages.users s ∧ User.id u = sel
        ∧ Some sel ≠ Messages.currentUser s) →
  ∃ r, head (Messages.filteredUsers s) = Some r ∧ OtherUser.id r = sel.
Proof.
  intros Hact Hsel (u & Hu & Hid & Hself).
  unfold Messages.filteredUsers. rewrite Hact, Hsel.
  apply (sort_head _ (λ r, OtherUser.id r = sel)).
  - intros x y Hx Hy. unfold SortCompare.
    destruct (compareUsers_active_selected sel x y Hx Hy) as [-> _].
    simpl. lia.
  - intros x y Hx Hy. unfold SortCompare.
    destruct (compareUsers_active_selected sel x y Hx Hy) as [_ ->].
    simpl. lia.
  - exists (Messages.annotate (Messages.currentUser s)
              (Messages.userPresence s) (Messages.chatCounts s) u).
    split; [|done]. apply list_elem_of_fmap. exists u. split; [done|].
    apply list_elem_of_filter. split; [|done].
    unfold Messages.isOther. rewrite Hid.
    by rewrite bool_decide_eq_false_2.
Qed.

(** The fact does not depend on how the engine sorts: in every
    arrangement of the rows that the comparator accepts between
    neighbours, the selected row is first. *)
Lemma active_chat_first_in_any_sorted (sel : jsstring)
    (rows sorted : list OtherUser.t) :
  sorted ≡ₚ rows →
  Sorted (sorts_before (Messages.compareUsers (Some sel) true)) sorted →
  (∃ r, r ∈ rows ∧ OtherUser.id r = sel) →
  ∃ r, head sorted = Some r ∧ OtherUser.id r = sel.
Proof.
  intros Hperm Hsorted (r & Hr & Hid).
  apply (sorted_head (Messages.compareUsers (Some sel) true)
           (λ r, OtherUser.id r = sel)); [|done|].
  - intros x y Hx Hy. unfold sorts_before, SortCompare.
    destruct (compareUsers_active_selected sel x y Hx Hy) as [_ ->].
    simpl. lia.
  - exists r. by rewrite Hperm.
Qed.

Lemma filteredUsers_active_chat_first_witness :
  ∃ r, head (Messages.filteredUsers (sampleState (lit "hi") true)) = Some r
       ∧ OtherUser.id r = bob.
Proof.
  apply (filteredUsers_active_chat_first (sampleState (lit "hi") true) bob).
  - reflexivity.
  - reflexivity.
  - exists (sampleUser bob 20). split_and!.
    + simpl. do 2 right. left.
    + reflexivity.
    + by vm_compute.
Defined.

(** The same list while sending and at rest: [bob], without any message,
    is first only while sending. *)
Example filteredUsers_sample :
  map OtherUser.id (Messages.filteredUsers (sampleState (lit "hi") true))
    = [bob; lit "carol"; lit "dave"]
  ∧ map OtherUser.id (Messages.filteredUsers (sampleState (lit "hi") false))
    = [lit "carol"; lit "dave"; bob].
Proof. split; by vm_compute. Qed.

(** [filteredUsers] reads the users, the current user, the presence map,
    the chat counts, the selected chat and the actively-chatting flag
    only, and arranges all the other users, each annotated, in one
    order. *)
Lemma filteredUsers_inputs (s1 s2 : Messages.State) :
  Messages.users s1 = Messages.users s2 →
  Messages.currentUser s1 = Messages.currentUser s2 →
  Messages.userPresence s1 = Messages.userPresence s2 →
  Messages.chatCounts s1 = Messages.chatCounts s2 →
  Messages.selectedChat s1 = Messages.selectedChat s2 →
  Messages.isActivelyChatting s1 = Messages.isActivelyChatting s2 →
  Messages.filteredUsers s1 = Messages.filteredUsers s2.
Proof.
  intros Hu Hc Hp Hk Hs Ha.
  unfold Messages.filteredUsers. by rewrite Hu, Hc, Hp, Hk, Hs, Ha.
Qed.





(* ===================================================================== *)
(** * Further properties of the store functions *)
(* ===================================================================== *)

(** ** What a send leaves behind *)

Lemma append_eq_send S R a st :
  append S R a st =
    send (fst a) (createChatId S R) (messageOf S R a) S R (previewOf a) st.
Proof. destruct a as [env [content|fileInfo messageType]]; reflexivity. Qed.

(** The three ways a send ends. *)
Lemma send_cases env chatId m S R preview st :
  send env chatId m S R preview st =
    if addOk env then
      if getOk env && setOk env then
        (true,
         snd (setDoc true chatId
                (metadata S R preview (metadataTime env)
                   (unreadOf (chats st !! chatId) R))
                (snd (addDoc true chatId (newId env) m st))))
      else (false, snd (addDoc true chatId (newId env) m st))
    else (false, st).
Proof.
  unfold send, try_catch, updateMetadata, bind, addDoc, getDoc, setDoc.
  destruct (addOk env), (getOk env), (setOk env); reflexivity.
Qed.

Lemma collection_addDoc chatId docId m st c :
  collection (snd (addDoc true chatId docId m st)) c =
    if decide (c = chatId) then <[docId := m]> (collection st chatId)
    else collection st c.
Proof.
  unfold addDoc, collection at 1. simpl.
  destruct (decide (c = chatId)) as [->|Hne].
  - by rewrite lookup_insert_eq.
  - by rewrite lookup_insert_ne.
Qed.

Lemma append_outcome_aux (S R : jsstring) (a : SendEnv * Append)
    (st : Firestore) :
  (fst (append S R a st) = true ↔ allOk (fst a))
  ∧ (fst (append S R a st) = false →
     chats (snd (append S R a st)) = chats st)
  ∧ (addOk (fst a) = false → snd (append S R a st) = st)
  ∧ (addOk (fst a) = true →
     collection (snd (append S R a st)) (createChatId S R)
       !! newId (fst a) = Some (messageOf S R a))
  ∧ (fst (append S R a st) = true →
     ∃ d, chats (snd (append S R a st)) !! createChatId S R = Some d
          ∧ participants d = Some [S; R]
          ∧ lastMessage d = Some (previewOf a)
          ∧ lastMessageTimestamp d = Some (metadataTime (fst a))
          ∧ lastMessageSender d = Some S).
Proof.
  rewrite append_eq_send, send_cases. unfold allOk.
  destruct (addOk (fst a)) eqn:Ha, (getOk (fst a)) eqn:Hg,
           (setOk (fst a)) eqn:Hs; simpl;
    (split_and!; [intuition congruence|try done..]);
    try (intros _; unfold collection; simpl;
         rewrite lookup_insert_eq; simpl; by rewrite lookup_insert_eq).
  intros _. eexists. split; [apply lookup_insert_eq|done].
Qed.

(** X1. A send returns [true] exactly when the store accepted its three
    requests.  When it returns [false] the ledger is as before, but the
    message is stored all the same as soon as the store accepted the
    first request; when it returns [true] the message is stored unread
    under the new id and the ledger entry of the pair names the two
    participants, the sender, the preview and the time of the update. *)
Theorem append_outcome (S R : jsstring) (a : SendEnv * Append)
    (st : Firestore) :
  (fst (append S R a st) = true ↔ allOk (fst a))
  ∧ (fst (append S R a st) = false →
     chats (snd (append S R a st)) = chats st)
  ∧ (addOk (fst a) = false → snd (append S R a st) = st)
  ∧ (addOk (fst a) = true →
     collection (snd (append S R a st)) (createChatId S R)
       !! newId (fst a) = Some (messageOf S R a))
  ∧ (fst (append S R a st) = true →
     ∃ d, chats (snd (append S R a st)) !! createChatId S R = Some d
          ∧ participants d = Some [S; R]
          ∧ lastMessage d = Some (previewOf a)
          ∧ lastMessageTimestamp d = Some (metadataTime (fst a))
          ∧ lastMessageSender d = Some S).
Proof. apply append_outcome_aux. Qed.

(** X2. A send touches the chat of its pair only, and in it no message
    but the one it writes. *)
Theorem append_frame (S R : jsstring) (a : SendEnv * Append)
    (st : Firestore) :
  (∀ c, c ≠ createChatId S R →
        chats (snd (append S R a st)) !! c = chats st !! c
        ∧ collection (snd (append S R a st)) c = collection st c)
  ∧ (∀ i, i ≠ newId (fst a) →
          collection (snd (append S R a st)) (createChatId S R) !! i
          = collection st (createChatId S R) !! i).
Proof.
  rewrite append_eq_send, send_cases.
  destruct (addOk (fst a)), (getOk (fst a) && setOk (fst a)); simpl;
    (split; [intros c Hc|intros i Hi]); try done;
    unfold collection; simpl.
  - rewrite !lookup_insert_ne by done. done.
  - rewrite lookup_insert_eq. simpl. by rewrite lookup_insert_ne.
  - rewrite !lookup_insert_ne by done. done.
  - rewrite lookup_insert_eq. simpl. by rewrite lookup_insert_ne.
Qed.

(** X3. A successful send leaves the sender's counter at 0 whoever the
    receiver is.  A message sent to oneself is therefore stored unread
    and never counted. *)
Theorem append_to_self_is_not_counted (S : jsstring) (a : SendEnv * Append)
    (st : Firestore) :
  fst (append S S a st) = true →
  unreadCount (snd (append S S a st)) (createChatId S S) S = 0%N
  ∧ read <$> collection (snd (append S S a st)) (createChatId S S)
               !! newId (fst a) = Some false.
Proof.
  intros Hok. destruct (append_outcome_aux S S a st) as (Hall & _ & _ & Hm & _).
  apply Hall in Hok as Hflags. destruct Hflags as (Ha & Hg & Hs).
  rewrite (Hm Ha). split; [|done].
  rewrite append_eq_send in Hok |- *.
  destruct (send _ _ _ _ _ _ _) as [r st'] eqn:E. simpl in *. subst r.
  apply send_true in E. unfold unreadCount. rewrite E, lookup_insert_eq.
  apply unreadOf_metadata_sender.
Qed.

Lemma append_to_self_is_not_counted_witness :
  unreadCount
    (snd (append alice alice (okEnv (lit "m1") 1, SendText (lit "note"))
            emptyStore)) (createChatId alice alice) alice = 0%N
  ∧ read <$> collection
               (snd (append alice alice
                       (okEnv (lit "m1") 1, SendText (lit "note"))
                       emptyStore)) (createChatId alice alice)
               !! newId (fst (okEnv (lit "m1") 1, SendText (lit "note")))
    = Some false.
Proof.
  apply (append_to_self_is_not_counted alice
           (okEnv (lit "m1") 1, SendText (lit "note")) emptyStore).
  reflexivity.
Defined.

(** ** What holds of every reachable store *)

Lemma ledger_ok_chats st st' :
  chats st' = chats st → ledger_ok st → ledger_ok st'.
Proof. unfold ledger_ok. by intros ->. Qed.

Lemma ledger_ok_metadata S R preview now k st :
  ledger_ok st →
  ledger_ok
    (snd (setDoc true (createChatId S R) (metadata S R preview now k) st)).
Proof.
  intros Hst c d. unfold setDoc. simpl.
  destruct (decide (c = createChatId S R)) as [->|Hne].
  - rewrite lookup_insert_eq. intros [= <-].
    unfold ledger_entry_ok. simpl. split.
    + apply unreadOf_metadata_sender.
    + exists R. split_and!; by eauto.
  - rewrite lookup_insert_ne by done. apply Hst.
Qed.

Lemma unreadOf_resetCount u old v :
  unreadOf (Some (mergeDoc (resetCount u) old)) v =
    if decide (v = u) then 0%N else unreadOf (Some old) v.
Proof.
  unfold unreadOf, mergeDoc, resetCount. simpl.
  destruct (decide (v = u)) as [->|Hne].
  - erewrite lookup_union_Some_l; [done|]. apply lookup_singleton_eq.
  - rewrite lookup_union_r; [done|]. by apply lookup_singleton_ne.
Qed.

Lemma ledger_ok_resetCount chatId u st :
  ledger_ok st →
  ledger_ok (snd (setDoc true chatId (resetCount u) st)).
Proof.
  intros Hst c d. unfold setDoc. simpl.
  destruct (decide (c = chatId)) as [->|Hne].
  - rewrite lookup_insert_eq. intros [= <-].
    assert (ledger_entry_ok chatId (default emptyDoc (chats st !! chatId)))
      as Hold.
    { destruct (chats st !! chatId) as [d|] eqn:E; [by apply Hst|].
      unfold ledger_entry_ok. simpl. done. }
    revert Hold. generalize (default emptyDoc (chats st !! chatId)).
    intros old. unfold ledger_entry_ok.
    change (lastMessageSender (mergeDoc (resetCount u) old))
      with (lastMessageSender old).
    destruct (lastMessageSender old) as [s|].
    + intros [H0 Hr]. split; [|done].
      rewrite unreadOf_resetCount. by destruct (decide (s = u)).
    + intros (Hp & Hl & Ht & Hz). split_and!; try done.
      intros v. rewrite unreadOf_resetCount. by destruct (decide (v = u)).
  - rewrite lookup_insert_ne by done. apply Hst.
Qed.

Lemma step_store c pc st :
  snd (Async.step c pc st) =
    match pc with
    | Async.AtAddDoc =>
        snd (addDoc (addOk (Async.env c))
               (createChatId (Async.sender c) (Async.receiver c))
               (newId (Async.env c)) (Async.messageData c) st)
    | Async.AtSetDoc k =>
        snd (setDoc (setOk (Async.env c))
               (createChatId (Async.sender c) (Async.receiver c))
               (metadata (Async.sender c) (Async.receiver c)
                  (Async.preview c) (metadataTime (Async.env c)) k) st)
    | _ => st
    end.
Proof.
  destruct pc as [| |k|r]; unfold Async.step, addDoc, getDoc, setDoc.
  - by destruct (addOk (Async.env c)).
  - by destruct (getOk (Async.env c)).
  - by destruct (setOk (Async.env c)).
  - done.
Qed.

Lemma ledger_ok_step c pc st :
  ledger_ok st → ledger_ok (snd (Async.step c pc st)).
Proof.
  intros Hst. rewrite step_store. destruct pc as [| |k|r]; try done.
  - unfold addDoc. destruct (addOk (Async.env c)); [|done].
    by eapply ledger_ok_chats.
  - destruct (setOk (Async.env c)); [|done]. by apply ledger_ok_metadata.
Qed.

Lemma ledger_ok_send env m S R preview st :
  ledger_ok st →
  ledger_ok (snd (send env (createChatId S R) m S R preview st)).
Proof.
  intros Hst. rewrite send_cases.
  destruct (addOk env); [|done].
  destruct (getOk env && setOk env).
  - apply ledger_ok_metadata. by eapply ledger_ok_chats.
  - by eapply ledger_ok_chats.
Qed.

(** The writes of a snapshot, whatever the store answers to each. *)
Lemma collection_setRead_any ok chatId j st c i :
  collection (snd (setRead ok chatId j st)) c !! i =
    if decide (ok = true ∧ c = chatId ∧ j = i)
    then readTrue <$> collection st c !! i
    else collection st c !! i.
Proof.
  unfold setRead. destruct ok; simpl.
  2: done.
  unfold collection. simpl.
  destruct (decide (c = chatId)) as [->|Hc].
  - rewrite lookup_alter_eq. destruct (decide (j = i)) as [->|Hj].
    + rewrite decide_True by done.
      destruct (messages st !! chatId); simpl;
        [by rewrite lookup_alter_eq|by rewrite lookup_empty].
    + rewrite decide_False by (by intros (_ & _ & ?)).
      destruct (messages st !! chatId); simpl;
        [by rewrite lookup_alter_ne|done].
  - rewrite lookup_alter_ne by done.
    rewrite decide_False by (by intros (_ & ? & _)). done.
Qed.

Lemma elem_of_marked_cons env d ds i :
  i ∈ marked env (d :: ds) ↔
  (markOk env d.1 = true ∧ i = d.1) ∨ i ∈ marked env ds.
Proof.
  unfold marked. simpl. rewrite filter_cons.
  destruct (decide (markOk env d.1 = true)) as [Hok|Hok].
  - rewrite elem_of_cons. tauto.
  - tauto.
Qed.

Lemma Promise_all_marks env chatId snapshot : ∀ st,
  chats (snd (Promise_all (updatePromises env chatId snapshot) st))
    = chats st
  ∧ ∀ c i,
      collection (snd (Promise_all (updatePromises env chatId snapshot) st))
        c !! i =
      if decide (c = chatId ∧ i ∈ marked env snapshot)
      then readTrue <$> collection st c !! i
      else collection st c !! i.
Proof.
  induction snapshot as [|d ds IH]; intros st.
  - split; [done|]. intros c i. rewrite decide_False; [done|].
    intros [_ H]. by apply elem_of_nil in H.
  - change (updatePromises env chatId (d :: ds))
      with (setRead (markOk env d.1) chatId d.1
              :: updatePromises env chatId ds).
    rewrite Promise_all_cons_state.
    destruct (IH (snd (setRead (markOk env d.1) chatId d.1 st)))
      as [IHc IHm].
    split.
    { rewrite IHc. unfold setRead. by destruct (markOk env d.1). }
    intros c i. rewrite IHm, collection_setRead_any.
    destruct (decide (c = chatId ∧ i ∈ marked env ds)) as [Hi|Hi].
    + rewrite (decide_True (P := c = chatId ∧ i ∈ marked env (d :: ds)))
        by (rewrite elem_of_marked_cons; tauto).
      destruct (decide (markOk env d.1 = true ∧ c = chatId ∧ d.1 = i));
        [|done].
      rewrite <- option_fmap_compose. by destruct (collection st c !! i).
    + destruct (decide (markOk env d.1 = true ∧ c = chatId ∧ d.1 = i))
        as [Hd|Hd].
      * rewrite decide_True; [done|].
        rewrite elem_of_marked_cons. destruct Hd as (? & ? & ?). by eauto.
      * rewrite decide_False; [done|].
        rewrite elem_of_marked_cons. intros [? [[? ?]|?]]; [|tauto].
        apply Hd. by eauto.
Qed.

Lemma markMessagesAsRead_unfold env chatId u st :
  markMessagesAsRead env chatId u st =
    if queryOk env then
      snd (Promise_all
             (updatePromises env chatId
                (filter (λ d, unreadMessage u (snd d) = true)
                   (docs (collection st chatId))))
             st)
    else st.
Proof.
  unfold markMessagesAsRead, bind, getDocs, updatePromises.
  destruct (queryOk env); reflexivity.
Qed.

(** [markChatAsRead] is the reset of the counter followed by
    [markMessagesAsRead]; when the reset is refused nothing else is
    asked of the store. *)
Lemma markChatAsRead_compose env chatId u st :
  markChatAsRead env chatId u st =
    if resetOk env then
      markMessagesAsRead env chatId u
        (snd (setDoc true chatId (resetCount u) st))
    else st.
Proof.
  rewrite markChatAsRead_unfold.
  destruct (resetOk env); [|done]. by rewrite markMessagesAsRead_unfold.
Qed.

Lemma chats_markMessagesAsRead env chatId u st :
  chats (markMessagesAsRead env chatId u st) = chats st.
Proof.
  rewrite markMessagesAsRead_unfold. destruct (queryOk env); [|done].
  apply Promise_all_marks.
Qed.

Lemma reachable_appends S R l : ∀ st,
  reachable st → reachable (snd (appends S R l st)).
Proof.
  induction l as [|a l IH]; intros st Hst; simpl; [done|].
  destruct (append S R a st) as [r st1] eqn:Ea.
  specialize (IH st1). destruct (appends S R l st1) as [rs st2]. simpl in *.
  apply IH. replace st1 with (snd (append S R a st)) by by rewrite Ea.
  destruct a as [env [content|fileInfo messageType]]; unfold append; simpl;
    by constructor.
Qed.

Lemma reachable_ledger_ok_aux (st : Firestore) :
  reachable st → ledger_ok st.
Proof.
  induction 1 as [|env S R content st _ IH|env S R fileInfo messageType st _ IH
                  |env chatId u st _ IH|env chatId u st _ IH
                  |env S R content pc st _ IH
                  |env S R fileInfo messageType pc st _ IH].
  - intros c d. unfold emptyStore. simpl. by rewrite lookup_empty.
  - change (sendMessage env S R content st)
      with (append S R (env, SendText content) st).
    rewrite append_eq_send. by apply ledger_ok_send.
  - change (sendMediaMessage env S R fileInfo messageType st)
      with (append S R (env, SendMedia fileInfo messageType) st).
    rewrite append_eq_send. by apply ledger_ok_send.
  - rewrite markChatAsRead_compose. destruct (resetOk env); [|done].
    eapply ledger_ok_chats; [apply chats_markMessagesAsRead|].
    by apply ledger_ok_resetCount.
  - eapply ledger_ok_chats; [apply chats_markMessagesAsRead|done].
  - by apply ledger_ok_step.
  - by apply ledger_ok_step.
Qed.

(** X4. In every reachable store each ledger entry is whole: either it
    carries no metadata of a last message and counts no unread message
    for anybody, or it names two participants, is filed under their chat
    id, names the first of them as the sender of the last message, has a
    preview and a time, and counts no unread message for that sender. *)
Theorem reachable_ledger_ok (st : Firestore) :
  reachable st → ledger_ok st.
Proof. apply reachable_ledger_ok_aux. Qed.

Lemma reachable_ledger_ok_witness : ledger_ok afterThreeSends.
Proof.
  apply (reachable_ledger_ok afterThreeSends).
  apply reachable_appends, reach_empty.
Defined.

Lemma collection_setDoc ok chatId data st c :
  collection (snd (setDoc ok chatId data st)) c = collection st c.
Proof. unfold setDoc. by destruct ok. Qed.

Lemma messages_ok_addDoc chatId docId m st :
  chatId = createChatId (senderId m) (receiverId m) →
  messages_ok st → messages_ok (snd (addDoc true chatId docId m st)).
Proof.
  intros Hm Hst c i m'. rewrite collection_addDoc.
  destruct (decide (c = chatId)) as [->|Hc]; [|apply Hst].
  destruct (decide (i = docId)) as [->|Hi].
  - rewrite lookup_insert_eq. by intros [= <-].
  - rewrite lookup_insert_ne by done. apply Hst.
Qed.

Lemma messages_ok_send env m S R preview st :
  senderId m = S → receiverId m = R →
  messages_ok st →
  messages_ok (snd (send env (createChatId S R) m S R preview st)).
Proof.
  intros HS HR Hst. rewrite send_cases.
  assert (messages_ok
            (snd (addDoc true (createChatId S R) (newId env) m st)))
    as Hadd by (apply messages_ok_addDoc; [by rewrite HS, HR|done]).
  destruct (addOk env); [|done].
  destruct (getOk env && setOk env); [|done].
  cbn [snd]. intros c i m'. rewrite collection_setDoc. apply Hadd.
Qed.

Lemma messages_ok_step c pc st :
  senderId (Async.messageData c) = Async.sender c →
  receiverId (Async.messageData c) = Async.receiver c →
  messages_ok st → messages_ok (snd (Async.step c pc st)).
Proof.
  intros HS HR Hst. rewrite step_store. destruct pc as [| |k|r]; try done.
  - unfold addDoc at 1. destruct (addOk (Async.env c)); [|done].
    apply messages_ok_addDoc; [by rewrite HS, HR|done].
  - intros ch i m'. rewrite collection_setDoc. apply Hst.
Qed.

Lemma messages_ok_marks env chatId snapshot st :
  messages_ok st →
  messages_ok (snd (Promise_all (updatePromises env chatId snapshot) st)).
Proof.
  intros Hst c i m.
  destruct (Promise_all_marks env chatId snapshot st) as [_ ->].
  destruct (decide _); [|apply Hst].
  destruct (collection st c !! i) as [m0|] eqn:E; [|done].
  intros [= <-]. simpl. by apply (Hst c i m0).
Qed.

Lemma messages_ok_markMessagesAsRead env chatId u st :
  messages_ok st → messages_ok (markMessagesAsRead env chatId u st).
Proof.
  intros Hst. rewrite markMessagesAsRead_unfold.
  destruct (queryOk env); [|done]. by apply messages_ok_marks.
Qed.

(** X5. In every reachable store each message is filed under the chat id
    of its own sender and receiver. *)
Theorem reachable_messages_ok (st : Firestore) :
  reachable st → messages_ok st.
Proof.
  induction 1 as [|env S R content st _ IH|env S R fileInfo messageType st _ IH
                  |env chatId u st _ IH|env chatId u st _ IH
                  |env S R content pc st _ IH
                  |env S R fileInfo messageType pc st _ IH].
  - intros c i m. unfold collection, emptyStore. simpl.
    by rewrite lookup_empty.
  - change (sendMessage env S R content st)
      with (append S R (env, SendText content) st).
    rewrite append_eq_send. by apply messages_ok_send.
  - change (sendMediaMessage env S R fileInfo messageType st)
      with (append S R (env, SendMedia fileInfo messageType) st).
    rewrite append_eq_send. by apply messages_ok_send.
  - rewrite markChatAsRead_compose. destruct (resetOk env); [|done].
    apply messages_ok_markMessagesAsRead.
    intros c i m. rewrite collection_setDoc. apply IH.
  - by apply messages_ok_markMessagesAsRead.
  - by apply messages_ok_step.
  - by apply messages_ok_step.
Qed.

Lemma reachable_messages_ok_witness : messages_ok afterThreeSends.
Proof.
  apply (reachable_messages_ok afterThreeSends).
  apply reachable_appends, reach_empty.
Defined.

(** ** Reading: what is and what is not touched *)

(** The writes for the unread messages of [u] keep every message, change
    nothing of it but [read], and set [read] only on messages of the chat
    that are addressed to [u]. *)
Lemma marks_keep_content env chatId u st c i m :
  collection st c !! i = Some m →
  ∃ m',
    collection
      (snd (Promise_all
              (updatePromises env chatId
                 (filter (λ d, unreadMessage u (snd d) = true)
                    (docs (collection st chatId))))
              st)) c !! i = Some m'
    ∧ same_content m m'
    ∧ (read m' = read m
       ∨ (c = chatId ∧ receiverId m = u ∧ read m = false ∧ read m' = true)).
Proof.
  intros Hm. set (snapshot := filter _ _).
  destruct (Promise_all_marks env chatId snapshot st) as [_ ->].
  rewrite Hm. destruct (decide _) as [[-> Hi]|_].
  - exists (readTrue m). split_and!; [done|done|right].
    unfold marked in Hi. apply list_elem_of_filter in Hi as [_ Hi].
    apply list_elem_of_fmap in Hi as (d & -> & Hd).
    apply list_elem_of_filter in Hd as [Hun Hd].
    apply elem_of_docs in Hd. rewrite Hm in Hd. injection Hd as Hd.
    rewrite <- Hd in Hun. unfold unreadMessage in Hun. apply andb_true_iff in Hun as [H1 H2].
    apply bool_decide_eq_true in H1, H2. done.
  - exists m. split_and!; [done|done|by left].
Qed.

Lemma markMessagesAsRead_effect_aux (env : ReadEnv) (chatId u : jsstring)
    (st : Firestore) :
  chats (markMessagesAsRead env chatId u st) = chats st
  ∧ (∀ c i, collection (markMessagesAsRead env chatId u st) c !! i = None
            ↔ collection st c !! i = None)
  ∧ (∀ c i m,
       collection st c !! i = Some m →
       ∃ m', collection (markMessagesAsRead env chatId u st) c !! i = Some m'
             ∧ same_content m m'
             ∧ (read m' = read m
                ∨ (c = chatId ∧ receiverId m = u
                   ∧ read m = false ∧ read m' = true)))
  ∧ (queryOk env = true → (∀ i, markOk env i = true) →
     ∀ i m, collection (markMessagesAsRead env chatId u st) chatId !! i
              = Some m →
            receiverId m = u → read m = true).
Proof.
  assert (∀ c i m,
            collection st c !! i = Some m →
            ∃ m', collection (markMessagesAsRead env chatId u st) c !! i
                    = Some m'
                  ∧ same_content m m'
                  ∧ (read m' = read m
                     ∨ (c = chatId ∧ receiverId m = u
                        ∧ read m = false ∧ read m' = true))) as Hkeep.
  { intros c i m Hm. rewrite markMessagesAsRead_unfold.
    destruct (queryOk env); [by apply marks_keep_content|].
    exists m. split_and!; [done|done|by left]. }
  split_and!.
  - apply chats_markMessagesAsRead.
  - intros c i. split.
    + intros Hnone. destruct (collection st c !! i) as [m|] eqn:E; [|done].
      destruct (Hkeep c i m E) as (m' & Hm' & _). congruence.
    + intros Hnone. rewrite markMessagesAsRead_unfold.
      destruct (queryOk env); [|done].
      destruct (Promise_all_marks env chatId
                  (filter (λ d, unreadMessage u d.2 = true)
                     (docs (collection st chatId))) st) as [_ ->].
      rewrite Hnone. by destruct (decide _).
  - exact Hkeep.
  - intros Hq Hok i m. rewrite markMessagesAsRead_unfold, Hq.
    set (snapshot := filter _ _).
    destruct (Promise_all_marks env chatId snapshot st) as [_ ->].
    destruct (decide _) as [[_ Hi]|Hi].
    + destruct (collection st chatId !! i); [|done]. by intros [= <-].
    + intros Hm Hu. destruct (read m) eqn:Hr; [done|exfalso].
      apply Hi. split; [done|]. unfold marked.
      apply list_elem_of_filter. split; [apply Hok|].
      apply list_elem_of_fmap. exists (i, m). split; [done|].
      apply list_elem_of_filter. split; [|by apply elem_of_docs].
      unfold unreadMessage. simpl.
      by rewrite !bool_decide_eq_true_2.
Qed.

(** X6. [markMessagesAsRead] never touches the ledger, creates or
    removes no message, and changes nothing of a message but [read],
    which it only sets, and only on messages of the chat addressed to the
    reader; when the store accepts every request, no message of the chat
    addressed to the reader is left unread.  The reader's counter stays
    as it was. *)
Theorem markMessagesAsRead_effect (env : ReadEnv) (chatId u : jsstring)
    (st : Firestore) :
  chats (markMessagesAsRead env chatId u st) = chats st
  ∧ (∀ c i, collection (markMessagesAsRead env chatId u st) c !! i = None
            ↔ collection st c !! i = None)
  ∧ (∀ c i m,
       collection st c !! i = Some m →
       ∃ m', collection (markMessagesAsRead env chatId u st) c !! i = Some m'
             ∧ same_content m m'
             ∧ (read m' = read m
                ∨ (c = chatId ∧ receiverId m = u
                   ∧ read m = false ∧ read m' = true)))
  ∧ (queryOk env = true → (∀ i, markOk env i = true) →
     ∀ i m, collection (markMessagesAsRead env chatId u st) chatId !! i
              = Some m →
            receiverId m = u → read m = true).
Proof. apply markMessagesAsRead_effect_aux. Qed.

(** X7. Whatever the store answers, [markChatAsRead] either changes
    nothing at all or leaves the reader's counter at 0.  It leaves the
    ledger entries of other chats, the counters of other users and the
    metadata of the last message as they were, and of the messages it
    changes nothing but [read], which it only sets, and only on messages
    of the chat addressed to the reader. *)
Theorem markChatAsRead_effect (env : ReadEnv) (chatId u : jsstring)
    (st : Firestore) :
  (markChatAsRead env chatId u st = st
   ∨ unreadCount (markChatAsRead env chatId u st) chatId u = 0%N)
  ∧ (∀ c, c ≠ chatId →
          chats (markChatAsRead env chatId u st) !! c = chats st !! c)
  ∧ (∀ v, v ≠ u →
          unreadCount (markChatAsRead env chatId u st) chatId v
          = unreadCount st chatId v)
  ∧ (participants
       (default emptyDoc (chats (markChatAsRead env chatId u st) !! chatId))
     = participants (default emptyDoc (chats st !! chatId))
     ∧ lastMessage
         (default emptyDoc (chats (markChatAsRead env chatId u st) !! chatId))
       = lastMessage (default emptyDoc (chats st !! chatId))
     ∧ lastMessageTimestamp
         (default emptyDoc (chats (markChatAsRead env chatId u st) !! chatId))
       = lastMessageTimestamp (default emptyDoc (chats st !! chatId))
     ∧ lastMessageSender
         (default emptyDoc (chats (markChatAsRead env chatId u st) !! chatId))
       = lastMessageSender (default emptyDoc (chats st !! chatId)))
  ∧ (∀ c i m,
       collection st c !! i = Some m →
       ∃ m', collection (markChatAsRead env chatId u st) c !! i = Some m'
             ∧ same_content m m'
             ∧ (read m' = read m
                ∨ (c = chatId ∧ receiverId m = u
                   ∧ read m = false ∧ read m' = true))).
Proof.
  rewrite markChatAsRead_compose. destruct (resetOk env).
  2: { split_and!; [by left|done..|].
       intros c i m Hm. exists m. split_and!; [done|done|by left]. }
  set (st1 := snd (setDoc true chatId (resetCount u) st)).
  destruct (markMessagesAsRead_effect_aux env chatId u st1)
    as (Hc & _ & Hkeep & _).
  assert (chats st1 !! chatId
          = Some (mergeDoc (resetCount u)
                    (default emptyDoc (chats st !! chatId)))) as Hd
    by apply lookup_insert_eq.
  split_and!.
  - right. unfold unreadCount. rewrite Hc, Hd, unreadOf_resetCount.
    by rewrite decide_True.
  - intros c Hne. rewrite Hc. unfold st1, setDoc. simpl.
    by rewrite lookup_insert_ne.
  - intros v Hv. unfold unreadCount. rewrite Hc, Hd, unreadOf_resetCount.
    rewrite decide_False by done. unfold unreadOf.
    by destruct (chats st !! chatId).
  - by rewrite Hc, Hd.
  - by rewrite Hc, Hd.
  - by rewrite Hc, Hd.
  - by rewrite Hc, Hd.
  - intros c i m Hm. apply Hkeep. unfold st1.
    by rewrite collection_setDoc.
Qed.

(** A reset that the store accepts while it refuses the writes of the
    messages: the counter is 0 and the three messages stay unread. *)
Example markChatAsRead_partial :
  unreadCount
    (markChatAsRead
       {| resetOk := true; queryOk := true; markOk := fun _ => false |}
       (lit "alice_bob") bob afterThreeSends) (lit "alice_bob") bob = 0%N
  ∧ map (λ d, read (snd d))
      (docs (collection
               (markChatAsRead
                  {| resetOk := true; queryOk := true;
                     markOk := fun _ => false |}
                  (lit "alice_bob") bob afterThreeSends)
               (lit "alice_bob")))
    = [false; false; false].
Proof. split; by vm_compute. Qed.

(** ** [trim] *)

Lemma trimStart_idemp s : trimStart (trimStart s) = trimStart s.
Proof.
  induction s as [|c s IH]; simpl; [done|].
  destruct (is_white c) eqn:E; [done|]. simpl. by rewrite E.
Qed.

Lemma trimStart_snoc l c :
  is_white c = false → trimStart (l ++ [c]) = trimStart l ++ [c].
Proof.
  intros Hc. induction l as [|a l IH]; simpl; [by rewrite Hc|].
  by destruct (is_white a).
Qed.

Lemma trimStart_head s :
  trimStart s = [] ∨ ∃ c t, trimStart s = c :: t ∧ is_white c = false.
Proof.
  induction s as [|c s IH]; simpl; [by left|].
  destruct (is_white c) eqn:E; [done|]. right. by exists c, s.
Qed.

Lemma trimStart_fixed c t :
  is_white c = false → trimStart (c :: t) = c :: t.
Proof. intros H. simpl. by rewrite H. Qed.

(** What [trim] returns has no white space at either end: trimming it
    again changes nothing. *)
Lemma trim_idemp s : trim (trim s) = trim s.
Proof.
  unfold trim, trimEnd.
  destruct (trimStart_head s) as [->|(c & t & -> & Hc)]; [done|].
  change (rev (c :: t)) with (rev t ++ [c]).
  rewrite (trimStart_snoc (rev t) c Hc), rev_app_distr.
  change (rev [c] ++ rev (trimStart (rev t)))
    with (c :: rev (trimStart (rev t))).
  rewrite (trimStart_fixed c _ Hc).
  change (rev (c :: rev (trimStart (rev t))))
    with (rev (rev (trimStart (rev t))) ++ [c]).
  rewrite rev_involutive, (trimStart_snoc _ c Hc), trimStart_idemp.
  by rewrite rev_app_distr.
Qed.

(** ** The send handler *)

(** X8. When the handler does send (there is text, a chat is selected,
    no send is in flight, a user is signed in), it ends with
    [sendingMessage] cleared and the store is the one [sendMessage]
    leaves for the trimmed text.  The input is emptied exactly when the
    store accepted all three requests; otherwise the trimmed text is put
    back, although the message itself is stored as soon as the first
    request was accepted. *)
Theorem handleSendMessage_outcome (env : SendEnv) (s : Messages.State)
    (st : Firestore) (uid chat : jsstring) :
  trim (Messages.newMessage s) ≠ [] →
  Messages.selectedChat s = Some chat → chat ≠ [] →
  Messages.sendingMessage s = false →
  Messages.currentUser s = Some uid →
  snd (Messages.handleSendMessage env s st)
    = snd (sendMessage env uid chat (trim (Messages.newMessage s)) st)
  ∧ Messages.sendingMessage (fst (Messages.handleSendMessage env s st))
    = false
  ∧ Messages.newMessage (fst (Messages.handleSendMessage env s st))
    = (if addOk env && getOk env && setOk env then []
       else trim (Messages.newMessage s))
  ∧ (addOk env = true →
     body <$> collection (snd (Messages.handleSendMessage env s st))
                (createChatId uid chat) !! newId env
     = Some (Text (trim (Messages.newMessage s)))).
Proof.
  intros Htext Hsel Hchat Hsending Huser.
  unfold Messages.handleSendMessage.
  rewrite Hsel, Hsending, Huser.
  destruct (trim (Messages.newMessage s)) as [|c t] eqn:Et; [done|].
  destruct chat as [|c' chat]; [done|]. simpl orb. cbn match.
  change (Messages.or_empty (Some (c' :: chat))) with (c' :: chat).
  rewrite <- Et.
  change (sendMessage env uid (c' :: chat) (trim (Messages.newMessage s)) st)
    with (append uid (c' :: chat)
            (env, SendText (trim (Messages.newMessage s))) st).
  destruct (append_outcome_aux uid (c' :: chat)
              (env, SendText (trim (Messages.newMessage s))) st)
    as (Hall & _ & _ & Hm & _).
  rewrite append_eq_send, send_cases in *. simpl fst in *.
  destruct (addOk env), (getOk env), (setOk env); simpl in *;
    (split_and!; [done|done|done|]);
    try done; intros _; rewrite Hm by done;
    unfold messageOf; simpl; by rewrite trim_idemp.
Qed.

Lemma handleSendMessage_outcome_witness :
  snd (Messages.handleSendMessage (okEnv (lit "m1") 1) typingHi emptyStore)
    = snd (sendMessage (okEnv (lit "m1") 1) alice bob
             (trim (Messages.newMessage typingHi)) emptyStore)
  ∧ Messages.sendingMessage
      (fst (Messages.handleSendMessage (okEnv (lit "m1") 1) typingHi
              emptyStore)) = false
  ∧ Messages.newMessage
      (fst (Messages.handleSendMessage (okEnv (lit "m1") 1) typingHi
              emptyStore))
    = (if addOk (okEnv (lit "m1") 1) && getOk (okEnv (lit "m1") 1)
          && setOk (okEnv (lit "m1") 1)
       then [] else trim (Messages.newMessage typingHi))
  ∧ (addOk (okEnv (lit "m1") 1) = true →
     body <$> collection
                (snd (Messages.handleSendMessage (okEnv (lit "m1") 1)
                        typingHi emptyStore))
                (createChatId alice bob) !! newId (okEnv (lit "m1") 1)
     = Some (Text (trim (Messages.newMessage typingHi)))).
Proof.
  apply (handleSendMessage_outcome (okEnv (lit "m1") 1) typingHi emptyStore
           alice bob); by vm_compute.
Defined.

(** ** From the ledger to the badge of a conversation *)

Lemma createChatId_comm a b : createChatId a b = createChatId b a.
Proof.
  rewrite !createChatId_unfold, (str_compare_antisym a b).
  destruct (str_compare a b) eqn:E; simpl; try done.
  by rewrite (str_compare_eq _ _ E).
Qed.

Lemma elem_of_userChats userId st c :
  c ∈ getUserChatsWithCounts userId st ↔
  ∃ d, chats st !! Chat.id c = Some d
       ∧ userId ∈ default [] (participants d)
       ∧ c = chatRow userId (Chat.id c, d).
Proof.
  unfold getUserChatsWithCounts. rewrite elem_of_sort, list_elem_of_fmap.
  split.
  - intros (d & -> & Hd). apply list_elem_of_filter in Hd as [Hp Hd].
    apply elem_of_docs in Hd. exists d.2. simpl. split_and!; [done| |done].
    unfold array_contains in Hp. by apply bool_decide_eq_true in Hp.
  - intros (d & Hd & Hp & Hc). exists (Chat.id c, d). split; [done|].
    apply list_elem_of_filter. split; [|by apply elem_of_docs].
    unfold array_contains. by apply bool_decide_eq_true.
Qed.

Lemma NoDup_userChats userId st :
  NoDup (map Chat.id (getUserChatsWithCounts userId st)).
Proof.
  unfold getUserChatsWithCounts. rewrite sort_perm.
  rewrite <- list_fmap_compose.
  eapply sublist_NoDup;
    [|apply fmap_sublist, (sublist_filter _ (docs (chats st)))].
  unfold docs. rewrite sort_perm. apply NoDup_fst_map_to_list.
Qed.

Lemma chatCountMap_foldl uid rows :
  Component.chatCountMap uid rows = foldl (addChat uid) ∅ rows.
Proof. reflexivity. Qed.

Lemma foldl_addChat_other uid k rows : ∀ m0,
  (∀ r o, r ∈ rows → Component.otherUserId uid r = Some o →
          createChatId uid o ≠ k) →
  foldl (addChat uid) m0 rows !! k = m0 !! k.
Proof.
  induction rows as [|x xs IH]; intros m0 Hk; [done|].
  cbn [foldl]. rewrite IH.
  - unfold addChat.
    destruct (Component.otherUserId uid x) as [o|] eqn:Eo; [|done].
    destruct (truthy_str o); [|done].
    rewrite lookup_insert_ne; [done|]. eapply Hk; [left|done].
  - intros r o Hr. apply Hk. by right.
Qed.

Lemma foldl_addChat_found uid k r o rows : ∀ m0,
  (∀ r' o', r' ∈ rows → Component.otherUserId uid r' = Some o' →
            createChatId uid o' = Chat.id r') →
  NoDup (map Chat.id rows) →
  r ∈ rows → Chat.id r = k →
  Component.otherUserId uid r = Some o → truthy_str o = true →
  foldl (addChat uid) m0 rows !! k = Some r.
Proof.
  induction rows as [|x xs IH]; intros m0 Hkey Hnd Hr Hid Ho Ht.
  - by apply elem_of_nil in Hr.
  - cbn [foldl]. simpl in Hnd. apply NoDup_cons in Hnd as [Hx Hnd].
    apply elem_of_cons in Hr as [->|Hr].
    + rewrite foldl_addChat_other.
      * unfold addChat. rewrite Ho, Ht.
        rewrite (Hkey x o) by (done || left). rewrite Hid.
        apply lookup_insert_eq.
      * intros r' o' Hr' Ho' Heq. apply Hx.
        apply list_elem_of_fmap. exists r'. split; [|done].
        rewrite <- (Hkey r' o') by (done || by right). congruence.
    + apply IH; try done. intros r' o' Hr'. apply Hkey. by right.
Qed.

(** In a reachable store, the key under which a chat of [uid] enters
    [chatCountMap] is the id of the chat. *)
Lemma chatCountMap_key st uid r o :
  ledger_ok st →
  r ∈ getUserChatsWithCounts uid st →
  Component.otherUserId uid r = Some o →
  createChatId uid o = Chat.id r.
Proof.
  intros Hst Hr Ho. apply elem_of_userChats in Hr as (d & Hd & Hp & Hc).
  pose proof (Hst _ _ Hd) as Hok. unfold ledger_entry_ok in Hok.
  unfold Component.otherUserId in Ho. rewrite Hc in Ho. simpl in Ho.
  destruct (lastMessageSender d) as [s|].
  - destruct Hok as (_ & r0 & Hps & Hk & _). rewrite Hps in Ho, Hp.
    simpl in Ho, Hp. rewrite Hk.
    destruct (decide (s = uid)) as [->|Hs].
    + rewrite bool_decide_eq_true_2 in Ho by done. simpl in Ho.
      destruct (bool_decide (r0 = uid)); simpl in Ho; by simplify_eq.
    + rewrite bool_decide_eq_false_2 in Ho by done. simpl in Ho.
      simplify_eq.
      apply elem_of_cons in Hp as [?|Hp]; [done|].
      apply list_elem_of_singleton in Hp as <-. apply createChatId_comm.
  - destruct Hok as (Hps & _). rewrite Hps in Hp. simpl in Hp.
    by apply elem_of_nil in Hp.
Qed.

(** X9. The unread badge of a conversation is the counter of the
    ledger: in a reachable store, once the listener of [u] has delivered
    the chats, the row of another user [v] carries the unread count and
    the time of the last message that the ledger entry of the chat of
    [u] and [v] holds for [u].  The entry filed under their chat id is
    taken to be theirs: if it names participants, these include [u] and
    [v]. *)
Theorem unread_badge_is_ledger_counter (st : Firestore) (u : jsstring)
    (v : User.t) (presence : gmap jsstring bool) :
  reachable st →
  u ≠ User.id v → User.id v ≠ [] →
  (∀ d ps, chats st !! createChatId u (User.id v) = Some d →
           participants d = Some ps → u ∈ ps ∧ User.id v ∈ ps) →
  OtherUser.unreadCount
    (Messages.annotate (Some u) presence
       (Component.chatCountMap u (getUserChatsWithCounts u st)) v)
    = unreadCount st (createChatId u (User.id v)) u
  ∧ OtherUser.lastMessageTime
      (Messages.annotate (Some u) presence
         (Component.chatCountMap u (getUserChatsWithCounts u st)) v)
    = chats st !! createChatId u (User.id v) ≫= lastMessageTimestamp.
Proof.
  intros Hreach Huv Hv Hpair.
  pose proof (reachable_ledger_ok_aux st Hreach) as Hst.
  unfold Messages.annotate. simpl.
  set (k := createChatId u (User.id v)) in *.
  set (rows := getUserChatsWithCounts u st).
  assert (∀ r o, r ∈ rows → Component.otherUserId u r = Some o →
                 createChatId u o = Chat.id r) as Hkey
    by (intros r o; by apply chatCountMap_key).
  rewrite chatCountMap_foldl.
  destruct (chats st !! k) as [d|] eqn:Ed.
  - pose proof (Hst _ _ Ed) as Hok. unfold ledger_entry_ok in Hok.
    unfold unreadCount. rewrite Ed.
    destruct (lastMessageSender d) as [s|] eqn:Es.
    + destruct Hok as (_ & r0 & Hps & Hk & _).
      destruct (Hpair d _ eq_refl Hps) as [Hu Hvin].
      assert (chatRow u (k, d) ∈ rows) as Hrow.
      { apply elem_of_userChats. exists d. simpl. split_and!; try done.
        by rewrite Hps. }
      assert (Component.otherUserId u (chatRow u (k, d)) = Some (User.id v))
        as Ho.
      { unfold Component.otherUserId. simpl. rewrite Hps. simpl.
        apply elem_of_cons in Hu as [<-|Hu].
        - rewrite bool_decide_eq_true_2 by done. simpl.
          apply elem_of_cons in Hvin as [?|Hvin]; [done|].
          apply list_elem_of_singleton in Hvin as <-.
          by rewrite bool_decide_eq_false_2.
        - apply list_elem_of_singleton in Hu as <-.
          apply elem_of_cons in Hvin as [<-|Hvin].
          + by rewrite bool_decide_eq_false_2.
          + by apply list_elem_of_singleton in Hvin. }
      rewrite (foldl_addChat_found u k (chatRow u (k, d)) (User.id v));
        try done.
      * apply NoDup_userChats.
      * by destruct (User.id v).
    + destruct Hok as (Hps & _ & Hts & Hz).
      rewrite foldl_addChat_other.
      * rewrite lookup_empty. simpl. by rewrite Hz, Hts.
      * intros r o Hr Ho Heq. rewrite (Hkey r o Hr Ho) in Heq.
        apply elem_of_userChats in Hr as (d' & Hd' & Hp & _).
        rewrite Heq, Ed in Hd'. injection Hd' as <-.
        rewrite Hps in Hp. by apply elem_of_nil in Hp.
  - unfold unreadCount. rewrite Ed. rewrite foldl_addChat_other.
    + by rewrite lookup_empty.
    + intros r o Hr Ho Heq. rewrite (Hkey r o Hr Ho) in Heq.
      apply elem_of_userChats in Hr as (d' & Hd' & _).
      rewrite Heq, Ed in Hd'. done.
Qed.

Lemma unread_badge_is_ledger_counter_witness :
  OtherUser.unreadCount
    (Messages.annotate (Some bob) ∅
       (Component.chatCountMap bob
          (getUserChatsWithCounts bob afterThreeSends))
       (sampleUser alice 10))
    = unreadCount afterThreeSends
        (createChatId bob (User.id (sampleUser alice 10))) bob
  ∧ OtherUser.lastMessageTime
      (Messages.annotate (Some bob) ∅
         (Component.chatCountMap bob
            (getUserChatsWithCounts bob afterThreeSends))
         (sampleUser alice 10))
    = chats afterThreeSends
        !! createChatId bob (User.id (sampleUser alice 10))
        ≫= lastMessageTimestamp.
Proof.
  apply (unread_badge_is_ledger_counter afterThreeSends bob
           (sampleUser alice 10) ∅).
  - apply reachable_appends, reach_empty.
  - by vm_compute.
  - by vm_compute.
  - intros d ps Hd Hps. vm_compute in Hd. injection Hd as <-.
    vm_compute in Hps. injection Hps as <-.
    split; [by right; left|by left].
Defined.

(** After three sends of [alice], [bob] sees the badge 3 on her row. *)
Example badge_after_three_sends :
  OtherUser.unreadCount
    (Messages.annotate (Some bob) ∅
       (Component.chatCountMap bob
          (getUserChatsWithCounts bob afterThreeSends))
       (sampleUser alice 10)) = 3%N.
Proof. by vm_compute. Qed.

(** ** The total of the unread counts *)

Lemma foldl_add_sumN {A} (f : A → N) l : ∀ a,
  foldl (λ total x, (total + f x)%N) a l = (a + sumN (map f l))%N.
Proof.
  induction l as [|x l IH]; intros a; simpl; [lia|].
  rewrite IH. unfold sumN. simpl. lia.
Qed.

Lemma sumN_perm l1 l2 : l1 ≡ₚ l2 → sumN l1 = sumN l2.
Proof.
  induction 1 as [|x l1 l2 _ IH|x y l|l1 l2 l3 _ IH1 _ IH2]; unfold sumN in *;
    simpl; lia.
Qed.

(** X10. The total on the header badge is the sum of the unread counts
    of all the other users, each taken from the chat counts; the
    selected chat, the actively-chatting flag and the order of the list
    have no part in it. *)
Theorem totalUnreadCount_is_sum (s : Messages.State) :
  Component.totalUnreadCount s =
    sumN
      (map
         (λ user,
            OtherUser.unreadCount
              (Messages.annotate (Messages.currentUser s)
                 (Messages.userPresence s) (Messages.chatCounts s) user))
         (filter
            (λ user, Messages.isOther (Messages.currentUser s) user = true)
            (Messages.users s))).
Proof.
  unfold Component.totalUnreadCount. rewrite foldl_add_sumN, N.add_0_l.
  rewrite <- (map_map
                (Messages.annotate (Messages.currentUser s)
                   (Messages.userPresence s) (Messages.chatCounts s))
                OtherUser.unreadCount).
  apply sumN_perm, fmap_Permutation, sort_perm.
Qed.

(** ** Selecting a conversation *)

(** X11. When [R] selects the conversation with [S] and the store
    accepts the requests, the chat becomes the selected one, the ledger
    entry under the chat id that the sends of [S] to [R] use counts no
    unread message for [R], and every message of that chat addressed to
    [R] is read. *)
Theorem handleChatSelect_reads_the_senders_chat (env : ReadEnv)
    (S R : jsstring) (s : Messages.State) (st : Firestore) :
  Messages.currentUser s = Some R →
  resetOk env = true → queryOk env = true → (∀ i, markOk env i = true) →
  Messages.selectedChat (fst (Component.handleChatSelect env S s st))
    = Some S
  ∧ unreadCount (snd (Component.handleChatSelect env S s st))
      (createChatId S R) R = 0%N
  ∧ ∀ i m,
      collection (snd (Component.handleChatSelect env S s st))
        (createChatId S R) !! i = Some m →
      receiverId m = R → read m = true.
Proof.
  intros Hu Hreset Hquery Hmark. unfold Component.handleChatSelect.
  rewrite Hu. simpl. rewrite (createChatId_comm R S).
  rewrite markChatAsRead_compose, Hreset.
  set (st1 := snd (setDoc true (createChatId S R) (resetCount R) st)).
  destruct (markMessagesAsRead_effect_aux env (createChatId S R) R st1)
    as (Hc & _ & _ & Hread).
  split_and!; [done| |by apply Hread].
  unfold unreadCount. rewrite Hc. unfold st1, setDoc. simpl.
  rewrite lookup_insert_eq, unreadOf_resetCount. by rewrite decide_True.
Qed.

Lemma handleChatSelect_reads_the_senders_chat_witness :
  Messages.selectedChat
    (fst (Component.handleChatSelect okRead alice
            (typing bob None []) afterThreeSends)) = Some alice
  ∧ unreadCount
      (snd (Component.handleChatSelect okRead alice (typing bob None [])
              afterThreeSends)) (createChatId alice bob) bob = 0%N
  ∧ ∀ i m,
      collection
        (snd (Component.handleChatSelect okRead alice (typing bob None [])
                afterThreeSends)) (createChatId alice bob) !! i = Some m →
      receiverId m = bob → read m = true.
Proof.
  apply (handleChatSelect_reads_the_senders_chat okRead alice bob
           (typing bob None []) afterThreeSends); reflexivity.
Defined.

(** ** Pages that fit together *)

Lemma filter_all {A} (P : A → Prop) `{!∀ x, Decision (P x)} (l : list A) :
  (∀ x, x ∈ l → P x) → filter P l = l.
Proof.
  induction l as [|x l IH]; intros Hall; [done|].
  rewrite filter_cons, decide_True by (apply Hall; left).
  f_equal. apply IH. intros y Hy. apply Hall. by right.
Qed.

Lemma StronglySorted_filter {A} (R : A → A → Prop) (P : A → Prop)
    `{!∀ x, Decision (P x)} (l : list A) :
  StronglySorted R l → StronglySorted R (filter P l).
Proof.
  induction 1 as [|x l Hl IH Hx]; [constructor|].
  rewrite filter_cons. destruct (decide (P x)); [|done].
  constructor; [done|].
  apply List.Forall_forall. intros y Hy%list_elem_of_In.
  apply list_elem_of_filter in Hy as [_ Hy].
  rewrite List.Forall_forall in Hx. by apply Hx, list_elem_of_In.
Qed.

Lemma latestFirst_sorted (c : gmap jsstring Message) : StronglySorted desc_le (latestFirst c).
Proof.
  eapply StronglySorted_weaken; [apply timestamp_desc_le|].
  apply sort_sorted.
  - intros x y. rewrite !timestamp_desc_le. apply desc_le_total.
  - intros x y z. rewrite !timestamp_desc_le. apply desc_le_trans.
Qed.

Lemma elem_of_latestFirst (c : gmap jsstring Message) d : d ∈ latestFirst c ↔ c !! d.1 = Some d.2.
Proof. unfold latestFirst. rewrite elem_of_sort. apply elem_of_docs. Qed.

(** Two documents of a collection that each come no later than the
    other are the same document. *)
Lemma desc_le_antisym (c : gmap jsstring Message) x y :
  c !! x.1 = Some x.2 → c !! y.1 = Some y.2 →
  desc_le x y → desc_le y x → x = y.
Proof.
  intros Hx Hy [H1|[H1 S1]] [H2|[H2 S2]].
  - rewrite ts_compare_Lt in H1, H2. lia.
  - rewrite ts_compare_Lt in H1. rewrite ts_compare_Eq in H2. lia.
  - rewrite ts_compare_Lt in H2. rewrite ts_compare_Eq in H1. lia.
  - assert (x.1 = y.1) as Hid.
    { rewrite (str_compare_antisym x.1 y.1) in S1.
      destruct (str_compare x.1 y.1) eqn:E; try done.
      by apply str_compare_eq. }
    destruct x as [i m], y as [j m']. simpl in *. subst j.
    rewrite Hx in Hy. by injection Hy as ->.
Qed.

(** A query with a [where] lists what the query without lists, less the
    documents that fail the filter. *)
Lemma sort_filter_docs bound c :
  sort timestamp_desc (filter (λ d, before bound d = true) (docs c))
  = filter (λ d, before bound d = true) (latestFirst c).
Proof.
  apply (StronglySorted_unique_strong desc_le).
  - intros x y Hx Hy. apply elem_of_sort in Hx.
    apply list_elem_of_filter in Hx as [_ Hx%elem_of_docs].
    apply list_elem_of_filter in Hy as [_ Hy%elem_of_latestFirst].
    by apply (desc_le_antisym c).
  - eapply StronglySorted_weaken; [apply timestamp_desc_le|].
    apply sort_sorted.
    + intros x y. rewrite !timestamp_desc_le. apply desc_le_total.
    + intros x y z. rewrite !timestamp_desc_le. apply desc_le_trans.
  - apply StronglySorted_filter, latestFirst_sorted.
  - rewrite sort_perm. unfold latestFirst. by rewrite sort_perm.
Qed.

Lemma page_latestFirst bound n c :
  page bound n c
  = take n (filter (λ d, before bound d = true) (latestFirst c)).
Proof. unfold page. by rewrite sort_filter_docs. Qed.

Lemma getChatMessages_latestFirst userId1 userId2 n st :
  getChatMessages userId1 userId2 n st
  = reverse
      (take n (latestFirst (collection st (createChatId userId1 userId2)))).
Proof.
  unfold getChatMessages. rewrite page_latestFirst.
  by rewrite filter_all by done.
Qed.

(** With distinct timestamps, what follows a document in the list is
    strictly older and what precedes it is not. *)
Lemma older_is_the_rest c l1 lm l2 :
  distinct_timestamps c →
  latestFirst c = l1 ++ lm :: l2 →
  filter (λ d, before (Some (timestamp lm.2)) d = true) (latestFirst c) = l2.
Proof.
  intros Hdist HL. pose proof (latestFirst_sorted c) as Hs.
  assert (NoDup (map fst (latestFirst c))) as Hnd.
  { unfold latestFirst, docs. rewrite !sort_perm.
    apply NoDup_fst_map_to_list. }
  assert (∀ d, d ∈ latestFirst c → c !! d.1 = Some d.2) as Hin
    by (intros d; apply elem_of_latestFirst).
  rewrite HL in Hs, Hnd, Hin |- *.
  apply StronglySorted_app in Hs as (H12 & _ & Hs2).
  apply StronglySorted_inv in Hs2 as [_ Hlm].
  assert (∀ a b, ts_ltb a b = true ↔ ts_compare a b = Lt) as Hlt.
  { intros a b. unfold ts_ltb. destruct (ts_compare a b); split; congruence. }
  assert (∀ a b, ts_ltb a b = false ↔ ts_compare a b ≠ Lt) as Hnlt.
  { intros a b. unfold ts_ltb. destruct (ts_compare a b); split; congruence. }
  rewrite filter_app, filter_cons.
  rewrite (filter_none (before (Some (timestamp lm.2))) l1).
  2: { intros x Hx. simpl. apply Hnlt.
       assert (desc_le x lm) as Hle by (apply H12; [done|left]).
       unfold desc_le in Hle.
       rewrite ts_compare_Lt, ts_compare_Eq in Hle. rewrite ts_compare_Lt.
       lia. }
  rewrite decide_False.
  2: { simpl. rewrite Hlt, ts_compare_Lt. lia. }
  simpl. apply filter_all. intros x Hx. simpl. apply Hlt.
  rewrite List.Forall_forall in Hlm.
  destruct (Hlm x (proj1 (list_elem_of_In _ _) Hx)) as [H|[H _]]; [done|].
  exfalso. rewrite ts_compare_Eq in H.
  assert (timestamp x.2 = timestamp lm.2) as Ht.
  { destruct (timestamp x.2), (timestamp lm.2). simpl in H.
    destruct H as [-> ->]. done. }
  assert (x.1 = lm.1) as Hid.
  { eapply (Hdist x.1 lm.1 x.2 lm.2); [| |done].
    - apply Hin. apply elem_of_app. right. by right.
    - apply Hin. apply elem_of_app. right. left. }
  rewrite fmap_app in Hnd. simpl in Hnd.
  apply NoDup_app in Hnd as (_ & _ & Hnd).
  apply NoDup_cons in Hnd as [Hnd _]. apply Hnd. rewrite <- Hid.
  apply list_elem_of_fmap. by exists x.
Qed.

(** X12. Pages fit together when no two messages of the conversation
    carry the same timestamp: the page of [k] messages loaded before the
    oldest message of a live page of [n], put in front of that live
    page, is the live page of [n + k]; no message is left out and none
    comes twice. *)
Theorem pages_fit_together (userId1 userId2 : jsstring) (n k : nat)
    (lastMessage : jsstring * Message) (st : Firestore) :
  distinct_timestamps (collection st (createChatId userId1 userId2)) →
  (0 < k)%nat →
  head (getChatMessages userId1 userId2 n st) = Some lastMessage →
  ∃ older,
    loadOlderMessages true userId1 userId2 lastMessage k st
      = (Some older, st)
    ∧ older ++ getChatMessages userId1 userId2 n st
      = getChatMessages userId1 userId2 (n + k) st.
Proof.
  intros Hdist _ Hhead. eexists. split; [reflexivity|].
  rewrite !getChatMessages_latestFirst in *. rewrite page_latestFirst.
  set (L := latestFirst (collection st (createChatId userId1 userId2))) in *.
  rewrite head_reverse in Hhead.
  apply last_Some in Hhead as [l1 Hl1].
  assert (L = l1 ++ lastMessage :: drop n L) as HL.
  { rewrite <- (take_drop n L) at 1. rewrite Hl1, <- app_assoc. done. }
  pose proof (older_is_the_rest _ l1 lastMessage (drop n L) Hdist HL) as Hold.
  fold L in Hold. rewrite Hold.
  rewrite <- reverse_app. by rewrite take_take_drop.
Qed.

Lemma pages_fit_together_witness :
  ∃ older,
    loadOlderMessages true alice bob fourth 2 afterSixSends
      = (Some older, afterSixSends)
    ∧ older ++ getChatMessages alice bob 3 afterSixSends
      = getChatMessages alice bob (3 + 2) afterSixSends.
Proof.
  apply (pages_fit_together alice bob 3 2 fourth afterSixSends).
  - intros i j m m' Hi Hj Ht.
    apply elem_of_map_to_list in Hi, Hj.
    vm_compute in Hi, Hj.
    repeat (apply elem_of_cons in Hi as [Hi|Hi]; [injection Hi as -> ->|]);
      [..|by apply elem_of_nil in Hi];
      repeat (apply elem_of_cons in Hj as [Hj|Hj]; [injection Hj as -> ->|]);
      try (by apply elem_of_nil in Hj); try done; by vm_compute in Ht.
  - lia.
  - by vm_compute.
Defined.

(** Two messages with the same timestamp: loading before the one on the
    live page never brings the other. *)
Example tied_timestamps_skip :
  map fst (getChatMessages alice bob 1 afterTiedSends) = [lit "m3"]
  ∧ (map fst <$> fst (loadOlderMessages true alice bob third 5 afterTiedSends))
    = Some [lit "m1"]
  ∧ map fst (getChatMessages alice bob 6 afterTiedSends)
    = [lit "m1"; lit "m2"; lit "m3"].
Proof. repeat split; by vm_compute. Qed.

(** ** The counter and the unread messages *)

Lemma unreadMessages_alt st chatId u :
  unreadMessages st chatId u =
    length (filter (λ d, unreadMessage u (snd d) = true)
              (map_to_list (collection st chatId))).
Proof. unfold unreadMessages, docs. by rewrite sort_perm. Qed.

Lemma unreadOf_metadata_other S R preview now k old v :
  v ≠ S → v ≠ R →
  unreadOf (Some (mergeDoc (metadata S R preview now k) old)) v
  = unreadOf (Some old) v.
Proof.
  intros HS HR. unfold unreadOf, mergeDoc, metadata. simpl.
  rewrite lookup_union_r; [done|].
  by rewrite !lookup_insert_ne, lookup_empty by done.
Qed.

Lemma unreadOf_default x v : unreadOf (Some (default emptyDoc x)) v = unreadOf x v.
Proof. by destruct x. Qed.

Lemma chats_setDoc chatId data st :
  chats (snd (setDoc true chatId data st)) =
    <[chatId := mergeDoc data (default emptyDoc (chats st !! chatId))]>
      (chats st).
Proof. reflexivity. Qed.

Lemma chats_addDoc ok chatId docId m st :
  chats (snd (addDoc ok chatId docId m st)) = chats st.
Proof. by destruct ok. Qed.

(** A new message under a fresh id adds one to the unread messages of
    its receiver and nothing to those of anybody else. *)
Lemma unreadMessages_addDoc chatId docId m st c v :
  collection st chatId !! docId = None →
  unreadMessages (snd (addDoc true chatId docId m st)) c v =
    if decide (c = chatId ∧ unreadMessage v m = true)
    then S (unreadMessages st c v) else unreadMessages st c v.
Proof.
  intros Hfresh. rewrite !unreadMessages_alt, collection_addDoc.
  destruct (decide (c = chatId)) as [->|Hc].
  2: { rewrite decide_False; [done|]. by intros [? _]. }
  rewrite map_to_list_insert by done. rewrite filter_cons. simpl.
  destruct (decide (unreadMessage v m = true)) as [Hm|Hm].
  - by rewrite decide_True.
  - rewrite decide_False; [done|]. by intros [_ ?].
Qed.

(** Setting [read] on a message takes nothing from the unread messages
    of anybody but its receiver. *)
Lemma unreadMessages_setRead ok chatId j u st c v :
  (∀ m, collection st chatId !! j = Some m → receiverId m = u) →
  c ≠ chatId ∨ v ≠ u →
  unreadMessages (snd (setRead ok chatId j st)) c v = unreadMessages st c v.
Proof.
  intros Hj Hcv. destruct ok; [|done].
  rewrite !unreadMessages_alt. unfold setRead, collection. simpl.
  destruct (decide (c = chatId)) as [->|Hc].
  2: { by rewrite lookup_alter_ne. }
  destruct Hcv as [?|Hv]; [done|].
  rewrite lookup_alter_eq. unfold collection in Hj.
  destruct (messages st !! chatId) as [col|]; simpl in *; [|done].
  destruct (col !! j) as [m|] eqn:Em.
  2: { by rewrite alter_id' by (by rewrite Em). }
  assert (alter readTrue j col = <[j := readTrue m]> (delete j col)) as ->.
  { apply map_eq. intros i. destruct (decide (j = i)) as [->|Hi].
    - rewrite lookup_alter_eq, lookup_insert_eq, Em. done.
    - rewrite lookup_alter_ne, lookup_insert_ne, lookup_delete_ne by done.
      done. }
  rewrite map_to_list_insert by apply lookup_delete_eq.
  rewrite <- (map_to_list_delete col j m Em).
  rewrite !filter_cons. simpl.
  assert (unreadMessage v m = false) as Hm.
  { unfold unreadMessage. rewrite (Hj m eq_refl).
    by rewrite bool_decide_eq_false_2. }
  assert (unreadMessage v (readTrue m) = false) as Hm'.
  { unfold unreadMessage. simpl. rewrite (Hj m eq_refl).
    by rewrite bool_decide_eq_false_2. }
  by rewrite Hm, Hm'.
Qed.

Lemma unreadMessages_marks env chatId u snapshot : ∀ st c v,
  (∀ d m, d ∈ snapshot → collection st chatId !! d.1 = Some m →
          receiverId m = u) →
  c ≠ chatId ∨ v ≠ u →
  unreadMessages
    (snd (Promise_all (updatePromises env chatId snapshot) st)) c v
  = unreadMessages st c v.
Proof.
  induction snapshot as [|d ds IH]; intros st c v Hrec Hcv; [done|].
  change (updatePromises env chatId (d :: ds))
    with (setRead (markOk env d.1) chatId d.1
            :: updatePromises env chatId ds).
  rewrite Promise_all_cons_state, IH; [|..|done].
  - apply (unreadMessages_setRead _ _ _ u); [|done].
    intros m. apply Hrec. left.
  - intros d' m Hd'. rewrite collection_setRead_any.
    destruct (decide _) as [_|_].
    + destruct (collection st chatId !! d'.1) as [m0|] eqn:E; [|done].
      simpl. intros [= <-]. simpl. apply (Hrec d' m0); [by right|done].
    + apply Hrec. by right.
Qed.

Lemma unreadMessages_markMessagesAsRead env chatId u st c v :
  c ≠ chatId ∨ v ≠ u →
  unreadMessages (markMessagesAsRead env chatId u st) c v
  = unreadMessages st c v.
Proof.
  intros Hcv. rewrite markMessagesAsRead_unfold.
  destruct (queryOk env); [|done].
  apply (unreadMessages_marks _ _ u); [|done].
  intros d m Hd Hm. apply list_elem_of_filter in Hd as [Hd Hin].
  apply elem_of_docs in Hin. rewrite Hin in Hm. injection Hm as <-.
  unfold unreadMessage in Hd. apply andb_prop in Hd as [Hd _].
  by apply bool_decide_eq_true in Hd.
Qed.

(** X13. When the calls run one after the other, the counter of a user
    in a ledger entry never exceeds the number of unread messages of the
    chat addressed to that user, whatever requests the store refuses. *)
Theorem counter_at_most_unread_messages (st : Firestore)
    (chatId u : jsstring) :
  sequential st →
  (unreadCount st chatId u ≤ N.of_nat (unreadMessages st chatId u))%N.
Proof.
  intros Hseq. revert chatId u.
  induction Hseq as [|S R a st _ IH Hfresh|env chatId0 u0 st _ IH];
    intros chatId u.
  - unfold unreadCount, emptyStore. simpl. rewrite lookup_empty.
    unfold unreadOf. simpl. rewrite lookup_empty. simpl. lia.
  - rewrite append_eq_send, send_cases.
    destruct (addOk (fst a)); [|apply IH].
    set (m := messageOf S R a) in *.
    assert (∀ c v,
      (unreadMessages st c v
       ≤ unreadMessages
           (snd (addDoc true (createChatId S R) (newId (fst a)) m st)) c v)
      %nat) as Hmono.
    { intros c v. rewrite unreadMessages_addDoc by done.
      destruct (decide _); lia. }
    destruct (getOk (fst a) && setOk (fst a)); cbn [snd].
    2: { specialize (IH chatId u). specialize (Hmono chatId u).
         unfold unreadCount in *. rewrite chats_addDoc. lia. }
    unfold unreadMessages at 1. rewrite collection_setDoc.
    fold (unreadMessages
            (snd (addDoc true (createChatId S R) (newId (fst a)) m st))
            chatId u).
    unfold unreadCount. rewrite chats_setDoc, !chats_addDoc.
    destruct (decide (chatId = createChatId S R)) as [->|Hc].
    2: { rewrite lookup_insert_ne by done.
         specialize (IH chatId u). specialize (Hmono chatId u).
         unfold unreadCount in IH. lia. }
    rewrite lookup_insert_eq.
    destruct (decide (u = S)) as [->|HS].
    { rewrite unreadOf_metadata_sender. lia. }
    destruct (decide (u = R)) as [->|HR].
    + rewrite unreadOf_metadata_receiver by done.
      rewrite unreadMessages_addDoc by done.
      rewrite decide_True.
      2: { split; [done|]. unfold unreadMessage, m, messageOf. simpl.
           by rewrite !bool_decide_eq_true_2. }
      specialize (IH (createChatId S R) R). unfold unreadCount in IH. lia.
    + rewrite unreadOf_metadata_other, unreadOf_default by done.
      specialize (IH (createChatId S R) u).
      specialize (Hmono (createChatId S R) u).
      unfold unreadCount in IH. lia.
  - rewrite markChatAsRead_compose. destruct (resetOk env); [|apply IH].
    unfold unreadCount. rewrite chats_markMessagesAsRead.
    destruct (decide (chatId = chatId0 ∧ u = u0)) as [[-> ->]|Hne].
    { rewrite chats_setDoc, lookup_insert_eq, unreadOf_resetCount.
      rewrite decide_True by done. lia. }
    rewrite unreadMessages_markMessagesAsRead.
    2: { destruct (decide (chatId = chatId0)) as [->|?]; [|by left].
         right. intros ->. by apply Hne. }
    unfold unreadMessages at 1. rewrite collection_setDoc.
    fold (unreadMessages st chatId u).
    specialize (IH chatId u). unfold unreadCount in IH.
    rewrite chats_setDoc.
    destruct (decide (chatId = chatId0)) as [->|Hc].
    + rewrite lookup_insert_eq, unreadOf_resetCount.
      rewrite decide_False by (intros ->; by apply Hne).
      by rewrite unreadOf_default.
    + by rewrite lookup_insert_ne.
Qed.

Lemma counter_at_most_unread_messages_witness :
  (unreadCount answered (createChatId alice bob) alice
   ≤ N.of_nat (unreadMessages answered (createChatId alice bob) alice))%N.
Proof.
  apply (counter_at_most_unread_messages answered
           (createChatId alice bob) alice).
  unfold answered.
  apply seq_append; [|by vm_compute].
  apply seq_markChatAsRead.
  apply seq_append; [|by vm_compute].
  apply seq_empty.
Defined.

(** The two need not agree: a sender clears its own counter without
    reading what was sent to it, and a counter write that reaches the
    store after the receiver has read counts a message that is read. *)
Example counter_and_unread_messages_apart :
  unreadCount
    (snd (append bob alice (okEnv (lit "m2") 2, SendText (lit "hello"))
            (snd (append alice bob (okEnv (lit "m1") 1, SendText (lit "hi"))
                    emptyStore))))
    (createChatId alice bob) bob = 0%N
  ∧ unreadMessages
      (snd (append bob alice (okEnv (lit "m2") 2, SendText (lit "hello"))
              (snd (append alice bob (okEnv (lit "m1") 1, SendText (lit "hi"))
                      emptyStore))))
      (createChatId alice bob) bob = 1%nat
  ∧ unreadCount staleWrite (createChatId alice bob) bob = 1%N
  ∧ unreadMessages staleWrite (createChatId alice bob) bob = 0%nat.
Proof. repeat split; by vm_compute. Qed.

(** ** The users collection *)

Lemma call_same_profile c s i d :
  Users.users s !! i = Some d →
  ∃ d', Users.users (Users.call c s) !! i = Some d' ∧ same_profile d d'.
Proof.
  intros Hd.
  assert (∃ d', Users.users s !! i = Some d' ∧ same_profile d d') as Hsame
    by (by exists d).
  destruct c as [env user additionalData|ok lastActive userId isOnline
                 |ok dateNow|dateNow]; simpl.
  - unfold Users.createUserProfile. destruct user as [u|]; [|done].
    destruct (Users.getOk env); [|done].
    destruct (Users.users s !! Users.uid u) as [d0|] eqn:Eu; [done|].
    destruct (_ && _); [|done]. simpl.
    rewrite lookup_insert_ne; [done|]. intros Heq. rewrite Heq in Eu.
    congruence.
  - unfold Users.updateUserOnlineStatus. destruct ok; [|done]. simpl.
    destruct (decide (userId = i)) as [->|Hne].
    + rewrite lookup_insert_eq, Hd. eexists. split; [done|].
      by repeat split.
    + by rewrite lookup_insert_ne.
  - unfold Users.getAllUsers.
    destruct (Users.cacheIsFresh dateNow s); [done|]. by destruct ok.
  - done.
Qed.

Lemma calls_same_profile l : ∀ s i d,
  Users.users s !! i = Some d →
  ∃ d', Users.users (Users.calls l s) !! i = Some d' ∧ same_profile d d'.
Proof.
  induction l as [|c l IH]; intros s i d Hd; [by exists d|].
  destruct (call_same_profile c s i d Hd) as (d1 & Hd1 & H1).
  destruct (IH (Users.call c s) i d1 Hd1) as (d2 & Hd2 & H2).
  exists d2. split; [done|].
  destruct H1 as (?&?&?&?), H2 as (?&?&?&?).
  repeat split; congruence.
Qed.

Lemma elem_of_usersQuery i users :
  i ∈ map fst (Users.usersQuery users) ↔
  ∃ d, users !! i = Some d ∧ is_Some (Users.createdAt d).
Proof.
  unfold Users.usersQuery. rewrite list_elem_of_fmap. split.
  - intros ([j d] & -> & Hin). rewrite elem_of_sort in Hin.
    apply list_elem_of_filter in Hin as [Hc Hin]. apply elem_of_docs in Hin.
    exists d. split; [done|]. simpl in *.
    by destruct (Users.createdAt d).
  - intros (d & Hd & [t Ht]). exists (i, d). split; [done|].
    rewrite elem_of_sort. apply list_elem_of_filter. split.
    + simpl. by rewrite Ht.
    + by apply elem_of_docs.
Qed.

(** X14. Once a document of [users] exists, no call of the module
    removes it or changes its display name, email, photo or creation
    time: [createUserProfile] writes only where there is no document,
    and [updateUserOnlineStatus] merges only [isOnline] and
    [lastActive]. *)
Theorem stored_profile_stays (l : list Users.Call) (s : Users.State)
    (i : jsstring) (d : Users.Doc) :
  Users.users s !! i = Some d →
  ∃ d', Users.users (Users.calls l s) !! i = Some d' ∧ same_profile d d'.
Proof. apply calls_same_profile. Qed.

Lemma stored_profile_stays_witness :
  ∃ d',
    Users.users
      (Users.calls
         [Users.UpdateUserOnlineStatus true {| seconds := 2; nanoseconds := 0 |}
            (lit "carol") false;
          Users.CreateUserProfile (okProfile 3) (Some carol)
            (Some (lit "Carol Jones"))]
         (snd (Users.createUserProfile (okProfile 1) (Some carol) None
                 Users.initial)))
      !! lit "carol" = Some d'
    ∧ same_profile
        (Users.profile carol None {| seconds := 1; nanoseconds := 0 |}) d'.
Proof.
  apply (stored_profile_stays _
           (snd (Users.createUserProfile (okProfile 1) (Some carol) None
                   Users.initial))
           (lit "carol")).
  reflexivity.
Defined.

(** The full name typed at sign-up is lost when the auth context has
    created the profile first. *)
Example full_name_is_lost :
  Users.users (Users.calls contextThenForm Users.initial) !! lit "carol"
    ≫= Users.displayName = Some (lit "carol").
Proof. by vm_compute. Qed.

(** X15. A sign-in whose profile write the store refuses, while it
    accepts the status write, completes: the user is signed in.  The
    status write has then created a document without [createdAt], which
    stands in the way of every later [createUserProfile], and no users
    query ever lists the user. *)
Theorem refused_profile_is_never_listed (env : Users.Env)
    (lastActive : Timestamp) (u : Users.AuthUser) (a : Users.AuthState)
    (s : Users.State) (l : list Users.Call) :
  Users.users s !! Users.uid u = None →
  Users.getOk env = true → Users.setOk env = false →
  fst (Users.onAuthStateChange env true lastActive (Some u) a s)
    = Some {| Users.currentUser := Some u; Users.loading := false |}
  ∧ Users.uid u ∉
      map fst
        (Users.usersQuery
           (Users.users
              (Users.calls l
                 (snd (Users.onAuthStateChange env true lastActive
                         (Some u) a s))))).
Proof.
  intros Hnew Hget Hset.
  unfold Users.onAuthStateChange, Users.createUserProfile.
  rewrite Hget, Hnew, Hset. simpl. split; [done|].
  intros Hin. apply elem_of_usersQuery in Hin as (d' & Hd' & [t Ht]).
  edestruct (calls_same_profile l
               (Users.updateUserOnlineStatus true lastActive (Users.uid u)
                  true s) (Users.uid u))
    as (d2 & Hd2 & (_ & _ & _ & Hc)).
  { simpl. apply lookup_insert_eq. }
  simpl in Hd2. rewrite Hd' in Hd2. injection Hd2 as <-.
  rewrite Ht, Hnew in Hc. done.
Qed.

Lemma refused_profile_is_never_listed_witness :
  fst (Users.onAuthStateChange (refusedProfile 1)
         true {| seconds := 1; nanoseconds := 0 |} (Some carol) signedOut
         Users.initial)
    = Some {| Users.currentUser := Some carol; Users.loading := false |}
  ∧ Users.uid carol ∉
      map fst
        (Users.usersQuery
           (Users.users
              (Users.calls
                 [Users.CreateUserProfile (okProfile 3) (Some carol) None]
                 (snd (Users.onAuthStateChange (refusedProfile 1)
                         true {| seconds := 1; nanoseconds := 0 |}
                         (Some carol) signedOut Users.initial))))).
Proof.
  apply (refused_profile_is_never_listed (refusedProfile 1)
           {| seconds := 1; nanoseconds := 0 |} carol signedOut
           Users.initial
           [Users.CreateUserProfile (okProfile 3) (Some carol) None]);
    reflexivity.
Defined.

(** ** The auth context and the users cache *)

(** X16. The callback of the auth context clears [loading] and sets the
    current user unless the profile read of a sign-in is rejected; then
    it has written nothing, and neither setter runs.  When the store
    accepts the status write, a completed sign-in leaves the user
    online and a sign-out leaves the user that was signed in offline. *)
Theorem onAuthStateChange_outcome (env : Users.Env) (statusOk : bool)
    (lastActive : Timestamp) (user : option Users.AuthUser)
    (a : Users.AuthState) (s : Users.State) :
  (fst (Users.onAuthStateChange env statusOk lastActive user a s) = None
   ↔ is_Some user ∧ Users.getOk env = false)
  ∧ (fst (Users.onAuthStateChange env statusOk lastActive user a s) = None →
     snd (Users.onAuthStateChange env statusOk lastActive user a s) = s)
  ∧ (∀ a',
       fst (Users.onAuthStateChange env statusOk lastActive user a s)
         = Some a' →
       Users.currentUser a' = user ∧ Users.loading a' = false)
  ∧ (∀ u, statusOk = true → user = Some u → Users.getOk env = true →
          Users.users
            (snd (Users.onAuthStateChange env statusOk lastActive user a s))
            !! Users.uid u ≫= Users.isOnline = Some true)
  ∧ (∀ u, statusOk = true → user = None → Users.currentUser a = Some u →
          Users.users
            (snd (Users.onAuthStateChange env statusOk lastActive user a s))
            !! Users.uid u ≫= Users.isOnline = Some false).
Proof.
  unfold Users.onAuthStateChange, Users.createUserProfile.
  destruct user as [u|].
  - destruct (Users.getOk env) eqn:Hget.
    + assert (∃ s1,
        (match Users.users s !! Users.uid u with
         | Some _ => (Some (), s)
         | None =>
             if Users.setOk env
                && Messages.truthy
                     (Users.displayName
                        (Users.profile u None (Users.now env)))
             then
               (Some (),
                {| Users.users :=
                     <[Users.uid u :=
                         Users.profile u None (Users.now env)]>
                       (Users.users s);
                   Users.usersCache := None;
                   Users.usersCacheTime := Users.usersCacheTime s |})
             else (Some (), s)
         end) = (Some (), s1)) as [s1 ->].
      { destruct (Users.users s !! Users.uid u); [by eexists|].
        destruct (_ && _); by eexists. }
      simpl. split_and!; try done.
      * split; [done|]. by intros [_ ?].
      * by intros a' [= <-].
      * intros u' -> [= <-] _. unfold Users.updateUserOnlineStatus. simpl.
        by rewrite lookup_insert_eq.
    + simpl. by split_and!.
  - destruct (Users.currentUser a) as [u|] eqn:Hu; simpl.
    + split_and!; try done.
      * split; [done|]. by intros [[? [=]] _].
      * by intros a' [= <-].
      * intros u' -> _ [= <-]. unfold Users.updateUserOnlineStatus. simpl.
        by rewrite lookup_insert_eq.
    + split_and!; try done.
      * split; [done|]. by intros [[? [=]] _].
      * by intros a' [= <-].
Qed.

(** X17. [getAllUsers] answers from the cache while it is fresh, so a
    status write is not seen then; a [createUserProfile] that writes a
    profile clears the cache, and the next [getAllUsers] the store
    answers lists the new profile. *)
Theorem getAllUsers_cache (ok : bool) (dateNow : Z) (s : Users.State) :
  (Users.cacheIsFresh dateNow s = true →
   ∀ statusOk lastActive userId isOnline,
     fst (Users.getAllUsers ok dateNow
            (Users.updateUserOnlineStatus statusOk lastActive userId
               isOnline s))
     = fst (Users.getAllUsers ok dateNow s))
  ∧ (∀ env u additionalData,
       Users.users s !! Users.uid u = None →
       Users.users
         (snd (Users.createUserProfile env (Some u) additionalData s))
         !! Users.uid u ≠ None →
       fst (Users.getAllUsers true dateNow
              (snd (Users.createUserProfile env (Some u) additionalData s)))
       = Users.usersQuery
           (Users.users
              (snd (Users.createUserProfile env (Some u) additionalData s)))
       ∧ Users.uid u ∈
           map fst
             (fst (Users.getAllUsers true dateNow
                     (snd (Users.createUserProfile env (Some u)
                             additionalData s))))).
Proof.
  split.
  - intros Hfresh statusOk lastActive userId isOnline.
    unfold Users.getAllUsers.
    assert (Users.cacheIsFresh dateNow
              (Users.updateUserOnlineStatus statusOk lastActive userId
                 isOnline s) = true) as ->.
    { unfold Users.updateUserOnlineStatus. by destruct statusOk. }
    rewrite Hfresh. unfold Users.updateUserOnlineStatus.
    by destruct statusOk.
  - intros env u additionalData Hnew. unfold Users.createUserProfile.
    destruct (Users.getOk env); [|by simpl; rewrite Hnew].
    rewrite Hnew. destruct (_ && _); [|by simpl; rewrite Hnew].
    simpl. intros _.
    split; [done|].
    unfold Users.getAllUsers, Users.cacheIsFresh. simpl.
    apply elem_of_usersQuery. eexists. split; [apply lookup_insert_eq|].
    by eexists.
Qed.

(** ** Initials *)

Lemma split_nonempty c s : split c s ≠ [].
Proof.
  destruct s as [|x s]; simpl; [done|].
  destruct (x =? c)%N; [done|]. by destruct (split c s).
Qed.

Lemma split_single c s seg : split c s = [seg] → c ∉ s.
Proof.
  revert seg. induction s as [|x s IH]; intros seg; simpl.
  - intros _. apply not_elem_of_nil.
  - destruct (N.eqb_spec x c) as [->|Hx].
    + intros [= _ H]. by apply split_nonempty in H.
    + destruct (split c s) as [|seg' segs] eqn:E; [by apply split_nonempty in E|].
      intros [= _ ->]. apply not_elem_of_cons. split; [done|]. by eapply IH.
Qed.

Lemma first_name_empty c s :
  head (default [] (head (split c s))) = None ↔ s = [] ∨ head s = Some c.
Proof.
  destruct s as [|x s]; simpl; [by split; [left|]|].
  destruct (N.eqb_spec x c) as [->|Hx]; simpl.
  - split; [by right|done].
  - destruct (split c s); simpl; split; try done;
      intros [?|[= ?]]; done.
Qed.

Lemma last_name_empty c s :
  head (default [] (last (split c s))) = None ↔ s = [] ∨ last s = Some c.
Proof.
  induction s as [|x s IH]; simpl; [by split; [left|]|].
  destruct (N.eqb_spec x c) as [->|Hx].
  - destruct (split c s) as [|seg segs] eqn:E; [by apply split_nonempty in E|].
    change (last ([] :: seg :: segs)) with (last (seg :: segs)).
    rewrite IH. destruct s as [|y s]; simpl.
    + split; [by right|by left].
    + split; intros [?|?]; try done; by right.
  - destruct (split c s) as [|seg segs] eqn:E; [by apply split_nonempty in E|].
    destruct segs as [|seg2 segs].
    + simpl. apply split_single in E. split; [done|]. intros [?|Hl]; [done|].
      destruct s as [|y s]; simpl in Hl; [congruence|].
      exfalso. apply E. apply last_Some in Hl as [l' ->].
      apply elem_of_app. right. left.
    + change (last ((x :: seg) :: seg2 :: segs))
        with (last (seg :: seg2 :: segs)).
      rewrite IH. destruct s as [|y s]; [done|]. simpl.
      split; intros [?|?]; try done; by right.
Qed.

Lemma initialsOf_throws toUpperCase s :
  initialsOf toUpperCase s = None ↔ head s = Some 32%N ∧ last s = Some 32%N.
Proof.
  unfold initialsOf.
  destruct (bool_decide_reflect (32%N ∈ s)) as [Hin|Hin].
  - assert (s ≠ []) as Hs by (intros ->; by apply elem_of_nil in Hin).
    unfold add_first.
    pose proof (first_name_empty 32 s) as Hf.
    pose proof (last_name_empty 32 s) as Hl.
    destruct (head (default [] (head (split 32 s)))),
      (head (default [] (last (split 32 s)))); simpl; split; try done.
    + intros [H _]. destruct Hf as [_ Hf]. by specialize (Hf (or_intror H)).
    + intros [H _]. destruct Hf as [_ Hf]. by specialize (Hf (or_intror H)).
    + intros [_ H]. destruct Hl as [_ Hl]. by specialize (Hl (or_intror H)).
    + intros _. destruct Hf as [Hf _], Hl as [Hl _].
      destruct (Hf eq_refl), (Hl eq_refl); done.
  - split; [done|]. intros [H _]. exfalso. apply Hin.
    destruct s as [|x s]; [done|]. simpl in H. injection H as ->. left.
Qed.

(** X18. Whatever [toUpperCase] does, [getInitials] throws exactly when
    the display name is not empty and both starts and ends with a space,
    and [getUserInitials] exactly when the name [getUserDisplayName]
    resolves does; the email and the fallbacks never make them throw. *)
Theorem getInitials_throws_iff (toUpperCase : jsstring → jsstring)
    (displayName email : option jsstring)
    (currentUser : option Users.AuthUser) :
  (getInitials toUpperCase displayName email = None
   ↔ ∃ s, displayName = Some s
          ∧ head s = Some 32%N ∧ last s = Some 32%N)
  ∧ (getUserInitials toUpperCase currentUser = None
     ↔ head (getUserDisplayName currentUser) = Some 32%N
       ∧ last (getUserDisplayName currentUser) = Some 32%N).
Proof.
  split.
  - unfold getInitials.
    destruct displayName as [[|x s]|]; simpl.
    + destruct (Messages.truthy_id email); split; try done;
        by intros (s & [= <-] & [=] & _).
    + change (x :: s) with (Messages.or_empty (Some (x :: s))) at 1.
      simpl Messages.or_empty. rewrite initialsOf_throws.
      split; [by exists (x :: s)|]. by intros (s' & [= <-] & ?).
    + destruct (Messages.truthy_id email); split; try done;
        by intros (s & [=] & _).
  - unfold getUserInitials. apply initialsOf_throws.
Qed.

(** ** Media: from the file input to the ledger *)

Lemma lastMessagePreview_image fileInfo :
  lastMessagePreview (lit "image") fileInfo = photoPreview.
Proof. reflexivity. Qed.

Lemma lastMessagePreview_video fileInfo :
  lastMessagePreview (lit "video") fileInfo = videoPreview.
Proof. reflexivity. Qed.

Lemma handleFileSelect_accepted toLowerCase objectURL file files s :
  toLowerCase (File.type file) = File.type file →
  fst (Media.handleFileSelect toLowerCase objectURL (file :: files) s) = None →
  ∃ m,
    Media.selectedMedia
      (snd (Media.handleFileSelect toLowerCase objectURL (file :: files) s))
      = Some m
    ∧ Media.file m = file
    ∧ ((Media.type m = lit "image" ∧ Media.preview m = Some objectURL)
       ∨ (Media.type m = lit "video" ∧ Media.preview m = None)).
Proof.
  intros Hlower. unfold Media.handleFileSelect.
  destruct (Media.maxSize <? File.size file)%N; [done|].
  unfold existsb. rewrite orb_false_r.
  unfold Media.getMessageType. rewrite Hlower.
  destruct (startsWith (File.type file) (lit "image/")) eqn:Ei.
  - intros _. eexists. split; [reflexivity|]. split; [done|]. by left.
  - destruct (startsWith (File.type file) (lit "video/")) eqn:Ev; [|done].
    intros _. eexists. split; [reflexivity|]. split; [done|]. by right.
Qed.

(** X19. [handleFileSelect] takes a file exactly when it is at most 50MB
    and its type starts with [image/] or [video/]; a file it refuses
    changes nothing.  For a type the browser reports in lower case, the
    media type it records is [image], with a preview URL, or [video],
    without one, and never [file]. *)
Theorem handleFileSelect_selects (toLowerCase : jsstring → jsstring)
    (objectURL : jsstring) (file : File.t) (files : list File.t)
    (s : Media.State) :
  toLowerCase (File.type file) = File.type file →
  (fst (Media.handleFileSelect toLowerCase objectURL (file :: files) s) = None
   ↔ (File.size file ≤ 52428800)%N
     ∧ (startsWith (File.type file) (lit "image/") = true
        ∨ startsWith (File.type file) (lit "video/") = true))
  ∧ (fst (Media.handleFileSelect toLowerCase objectURL (file :: files) s)
       ≠ None →
     snd (Media.handleFileSelect toLowerCase objectURL (file :: files) s) = s)
  ∧ (fst (Media.handleFileSelect toLowerCase objectURL (file :: files) s)
       = None →
     ∃ m,
       Media.selectedMedia
         (snd (Media.handleFileSelect toLowerCase objectURL (file :: files) s))
         = Some m
       ∧ Media.file m = file
       ∧ ((Media.type m = lit "image" ∧ Media.preview m = Some objectURL)
          ∨ (Media.type m = lit "video" ∧ Media.preview m = None))).
Proof.
  intros Hlower. split_and!.
  - unfold Media.handleFileSelect.
    change Media.maxSize with 52428800%N.
    destruct (N.ltb_spec 52428800 (File.size file)) as [Hs|Hs].
    { split; [done|]. intros [? _]. lia. }
    unfold existsb. rewrite orb_false_r.
    destruct (startsWith (File.type file) (lit "image/")),
      (startsWith (File.type file) (lit "video/")); simpl;
      split; try done; try (intros _; split; [done|]; auto).
    by intros [_ [?|?]].
  - unfold Media.handleFileSelect.
    destruct (Media.maxSize <? File.size file)%N; [done|].
    by destruct (negb _).
  - by apply handleFileSelect_accepted.
Qed.

Lemma handleFileSelect_selects_witness :
  (fst (Media.handleFileSelect asIs (lit "blob:1") [catFile] picking) = None
   ↔ (File.size catFile ≤ 52428800)%N
     ∧ (startsWith (File.type catFile) (lit "image/") = true
        ∨ startsWith (File.type catFile) (lit "video/") = true))
  ∧ (fst (Media.handleFileSelect asIs (lit "blob:1") [catFile] picking)
       ≠ None →
     snd (Media.handleFileSelect asIs (lit "blob:1") [catFile] picking)
     = picking)
  ∧ (fst (Media.handleFileSelect asIs (lit "blob:1") [catFile] picking)
       = None →
     ∃ m,
       Media.selectedMedia
         (snd (Media.handleFileSelect asIs (lit "blob:1") [catFile] picking))
         = Some m
       ∧ Media.file m = catFile
       ∧ ((Media.type m = lit "image" ∧ Media.preview m = Some (lit "blob:1"))
          ∨ (Media.type m = lit "video" ∧ Media.preview m = None))).
Proof.
  apply (handleFileSelect_selects asIs (lit "blob:1") catFile [] picking).
  reflexivity.
Defined.

(** A type in upper case is an image for [getMessageType] and refused
    by [handleFileSelect]. *)
Example handleFileSelect_upper_case :
  fst (Media.handleFileSelect asIs (lit "blob:1")
         [{| File.name := lit "cat.png"; File.size := 1024%N;
             File.type := lit "IMAGE/PNG" |}] picking)
  = Some Media.NotAllowed.
Proof. reflexivity. Qed.

Lemma onProgress_cells events : ∀ s,
  Media.selectedMedia (Media.onProgress events s) = Media.selectedMedia s
  ∧ Media.showMediaPreview (Media.onProgress events s)
    = Media.showMediaPreview s
  ∧ Media.isUploading (Media.onProgress events s) = Media.isUploading s
  ∧ Media.isActivelyChatting (Media.onProgress events s)
    = Media.isActivelyChatting s
  ∧ Media.objectURLs (Media.onProgress events s) = Media.objectURLs s.
Proof.
  induction events as [|e events IH]; intros s; [done|].
  change (Media.onProgress (e :: events) s)
    with (Media.onProgress events
            (Media.setUploadProgress (Media.Percent e.1 e.2) s)).
  destruct (IH (Media.setUploadProgress (Media.Percent e.1 e.2) s))
    as (-> & -> & -> & -> & ->). done.
Qed.

Lemma handleSendMedia_outcome_aux upl env s stg st media uid chat :
  Media.selectedMedia s = Some media →
  Media.selectedChat s = Some chat → chat ≠ [] →
  Media.isUploading s = false →
  Media.currentUser s = Some uid →
  storageOf (Media.handleSendMedia upl env s stg st)
    = (if uploadOk upl
       then <[uploadPath uid chat (dateNow upl)
                (File.name (Media.file media)) := Media.file media]> stg
       else stg)
  ∧ storeOf (Media.handleSendMedia upl env s stg st)
    = (if uploadOk upl && urlOk upl
       then snd (sendMediaMessage env uid chat
                   {| FileInfo.url := downloadURL upl;
                      FileInfo.name := File.name (Media.file media);
                      FileInfo.size := File.size (Media.file media);
                      FileInfo.type := File.type (Media.file media) |}
                   (Media.type media) st)
       else st)
  ∧ Media.selectedMedia (stateOf (Media.handleSendMedia upl env s stg st))
    = (if uploadOk upl && urlOk upl
          && (addOk env && getOk env && setOk env)
       then None else Some media)
  ∧ (alertOf (Media.handleSendMedia upl env s stg st) = None
     ↔ Media.selectedMedia
         (stateOf (Media.handleSendMedia upl env s stg st)) = None)
  ∧ Media.isUploading (stateOf (Media.handleSendMedia upl env s stg st))
    = false
  ∧ Media.objectURLs (stateOf (Media.handleSendMedia upl env s stg st))
    = Media.objectURLs s.
Proof.
  intros Hmedia Hchat Hne Hup Huser. unfold Media.handleSendMedia.
  rewrite Hmedia, Hchat, Hup, Huser.
  destruct chat as [|c chat]; [done|]. simpl negb. cbn match.
  change (Messages.or_empty (Some (c :: chat))) with (c :: chat).
  set (s1 := Media.setIsActivelyChatting true (Media.setIsUploading true s)).
  destruct (onProgress_cells (events upl) s1) as (Hm & _ & _ & _ & Hu).
  change (Media.selectedMedia s1) with (Media.selectedMedia s) in Hm.
  change (Media.objectURLs s1) with (Media.objectURLs s) in Hu.
  rewrite Hmedia in Hm.
  unfold uploadFile, storageOf, storeOf, stateOf, alertOf.
  destruct (uploadOk upl).
  2: { simpl. rewrite Hm, Hu. by split_and!. }
  destruct (urlOk upl).
  2: { simpl. rewrite Hm, Hu. by split_and!. }
  pose proof (append_outcome_aux uid (c :: chat)
                (env, SendMedia
                        {| FileInfo.url := downloadURL upl;
                           FileInfo.name := File.name (Media.file media);
                           FileInfo.size := File.size (Media.file media);
                           FileInfo.type := File.type (Media.file media) |}
                        (Media.type media)) st) as [Hall _].
  unfold append in Hall. simpl in Hall. unfold allOk in Hall.
  destruct (sendMediaMessage env uid (c :: chat) _ (Media.type media) st)
    as [success st'] eqn:Esend.
  simpl in Hall.
  destruct success.
  - destruct Hall as [Hall _].
    destruct (Hall eq_refl) as (-> & -> & ->). simpl. by rewrite Hu.
  - assert (addOk env && getOk env && setOk env = false) as ->.
    { destruct (addOk env), (getOk env), (setOk env); try done.
      destruct Hall as [_ Hall].
      by specialize (Hall (conj eq_refl (conj eq_refl eq_refl))). }
    simpl. rewrite Hm, Hu. by split_and!.
Qed.

(** X20. When [handleSendMedia] passes its guard, the object stays in
    the bucket as soon as the upload completed, whether or not its URL
    was obtained and the message was saved; the store is the one
    [sendMediaMessage] leaves for the uploaded file and the recorded
    media type, or unchanged when no URL was obtained.  The selection
    is cleared, without an alert, exactly when every request succeeded;
    otherwise it is kept.  [isUploading] ends cleared, and the object
    URL of the preview is never revoked. *)
Theorem handleSendMedia_outcome (upl : UploadEnv) (env : SendEnv)
    (s : Media.State) (stg : Storage) (st : Firestore)
    (media : Media.Selected) (uid chat : jsstring) :
  Media.selectedMedia s = Some media →
  Media.selectedChat s = Some chat → chat ≠ [] →
  Media.isUploading s = false →
  Media.currentUser s = Some uid →
  storageOf (Media.handleSendMedia upl env s stg st)
    = (if uploadOk upl
       then <[uploadPath uid chat (dateNow upl)
                (File.name (Media.file media)) := Media.file media]> stg
       else stg)
  ∧ storeOf (Media.handleSendMedia upl env s stg st)
    = (if uploadOk upl && urlOk upl
       then snd (sendMediaMessage env uid chat
                   {| FileInfo.url := downloadURL upl;
                      FileInfo.name := File.name (Media.file media);
                      FileInfo.size := File.size (Media.file media);
                      FileInfo.type := File.type (Media.file media) |}
                   (Media.type media) st)
       else st)
  ∧ Media.selectedMedia (stateOf (Media.handleSendMedia upl env s stg st))
    = (if uploadOk upl && urlOk upl
          && (addOk env && getOk env && setOk env)
       then None else Some media)
  ∧ (alertOf (Media.handleSendMedia upl env s stg st) = None
     ↔ Media.selectedMedia
         (stateOf (Media.handleSendMedia upl env s stg st)) = None)
  ∧ Media.isUploading (stateOf (Media.handleSendMedia upl env s stg st))
    = false
  ∧ Media.objectURLs (stateOf (Media.handleSendMedia upl env s stg st))
    = Media.objectURLs s.
Proof. apply handleSendMedia_outcome_aux. Qed.

Lemma handleSendMedia_outcome_witness :
  storageOf
    (Media.handleSendMedia okUpload (okEnv (lit "m1") 1) picked ∅ emptyStore)
    = (if uploadOk okUpload
       then <[uploadPath alice bob (dateNow okUpload)
                (File.name (Media.file pickedCat)) := Media.file pickedCat]> ∅
       else ∅)
  ∧ storeOf
      (Media.handleSendMedia okUpload (okEnv (lit "m1") 1) picked ∅
         emptyStore)
    = (if uploadOk okUpload && urlOk okUpload
       then snd (sendMediaMessage (okEnv (lit "m1") 1) alice bob
                   {| FileInfo.url := downloadURL okUpload;
                      FileInfo.name := File.name (Media.file pickedCat);
                      FileInfo.size := File.size (Media.file pickedCat);
                      FileInfo.type := File.type (Media.file pickedCat) |}
                   (Media.type pickedCat) emptyStore)
       else emptyStore)
  ∧ Media.selectedMedia
      (stateOf
         (Media.handleSendMedia okUpload (okEnv (lit "m1") 1) picked ∅
            emptyStore))
    = (if uploadOk okUpload && urlOk okUpload
          && (addOk (okEnv (lit "m1") 1) && getOk (okEnv (lit "m1") 1)
              && setOk (okEnv (lit "m1") 1))
       then None else Some pickedCat)
  ∧ (alertOf
       (Media.handleSendMedia okUpload (okEnv (lit "m1") 1) picked ∅
          emptyStore) = None
     ↔ Media.selectedMedia
         (stateOf
            (Media.handleSendMedia okUpload (okEnv (lit "m1") 1) picked ∅
               emptyStore)) = None)
  ∧ Media.isUploading
      (stateOf
         (Media.handleSendMedia okUpload (okEnv (lit "m1") 1) picked ∅
            emptyStore))
    = false
  ∧ Media.objectURLs
      (stateOf
         (Media.handleSendMedia okUpload (okEnv (lit "m1") 1) picked ∅
            emptyStore))
    = Media.objectURLs picked.
Proof.
  apply (handleSendMedia_outcome okUpload (okEnv (lit "m1") 1) picked ∅
           emptyStore pickedCat alice bob); by vm_compute.
Defined.

(** The object of an upload whose message was not saved stays in the
    bucket, and the selection is kept for another attempt. *)
Example upload_without_message :
  storageOf
    (Media.handleSendMedia okUpload
       {| addOk := false; getOk := true; setOk := true; newId := lit "m1";
          messageTime := {| seconds := 1; nanoseconds := 0 |};
          metadataTime := {| seconds := 1; nanoseconds := 0 |} |}
       picked ∅ emptyStore)
    !! (lit "chats/alice_bob/1720000000123_my_cat.png") = Some catFile
  ∧ storeOf
      (Media.handleSendMedia okUpload
         {| addOk := false; getOk := true; setOk := true; newId := lit "m1";
            messageTime := {| seconds := 1; nanoseconds := 0 |};
            metadataTime := {| seconds := 1; nanoseconds := 0 |} |}
         picked ∅ emptyStore) = emptyStore.
Proof. split; by vm_compute. Qed.

Lemma handleFileSelect_cells toLowerCase objectURL files s :
  Media.selectedChat (snd (Media.handleFileSelect toLowerCase objectURL files s))
    = Media.selectedChat s
  ∧ Media.isUploading
      (snd (Media.handleFileSelect toLowerCase objectURL files s))
    = Media.isUploading s
  ∧ Media.currentUser
      (snd (Media.handleFileSelect toLowerCase objectURL files s))
    = Media.currentUser s.
Proof.
  unfold Media.handleFileSelect. destruct files as [|file files]; [done|].
  destruct (Media.maxSize <? File.size file)%N; [done|].
  by destruct (negb _).
Qed.

(** X21. A file taken by [handleFileSelect] and sent by
    [handleSendMedia], every request succeeding, is stored as a message
    of type [image] or [video] that carries the download URL and the
    name, size and type of the file, and the ledger shows the photo or
    the video preview: the component never writes the preview with the
    file name. *)
Theorem chosen_media_is_photo_or_video (toLowerCase : jsstring → jsstring)
    (objectURL : jsstring) (file : File.t) (files : list File.t)
    (upl : UploadEnv) (env : SendEnv) (s : Media.State) (stg : Storage)
    (st : Firestore) (uid chat : jsstring) :
  toLowerCase (File.type file) = File.type file →
  fst (Media.handleFileSelect toLowerCase objectURL (file :: files) s) = None →
  Media.selectedChat s = Some chat → chat ≠ [] →
  Media.isUploading s = false →
  Media.currentUser s = Some uid →
  uploadOk upl = true → urlOk upl = true → allOk env →
  ∃ messageType preview,
    ((messageType = lit "image" ∧ preview = photoPreview)
     ∨ (messageType = lit "video" ∧ preview = videoPreview))
    ∧ collection
        (storeOf
           (Media.handleSendMedia upl env
              (snd (Media.handleFileSelect toLowerCase objectURL
                      (file :: files) s)) stg st))
        (createChatId uid chat) !! newId env
      = Some
          {| senderId := uid; receiverId := chat;
             body := Media messageType (downloadURL upl) (File.name file)
                       (File.size file) (File.type file);
             timestamp := messageTime env; read := false |}
    ∧ chats
        (storeOf
           (Media.handleSendMedia upl env
              (snd (Media.handleFileSelect toLowerCase objectURL
                      (file :: files) s)) stg st))
        !! createChatId uid chat ≫= lastMessage
      = Some preview.
Proof.
  intros Hlower Hacc Hchat Hne Hup Huser Hupl Hurl Hall.
  destruct (handleFileSelect_accepted toLowerCase objectURL file files s
              Hlower Hacc) as (m & Hm & Hfile & Htype).
  destruct (handleFileSelect_cells toLowerCase objectURL (file :: files) s)
    as (Hc & Hu & Hcu).
  rewrite Hchat in Hc. rewrite Hup in Hu. rewrite Huser in Hcu.
  destruct (handleSendMedia_outcome_aux upl env _ stg st m uid chat
              Hm Hc Hne Hu Hcu) as (_ & -> & _).
  rewrite Hupl, Hurl, Hfile. simpl andb. cbn match.
  set (fileInfo := {| FileInfo.url := downloadURL upl;
                      FileInfo.name := File.name file;
                      FileInfo.size := File.size file;
                      FileInfo.type := File.type file |}).
  destruct (append_outcome_aux uid chat
              (env, SendMedia fileInfo (Media.type m)) st)
    as (Hok & _ & _ & Hmsg & Hled).
  change (append uid chat (env, SendMedia fileInfo (Media.type m)) st)
    with (sendMediaMessage env uid chat fileInfo (Media.type m) st)
    in Hok, Hmsg, Hled.
  simpl in Hok. apply Hok in Hall as Hsuccess.
  destruct Hall as (Hadd & _ & _). simpl in Hmsg.
  destruct (Hled Hsuccess) as (d & Hd & _ & Hlast & _).
  exists (Media.type m), (lastMessagePreview (Media.type m) fileInfo).
  split_and!.
  - destruct Htype as [[-> _]|[-> _]]; [by left|by right].
  - by rewrite (Hmsg Hadd).
  - by rewrite Hd.
Qed.

Lemma chosen_media_is_photo_or_video_witness :
  ∃ messageType preview,
    ((messageType = lit "image" ∧ preview = photoPreview)
     ∨ (messageType = lit "video" ∧ preview = videoPreview))
    ∧ collection
        (storeOf
           (Media.handleSendMedia okUpload (okEnv (lit "m1") 1)
              (snd (Media.handleFileSelect asIs (lit "blob:1")
                      [catFile] picking)) ∅ emptyStore))
        (createChatId alice bob) !! newId (okEnv (lit "m1") 1)
      = Some
          {| senderId := alice; receiverId := bob;
             body := Media messageType (downloadURL okUpload)
                       (File.name catFile) (File.size catFile)
                       (File.type catFile);
             timestamp := messageTime (okEnv (lit "m1") 1); read := false |}
    ∧ chats
        (storeOf
           (Media.handleSendMedia okUpload (okEnv (lit "m1") 1)
              (snd (Media.handleFileSelect asIs (lit "blob:1")
                      [catFile] picking)) ∅ emptyStore))
        !! createChatId alice bob ≫= lastMessage
      = Some preview.
Proof.
  apply (chosen_media_is_photo_or_video asIs (lit "blob:1") catFile []
           okUpload (okEnv (lit "m1") 1) picking ∅ emptyStore alice bob);
    by vm_compute.
Defined.

(** ** The path of an upload *)

Lemma split_first_unique {A} (x : A) l1 r1 l2 r2 :
  l1 ++ x :: r1 = l2 ++ x :: r2 → x ∉ l1 → x ∉ l2 → l1 = l2 ∧ r1 = r2.
Proof.
  revert l2. induction l1 as [|a l1 IH]; intros [|b l2]; simpl.
  - by intros [= ->].
  - intros [= <- _] _ H. exfalso. apply H. left.
  - intros [= -> _] H. exfalso. apply H. left.
  - intros [= -> Heq] H1 H2.
    destruct (IH l2 Heq) as [-> ->]; [|by intros ?; apply H2; right|done].
    intros ?. apply H1. by right.
Qed.

Lemma split_last_unique {A} (x : A) l1 r1 l2 r2 :
  l1 ++ x :: r1 = l2 ++ x :: r2 → x ∉ r1 → x ∉ r2 → l1 = l2 ∧ r1 = r2.
Proof.
  intros Heq H1 H2.
  apply (f_equal reverse) in Heq.
  rewrite !reverse_app, !reverse_cons, <- !app_assoc in Heq. simpl in Heq.
  apply split_first_unique in Heq as [Hr Hl].
  - split.
    + by apply (inj reverse).
    + by apply (inj reverse).
  - by rewrite elem_of_reverse.
  - by rewrite elem_of_reverse.
Qed.

Lemma digits_are_digits d c :
  c ∈ digits d → (48 ≤ c ≤ 57)%N.
Proof.
  induction d; simpl; intros Hc;
    try (by apply elem_of_nil in Hc);
    apply elem_of_cons in Hc as [->|Hc]; auto; lia.
Qed.

Lemma digits_inj d d' : digits d = digits d' → d = d'.
Proof.
  revert d'. induction d; intros []; simpl; intros [=]; f_equal; auto.
Qed.

Lemma Number_toString_inj n n' :
  Number_toString n = Number_toString n' → n = n'.
Proof.
  intros H. by apply DecimalN.Unsigned.to_uint_inj, digits_inj.
Qed.

Lemma sanitize_chars name c :
  c ∈ sanitize name → kept c = true ∨ c = sep.
Proof.
  unfold sanitize. intros (x & -> & _)%list_elem_of_fmap.
  destruct (kept x) eqn:E; auto.
Qed.

(** X22. The path of an upload determines the chat, the time of the
    upload and the sanitized name: an upload never replaces an object of
    another chat or of another millisecond.  The file name part holds no
    [/], whatever the name of the file. *)
Theorem uploadPath_injective (senderId receiverId senderId' receiverId'
    : jsstring) (timestamp timestamp' : N) (name name' : jsstring) :
  (uploadPath senderId receiverId timestamp name
   = uploadPath senderId' receiverId' timestamp' name'
   ↔ createChatId senderId receiverId = createChatId senderId' receiverId'
     ∧ timestamp = timestamp' ∧ sanitize name = sanitize name')
  ∧ 47%N ∉ Number_toString timestamp ++ lit "_" ++ sanitize name.
Proof.
  assert (∀ t n, 47%N ∉ Number_toString t ++ lit "_" ++ sanitize n) as Hslash.
  { intros t n Hin. apply elem_of_app in Hin as [Hin|Hin].
    - apply digits_are_digits in Hin. lia.
    - apply elem_of_cons in Hin as [?|Hin]; [done|].
      apply sanitize_chars in Hin as [Hin|?]; [|done].
      by vm_compute in Hin. }
  split; [|apply Hslash]. split.
  - unfold uploadPath. cbv zeta. intros Heq.
    apply app_inv_head in Heq.
    apply (split_last_unique 47%N
             (createChatId senderId receiverId)
             (Number_toString timestamp ++ lit "_" ++ sanitize name)
             (createChatId senderId' receiverId')
             (Number_toString timestamp' ++ lit "_" ++ sanitize name'))
      in Heq as [Hchat Hname]; [|apply Hslash..].
    split; [done|].
    apply (split_first_unique sep
             (Number_toString timestamp) (sanitize name)
             (Number_toString timestamp') (sanitize name'))
      in Hname as [Ht Hn].
    + split; [by apply Number_toString_inj|done].
    + intros Hin%digits_are_digits. unfold sep in Hin. lia.
    + intros Hin%digits_are_digits. unfold sep in Hin. lia.
  - unfold uploadPath. by intros (-> & -> & ->).
Qed.

(** Two names that differ only in characters the pattern replaces get
    the same path when uploaded to the same chat in the same
    millisecond. *)
Example uploadPath_collision :
  uploadPath alice bob 1720000000123 (lit "my cat.png")
  = uploadPath alice bob 1720000000123 (lit "my_cat.png").
Proof. reflexivity. Qed.

(** ** The two chat listeners *)

Lemma filter_ext_in {A} (P Q : A → Prop) `{!∀ x, Decision (P x)}
    `{!∀ x, Decision (Q x)} (l : list A) :
  (∀ x, x ∈ l → P x ↔ Q x) → filter P l = filter Q l.
Proof.
  induction l as [|x l IH]; intros Hall; [done|].
  rewrite !filter_cons.
  rewrite IH by (intros y Hy; apply Hall; by right).
  destruct (decide (P x)) as [HP|HP], (decide (Q x)) as [HQ|HQ]; try done.
  - exfalso. apply HQ, Hall; [left|done].
  - exfalso. apply HP, Hall; [left|done].
Qed.

(** X23. In a reachable store [getUserChats] and
    [getUserChatsWithCounts] deliver the same chats of a user, though
    not always in the same order: every ledger entry that names
    participants has the time of a last message, so the [orderBy] of
    [getUserChats] leaves none out. *)
Theorem getUserChats_same_chats (userId : jsstring) (st : Firestore) :
  reachable st →
  map fst (getUserChats userId st)
  ≡ₚ map Chat.id (getUserChatsWithCounts userId st).
Proof.
  intros Hreach. pose proof (reachable_ledger_ok_aux st Hreach) as Hst.
  unfold getUserChats, getUserChatsWithCounts.
  rewrite !sort_perm, map_map. simpl.
  erewrite (filter_ext_in _ (λ d, array_contains userId d = true)); [done|].
  intros [c d] Hin. apply elem_of_docs in Hin. simpl in Hin.
  specialize (Hst c d Hin). unfold ledger_entry_ok in Hst.
  unfold array_contains. simpl.
  destruct (bool_decide_reflect (userId ∈ default [] (participants d)))
    as [Hp|Hp]; simpl; [|done].
  destruct (lastMessageSender d).
  - destruct Hst as (_ & r & _ & _ & _ & [t ->]). done.
  - destruct Hst as (Hnone & _). rewrite Hnone in Hp.
    by apply elem_of_nil in Hp.
Qed.

Lemma getUserChats_same_chats_witness :
  map fst (getUserChats bob afterThreeSends)
  ≡ₚ map Chat.id (getUserChatsWithCounts bob afterThreeSends).
Proof.
  apply (getUserChats_same_chats bob afterThreeSends).
  apply reachable_appends, reach_empty.
Defined.

(** ** The sign-in form *)

Lemma message_nonempty code : Auth.message code ≠ [].
Proof. unfold Auth.message. repeat (destruct (decide _); [done|]). done. Qed.

Lemma handleSubmit_invalid env s u :
  invalid s →
  ∃ e, e ≠ [] ∧
  Auth.handleSubmit env s u = (Auth.finish e (Auth.navigated s) s, [], u).
Proof.
  unfold Auth.handleSubmit, invalid. intros Hinv.
  destruct (negb (Auth.isLogin s) && negb (bool_decide _)) eqn:E.
  { by exists (lit "Passwords don't match!"). }
  destruct (Nat.ltb_spec (length (Auth.password (Auth.formData s))) 6)
    as [Hlen|Hlen].
  { by exists (lit "Password must be at least 6 characters long"). }
  exfalso. destruct Hinv as [[Hl Hne]|?]; [|lia].
  rewrite Hl in E. simpl in E. by rewrite bool_decide_eq_false_2 in E.
Qed.

Lemma handleSubmit_valid env s u :
  ¬ invalid s →
  Auth.handleSubmit env s u =
    let f := Auth.formData s in
    if Auth.isLogin s then
      let requests := [Auth.SignInWithEmail (Auth.email f) (Auth.password f)] in
      match Auth.credential env with
      | Auth.Resolved _ => (Auth.finish [] true s, requests, u)
      | Auth.Rejected code =>
          (Auth.finish (Auth.message code) (Auth.navigated s) s, requests, u)
      end
    else
      let signUp := [Auth.SignUpWithEmail (Auth.email f) (Auth.password f)] in
      match Auth.credential env with
      | Auth.Rejected code =>
          (Auth.finish (Auth.message code) (Auth.navigated s) s, signUp, u)
      | Auth.Resolved user =>
          let requests :=
            if truthy_str (Auth.fullName f)
            then signUp ++ [Auth.UpdateProfile (Users.uid user) (Auth.fullName f)]
            else signUp in
          if truthy_str (Auth.fullName f) then
            match Auth.updateProfileResult env with
            | Auth.Resolved _ =>
                match
                  Users.createUserProfile (Auth.profileEnv env)
                    (Some (Auth.withDisplayName (Auth.fullName f) user))
                    (Some (Auth.fullName f)) u
                with
                | (Some _, u') => (Auth.finish [] true s, requests, u')
                | (None, u') =>
                    (Auth.finish (Auth.message (Auth.profileCode env))
                       (Auth.navigated s) s, requests, u')
                end
            | Auth.Rejected code =>
                (Auth.finish (Auth.message code) (Auth.navigated s) s,
                 requests, u)
            end
          else
            match
              Users.createUserProfile (Auth.profileEnv env) (Some user)
                (Some (Auth.fullName f)) u
            with
            | (Some _, u') => (Auth.finish [] true s, requests, u')
            | (None, u') =>
                (Auth.finish (Auth.message (Auth.profileCode env))
                   (Auth.navigated s) s, requests, u')
            end
      end.
Proof.
  unfold Auth.handleSubmit, invalid. intros Hinv.
  destruct (negb (Auth.isLogin s) && negb (bool_decide _)) eqn:E.
  { exfalso. apply Hinv. left. apply andb_prop in E as [E1 E2].
    apply negb_true_iff in E1, E2. split; [done|].
    by apply bool_decide_eq_false in E2. }
  destruct (Nat.ltb_spec (length (Auth.password (Auth.formData s))) 6)
    as [Hlen|Hlen].
  { exfalso. apply Hinv. by right. }
  cbv zeta. destruct (Auth.isLogin s); [done|].
  destruct (Auth.credential env); [|done].
  by destruct (truthy_str _).
Qed.

Lemma invalid_dec s : invalid s ∨ ¬ invalid s.
Proof.
  unfold invalid.
  destruct (decide (Auth.password (Auth.formData s)
                    = Auth.confirmPassword (Auth.formData s))),
    (Auth.isLogin s),
    (Nat.ltb_spec (length (Auth.password (Auth.formData s))) 6);
    try (left; by auto); try (left; right; lia);
    right; intros [[? ?]|?]; try done; lia.
Qed.

Lemma handleSubmit_sent env s u :
  ¬ invalid s → snd (fst (Auth.handleSubmit env s u)) ≠ [].
Proof.
  intros Hv. rewrite handleSubmit_valid by done. cbv zeta.
  destruct (Auth.isLogin s).
  - by destruct (Auth.credential env).
  - destruct (Auth.credential env) as [user|]; [|done].
    destruct (truthy_str _).
    + destruct (Auth.updateProfileResult env); [|done].
      by destruct (Users.createUserProfile _ _ _ _) as [[|] ?].
    + by destruct (Users.createUserProfile _ _ _ _) as [[|] ?].
Qed.

Lemma handleSubmit_loading env s u :
  Auth.loading (fst (fst (Auth.handleSubmit env s u))) = false.
Proof.
  destruct (invalid_dec s) as [Hi|Hv].
  - by destruct (handleSubmit_invalid env s u Hi) as (e & _ & ->).
  - rewrite handleSubmit_valid by done. cbv zeta.
    destruct (Auth.isLogin s).
    + by destruct (Auth.credential env).
    + destruct (Auth.credential env) as [user|]; [|done].
      destruct (truthy_str _).
      * destruct (Auth.updateProfileResult env); [|done].
        by destruct (Users.createUserProfile _ _ _ _) as [[|] ?].
      * by destruct (Users.createUserProfile _ _ _ _) as [[|] ?].
Qed.

Lemma createUserProfile_displayName env user additionalData u :
  Users.getOk env = true → Users.setOk env = true →
  Users.users u !! Users.uid user = None →
  Users.users
    (snd (Users.createUserProfile env (Some user) (Some additionalData) u))
    !! Users.uid user ≫= Users.displayName = Some additionalData.
Proof.
  intros Hget Hset Hnew. unfold Users.createUserProfile.
  rewrite Hget, Hnew, Hset. simpl. by rewrite lookup_insert_eq.
Qed.

(** X24. [handleSubmit] sends no request to Firebase Auth exactly when,
    signing up, the two passwords differ, or the password has fewer
    than 6 code units; it then shows an error and leaves the users
    collection alone.  It always ends with [loading] cleared, and a
    login never writes the users collection.  A sign-up that goes
    through for a user without a profile stores the full name as typed
    as the display name, even an empty one. *)
Theorem handleSubmit_outcome (env : Auth.Env) (s : Auth.State)
    (u : Users.State) :
  Auth.loading (fst (fst (Auth.handleSubmit env s u))) = false
  ∧ (snd (fst (Auth.handleSubmit env s u)) = []
     ↔ (Auth.isLogin s = false
        ∧ Auth.password (Auth.formData s)
          ≠ Auth.confirmPassword (Auth.formData s))
       ∨ (length (Auth.password (Auth.formData s)) < 6)%nat)
  ∧ (snd (fst (Auth.handleSubmit env s u)) = [] →
     snd (Auth.handleSubmit env s u) = u
     ∧ Auth.error (fst (fst (Auth.handleSubmit env s u))) ≠ []
     ∧ Auth.navigated (fst (fst (Auth.handleSubmit env s u)))
       = Auth.navigated s)
  ∧ (Auth.isLogin s = true → snd (Auth.handleSubmit env s u) = u)
  ∧ (∀ user,
       Auth.isLogin s = false →
       snd (fst (Auth.handleSubmit env s u)) ≠ [] →
       Auth.credential env = Auth.Resolved user →
       Auth.updateProfileResult env = Auth.Resolved tt →
       Users.getOk (Auth.profileEnv env) = true →
       Users.setOk (Auth.profileEnv env) = true →
       Users.users u !! Users.uid user = None →
       Users.users (snd (Auth.handleSubmit env s u)) !! Users.uid user
         ≫= Users.displayName
       = Some (Auth.fullName (Auth.formData s))).
Proof.
  assert (snd (fst (Auth.handleSubmit env s u)) = [] ↔ invalid s) as Hreq.
  { split.
    - intros Hnil. destruct (invalid_dec s) as [?|Hv]; [done|].
      by apply (handleSubmit_sent env s u) in Hv.
    - intros Hi. by destruct (handleSubmit_invalid env s u Hi) as (e & _ & ->). }
  split_and!.
  - apply handleSubmit_loading.
  - apply Hreq.
  - intros Hi%Hreq.
    by destruct (handleSubmit_invalid env s u Hi) as (e & ? & ->).
  - intros Hlogin. destruct (invalid_dec s) as [Hi|Hv].
    + by destruct (handleSubmit_invalid env s u Hi) as (e & ? & ->).
    + rewrite handleSubmit_valid by done. cbv zeta. rewrite Hlogin.
      by destruct (Auth.credential env).
  - intros user Hlogin Hsent Hcred Hupd Hget Hset Hnew.
    assert (¬ invalid s) as Hv by (by intros ?%Hreq).
    rewrite handleSubmit_valid by done. cbv zeta.
    rewrite Hlogin, Hcred, Hupd.
    pose proof (createUserProfile_displayName (Auth.profileEnv env)
                  (Auth.withDisplayName (Auth.fullName (Auth.formData s)) user)
                  (Auth.fullName (Auth.formData s)) u Hget Hset Hnew) as H1.
    pose proof (createUserProfile_displayName (Auth.profileEnv env) user
                  (Auth.fullName (Auth.formData s)) u Hget Hset Hnew) as H2.
    simpl in H1.
    destruct (truthy_str _).
    + by destruct (Users.createUserProfile _ _ _ _) as [[|] ?].
    + by destruct (Users.createUserProfile _ _ _ _) as [[|] ?].
Qed.

(** Signing up without a name stores an empty display name, although
    the email would have given one. *)
Example sign_up_without_name :
  Users.users (snd (Auth.handleSubmit okAuth signUpForm Users.initial))
    !! lit "carol" ≫= Users.displayName = Some []
  ∧ Users.users
      (snd (Auth.handleGoogleSignIn okAuth signUpForm Users.initial))
      !! lit "carol" ≫= Users.displayName = Some (lit "carol").
Proof. split; by vm_compute. Qed.

(** ** The live page and the ranked list *)

(** X25. The live page holds the newest messages of the conversation,
    oldest first: it has at most [limitCount] messages, all of the
    conversation, in ascending order of time, and no message of the
    conversation that is left out is later than one on the page. *)
Theorem getChatMessages_newest (userId1 userId2 : jsstring) (limitCount : nat)
    (st : Firestore) :
  (length (getChatMessages userId1 userId2 limitCount st) ≤ limitCount)%nat
  ∧ length (getChatMessages userId1 userId2 limitCount st)
    = (limitCount `min`
       size (collection st (createChatId userId1 userId2)))%nat
  ∧ StronglySorted (λ a b, desc_le b a)
      (getChatMessages userId1 userId2 limitCount st)
  ∧ (∀ d, d ∈ getChatMessages userId1 userId2 limitCount st →
          collection st (createChatId userId1 userId2) !! d.1 = Some d.2)
  ∧ (∀ i m d,
       collection st (createChatId userId1 userId2) !! i = Some m →
       (i, m) ∉ getChatMessages userId1 userId2 limitCount st →
       d ∈ getChatMessages userId1 userId2 limitCount st →
       desc_le d (i, m)).
Proof.
  rewrite getChatMessages_latestFirst.
  set (c := collection st (createChatId userId1 userId2)).
  pose proof (latestFirst_sorted c) as Hs.
  rewrite <- (take_drop limitCount (latestFirst c)) in Hs.
  apply StronglySorted_app in Hs as (Hcross & Htake & _).
  split_and!.
  - rewrite length_reverse, length_take. lia.
  - rewrite length_reverse, length_take. unfold latestFirst, docs.
    rewrite !sort_perm, length_map_to_list. done.
  - by apply (StronglySorted_reverse desc_le).
  - intros d Hd. rewrite elem_of_reverse in Hd.
    apply elem_of_take in Hd as (k & Hd & _).
    apply elem_of_latestFirst. by eapply list_elem_of_lookup_2.
  - intros i m d Him Hout Hd. rewrite elem_of_reverse in Hout, Hd.
    apply Hcross; [done|].
    assert ((i, m) ∈ latestFirst c) as Hin by by apply elem_of_latestFirst.
    rewrite <- (take_drop limitCount (latestFirst c)) in Hin.
    apply elem_of_app in Hin as [?|?]; done.
Qed.

(** X26. The ranked list holds the users other than the current one,
    each as often as the users array does: ranking loses and repeats
    nobody, and never lists the current user. *)
Theorem filteredUsers_same_users (s : Messages.State) :
  map OtherUser.user (Messages.filteredUsers s)
  ≡ₚ filter (λ user, Some (User.id user) ≠ Messages.currentUser s)
       (Messages.users s)
  ∧ ∀ r, r ∈ Messages.filteredUsers s →
         Some (OtherUser.id r) ≠ Messages.currentUser s.
Proof.
  assert (map OtherUser.user (Messages.filteredUsers s)
          ≡ₚ filter (λ user, Some (User.id user) ≠ Messages.currentUser s)
               (Messages.users s)) as Hperm.
  { unfold Messages.filteredUsers. rewrite sort_perm, map_map. simpl.
    rewrite map_id.
    erewrite (filter_ext_in _
                (λ user, Some (User.id user) ≠ Messages.currentUser s));
      [done|].
    intros user _. unfold Messages.isOther.
    rewrite negb_true_iff, bool_decide_eq_false. done. }
  split; [done|]. intros r Hr.
  assert (OtherUser.user r ∈ map OtherUser.user (Messages.filteredUsers s)) as Hin
    by (apply list_elem_of_fmap; by exists r).
  rewrite Hperm in Hin. by apply list_elem_of_filter in Hin as [? _].
Qed.

(** A display name that starts with a space and does not end with one
    gives the initials of [undefined]. *)
Example getInitials_undefined (toUpperCase : jsstring → jsstring) :
  getInitials toUpperCase (Some (lit " bob")) None
  = Some (toUpperCase (lit "undefinedb"))
  ∧ getInitials toUpperCase (Some (lit " bob ")) (Some (lit "b@x.org"))
    = None.
Proof. split; reflexivity. Qed.

(** ** The properties above at sample inputs *)

Lemma append_outcome_witness :
  ∃ d,
    chats (snd (append alice bob (okEnv (lit "m1") 1, SendText (lit " hi "))
                  emptyStore)) !! createChatId alice bob = Some d
    ∧ participants d = Some [alice; bob]
    ∧ lastMessage d
      = Some (previewOf (okEnv (lit "m1") 1, SendText (lit " hi ")))
    ∧ lastMessageTimestamp d
      = Some (metadataTime (fst (okEnv (lit "m1") 1, SendText (lit " hi "))))
    ∧ lastMessageSender d = Some alice.
Proof.
  destruct (append_outcome alice bob
              (okEnv (lit "m1") 1, SendText (lit " hi ")) emptyStore)
    as (_ & _ & _ & _ & H).
  apply H. reflexivity.
Defined.

Lemma markMessagesAsRead_effect_witness :
  ∃ m,
    collection
      (markMessagesAsRead okRead (createChatId alice bob) bob afterThreeSends)
      (createChatId alice bob) !! lit "m1" = Some m
    ∧ read m = true.
Proof.
  destruct (markMessagesAsRead_effect okRead (createChatId alice bob) bob
              afterThreeSends) as (_ & _ & _ & H).
  eexists. split; [by vm_compute|].
  apply (H eq_refl (λ _, eq_refl) (lit "m1")); by vm_compute.
Defined.

Lemma onAuthStateChange_outcome_witness :
  Users.users
    (snd (Users.onAuthStateChange (okProfile 1) true
            {| seconds := 1; nanoseconds := 0 |} (Some carol) signedOut
            Users.initial))
    !! Users.uid carol ≫= Users.isOnline = Some true.
Proof.
  destruct (onAuthStateChange_outcome (okProfile 1) true
              {| seconds := 1; nanoseconds := 0 |} (Some carol) signedOut
              Users.initial) as (_ & _ & _ & H & _).
  apply H; reflexivity.
Defined.

Lemma getAllUsers_cache_witness :
  fst (Users.getAllUsers true 2000
         (Users.updateUserOnlineStatus true {| seconds := 2; nanoseconds := 0 |}
            (lit "carol") false cachedCarol))
  = fst (Users.getAllUsers true 2000 cachedCarol).
Proof.
  destruct (getAllUsers_cache true 2000 cachedCarol) as (H & _).
  apply H. reflexivity.
Defined.

Lemma handleSubmit_outcome_witness :
  Users.users (snd (Auth.handleSubmit okAuth signUpForm Users.initial))
    !! Users.uid carol ≫= Users.displayName
  = Some (Auth.fullName (Auth.formData signUpForm)).
Proof.
  destruct (handleSubmit_outcome okAuth signUpForm Users.initial)
    as (_ & _ & _ & _ & H).
  apply H; by vm_compute.
Defined.

(** ** Object URLs of previews *)

Lemma handleSendMedia_objectURLs upl env s stg st :
  Media.objectURLs (stateOf (Media.handleSendMedia upl env s stg st))
  = Media.objectURLs s.
Proof.
  unfold Media.handleSendMedia, stateOf.
  destruct (Media.selectedMedia s) as [media|]; [|done].
  destruct (negb _ || _); [done|].
  destruct (Media.currentUser s) as [uid|]; [|done].
  set (s1 := Media.setIsActivelyChatting true (Media.setIsUploading true s)).
  destruct (onProgress_cells (events upl) s1) as (_ & _ & _ & _ & Hu).
  change (Media.objectURLs s1) with (Media.objectURLs s) in Hu.
  destruct (uploadFile upl (Media.file media) uid _ stg) as [[fileInfo|] stg'];
    [|done].
  destruct (sendMediaMessage env uid _ fileInfo (Media.type media) st)
    as [[|] st']; done.
Qed.

Lemma handleFileSelect_objectURLs toLowerCase objectURL files s url :
  url ∈ Media.objectURLs s →
  url ∈ Media.objectURLs
          (snd (Media.handleFileSelect toLowerCase objectURL files s)).
Proof.
  intros Hin. unfold Media.handleFileSelect.
  destruct files as [|file files]; [done|].
  destruct (Media.maxSize <? File.size file)%N; [done|].
  destruct (negb _); [done|]. simpl.
  destruct (startsWith (File.type file) (lit "image/")); [|done].
  apply elem_of_app. by left.
Qed.

(** X27. The object URL made for the preview of an image stays alive
    through a send, whatever its outcome, and through the choice of
    another file; only [handleCancelMedia] revokes it. *)
Theorem preview_url_is_revoked_on_cancel_only
    (toLowerCase : jsstring → jsstring) (objectURL : jsstring)
    (file : File.t) (files : list File.t) (s : Media.State) :
  (File.size file ≤ 52428800)%N →
  startsWith (File.type file) (lit "image/") = true →
  objectURL ≠ [] →
  (∀ upl env stg st,
     objectURL ∈
       Media.objectURLs
         (stateOf
            (Media.handleSendMedia upl env
               (snd (Media.handleFileSelect toLowerCase objectURL
                       (file :: files) s)) stg st)))
  ∧ (∀ objectURL' files',
       objectURL ∈
         Media.objectURLs
           (snd (Media.handleFileSelect toLowerCase objectURL' files'
                   (snd (Media.handleFileSelect toLowerCase objectURL
                           (file :: files) s)))))
  ∧ objectURL ∉
      Media.objectURLs
        (Media.handleCancelMedia
           (snd (Media.handleFileSelect toLowerCase objectURL
                   (file :: files) s))).
Proof.
  intros Hsize Himage Hurl.
  assert (snd (Media.handleFileSelect toLowerCase objectURL (file :: files) s)
          = Media.setShowMediaPreview true
              (Media.setSelectedMedia
                 (Some {| Media.file := file;
                          Media.type := Media.getMessageType toLowerCase file;
                          Media.preview := Some objectURL;
                          Media.name := File.name file |})
                 (Media.setObjectURLs (Media.objectURLs s ++ [objectURL]) s)))
    as ->.
  { unfold Media.handleFileSelect. change Media.maxSize with 52428800%N.
    destruct (N.ltb_spec 52428800 (File.size file)); [lia|].
    unfold existsb. by rewrite Himage. }
  assert (objectURL ∈ Media.objectURLs s ++ [objectURL]) as Hin.
  { apply elem_of_app. right. left. }
  split_and!.
  - intros upl env stg st. by rewrite handleSendMedia_objectURLs.
  - intros objectURL' files'. by apply handleFileSelect_objectURLs.
  - unfold Media.handleCancelMedia. simpl.
    destruct objectURL as [|c url]; [done|]. simpl.
    intros [Hne _]%list_elem_of_filter. done.
Qed.

Lemma preview_url_is_revoked_on_cancel_only_witness :
  (∀ upl env stg st,
     lit "blob:1" ∈
       Media.objectURLs
         (stateOf
            (Media.handleSendMedia upl env
               (snd (Media.handleFileSelect asIs (lit "blob:1")
                       [catFile] picking)) stg st)))
  ∧ (∀ objectURL' files',
       lit "blob:1" ∈
         Media.objectURLs
           (snd (Media.handleFileSelect asIs objectURL' files'
                   (snd (Media.handleFileSelect asIs (lit "blob:1")
                           [catFile] picking)))))
  ∧ lit "blob:1" ∉
      Media.objectURLs
        (Media.handleCancelMedia
           (snd (Media.handleFileSelect asIs (lit "blob:1")
                   [catFile] picking))).
Proof.
  apply (preview_url_is_revoked_on_cancel_only asIs (lit "blob:1") catFile []
           picking); by vm_compute.
Defined.
